(** * Synchronisation layer of the careers page objects

    A shallow embedding of [tests/pages/base_page.py] and
    [tests/pages/qa_jobs_page.py]: the explicit-wait facade, the
    stale-element retry decorator, the department auto-selection gate, the
    job-list stability detector and the two dropdown filter flows.

    Python code that talks to the browser becomes a computation over an
    explicit state (clock, page, command log).  A computation ends in a
    value, in a raised exception, or, for the fuelled loops only, out of
    fuel; every loop is shown to end within the fuel its caller provides. *)

From Stdlib Require Import ZArith List String Ascii Bool Lia.
Import ListNotations.

Local Open Scope string_scope.
Local Open Scope Z_scope.

(** ** Python values used by the page objects *)

(** [selenium.webdriver.common.by.By]: the locator strategies the pages use. *)
Inductive By : Type := ID | XPATH | CSS_SELECTOR | TAG_NAME.

(** A locator is the tuple [(By.X, "selector")]. *)
Definition Locator : Type := (By * string)%type.

(** Exception messages.  The f-strings of the source are kept structured:
    the values they interpolate are the constructor's arguments. *)
Inductive message : Type :=
| Text (s : string)
| ElementNotFound (locator : Locator)
    (* f"Element not found: {locator}" *)
| CannotFindDepartment (attempts : Z) (elapsed : Z)
    (* f"Cannot find department filter after {attempts} attempts ({elapsed:.1f}s). ..." *)
| DepartmentStillAll (elapsed : Z) (last_value : option string).
    (* f"TIMEOUT: Department still 'All' after {elapsed:.1f}s (last value: '{last}'). ..." *)

(** The exception classes that occur; all are subclasses of [Exception]. *)
Inductive exn : Type :=
| StaleElementReferenceException (m : message)
| NoSuchElementException (m : message)
| TimeoutException (m : message)
| Exception (m : message).

Definition is_stale (e : exn) : bool :=
  match e with StaleElementReferenceException _ => true | _ => false end.

Definition is_no_such_element (e : exn) : bool :=
  match e with NoSuchElementException _ => true | _ => false end.

(** Truthiness, as [if value:] and [not value] test it. *)
Class Truthy (V : Type) : Type := truthy : V -> bool.

#[export] Instance truthy_bool : Truthy bool := fun b => b.
#[export] Instance truthy_str : Truthy string :=
  fun s => match s with EmptyString => false | String _ _ => true end.
#[export] Instance truthy_list {A : Type} : Truthy (list A) :=
  fun l => match l with [] => false | _ :: _ => true end.
(** [None] is falsy; [Some v] is as truthy as [v]. *)
#[export] Instance truthy_option {A : Type} `{Truthy A} : Truthy (option A) :=
  fun o => match o with None => false | Some v => truthy v end.

(** [sub in s] on strings. *)
Fixpoint str_in (sub s : string) : bool :=
  if prefix sub s then true
  else match s with
       | EmptyString => false
       | String _ rest => str_in sub rest
       end.

(** ** Computations: state, exceptions, fuel *)

Inductive outcome (S A : Type) : Type :=
| Ok (a : A) (s : S)
| Raise (e : exn) (s : S)
| Diverge.

Arguments Ok {S A} a s.
Arguments Raise {S A} e s.
Arguments Diverge {S A}.

Definition M (S A : Type) : Type := S -> outcome S A.

Definition ret {S A : Type} (a : A) : M S A := fun s => Ok a s.

Definition bind {S A B : Type} (m : M S A) (f : A -> M S B) : M S B :=
  fun s => match m s with
           | Ok a s' => f a s'
           | Raise e s' => Raise e s'
           | Diverge => Diverge
           end.

Definition raise {S A : Type} (e : exn) : M S A := fun s => Raise e s.

Notation "x <- m ;; k" := (bind m (fun x => k))
  (at level 61, m at next level, right associativity).
Notation "m ;;; k" := (bind m (fun _ => k))
  (at level 61, right associativity).

(** [time.time()] and [time.sleep(d)] on a state, in milliseconds. *)
Class Clock (S : Type) : Type := {
  time : S -> Z;
  sleep : Z -> S -> S
}.

(** [range(n)] *)
Definition range (n : Z) : list Z := map Z.of_nat (seq 0 (Z.to_nat n)).

(** ** [retry_on_stale_element] (qa_jobs_page.py, lines 14-36) *)

Section RetryOnStale.
Context {S A : Type} `{Clock S}.

(** The [for attempt in range(max_attempts)] loop of [wrapper]: [func] is
    the decorated function applied to its arguments.  Only
    [StaleElementReferenceException] is caught; the last attempt re-raises
    it, the others sleep 0.5 s.  The result is [None] when the loop falls
    through to [return None]. *)
Fixpoint wrapper_attempts (attempts : list Z) (max_attempts : Z)
         (func : M S A) : M S (option A) :=
  match attempts with
  | [] => ret None
  | attempt :: rest =>
      fun s =>
        match func s with
        | Ok v s' => Ok (Some v) s'
        | Raise e s' =>
            if is_stale e then
              if attempt =? max_attempts - 1 then Raise e s'
              else wrapper_attempts rest max_attempts func (sleep 500 s')
            else Raise e s'
        | Diverge => Diverge
        end
  end.

Definition retry_on_stale_element (max_attempts : Z) (func : M S A)
  : M S (option A) :=
  wrapper_attempts (range max_attempts) max_attempts func.

End RetryOnStale.

(** A test double for a wrapped operation: the k-th invocation (from 0)
    answers [script k]; the state counts invocations and keeps the clock. *)
Record Harness : Type := { h_clock : Z; h_calls : nat }.

#[export] Instance harness_clock : Clock Harness := {
  time h := h_clock h;
  sleep d h := {| h_clock := h_clock h + d; h_calls := h_calls h |}
}.

Definition scripted {A : Type} (script : nat -> A + exn) : M Harness A :=
  fun h =>
    let h' := {| h_clock := h_clock h; h_calls := Datatypes.S (h_calls h) |} in
    match script (h_calls h) with
    | inl v => Ok v h'
    | inr e => Raise e h'
    end.

(** ** Text *)

(** Page text is UTF-8; [byte] is the value of one byte of it. *)
Definition byte (c : ascii) : Z := Z.of_N (N_of_ascii c).

(** Number of bytes of the whitespace character at the head of [s], 0 when
    [s] does not start with one.  These are the characters [str.strip()]
    removes: U+0009-000D, U+001C-0020, U+0085, U+00A0, U+1680,
    U+2000-200A, U+2028, U+2029, U+202F, U+205F, U+3000. *)
Definition ws_len (s : string) : nat :=
  match s with
  | EmptyString => 0%nat
  | String a r =>
      let a := byte a in
      if ((9 <=? a) && (a <=? 13)) || ((28 <=? a) && (a <=? 32)) then 1%nat
      else
        match r with
        | EmptyString => 0%nat
        | String b r' =>
            let b := byte b in
            if (a =? 194) && ((b =? 133) || (b =? 160)) then 2%nat
            else
              match r' with
              | EmptyString => 0%nat
              | String c _ =>
                  let c := byte c in
                  if (a =? 225) && (b =? 154) && (c =? 128) then 3%nat
                  else if (a =? 226) && (b =? 128)
                          && (((128 <=? c) && (c <=? 138))
                              || (c =? 168) || (c =? 169) || (c =? 175))
                       then 3%nat
                  else if (a =? 226) && (b =? 129) && (c =? 159) then 3%nat
                  else if (a =? 227) && (b =? 128) && (c =? 128) then 3%nat
                  else 0%nat
              end
        end
  end.

Fixpoint drop (n : nat) (s : string) : string :=
  match n, s with
  | Datatypes.S n', String _ r => drop n' r
  | _, _ => s
  end.

Fixpoint lstrip_upto (fuel : nat) (s : string) : string :=
  match fuel with
  | O => s
  | Datatypes.S fuel' =>
      match ws_len s with
      | O => s
      | n => lstrip_upto fuel' (drop n s)
      end
  end.

Definition lstrip (s : string) : string := lstrip_upto (String.length s) s.

Definition all_whitespace (s : string) : bool :=
  match lstrip s with EmptyString => true | _ => false end.

Fixpoint rstrip (s : string) : string :=
  match s with
  | EmptyString => EmptyString
  | String c r => if all_whitespace s then EmptyString else String c (rstrip r)
  end.

(** [s.strip()] *)
Definition strip (s : string) : string := rstrip (lstrip s).

(** ** The browser session *)

(** What a driver call answers: a value or a raised exception. *)
Definition reply (A : Type) : Type := (A + exn)%type.

(** An element handle together with what reading it answers.  [child_text
    loc] is [handle.find_element(loc).text]; it answers with an exception
    when the handle is stale or has no such descendant. *)
Record WebElement : Type := {
  node : nat;
  is_displayed : bool;
  is_enabled : bool;
  text : reply string;
  offsetTop : Z;
  child_text : Locator -> reply string
}.

#[export] Instance truthy_element : Truthy WebElement := fun _ => true.

(** The rendered document at one instant. *)
Record Page : Type := {
  find_all : Locator -> list WebElement;
  current_url : string
}.

(** Values passed to and returned from [execute_script]. *)
Inductive JsValue : Type :=
| JsElem (e : WebElement)
| JsNum (z : Z)
| JsFalse
| JsNull.

(** The command log of the session. *)
Inductive Event : Type :=
| Lookup (locator : Locator) (found : list WebElement)
    (* driver.find_element / driver.find_elements and its answer *)
| NativeClick (target : WebElement)          (* element.click() *)
| Dispatch (type : string) (target : WebElement)
    (* element.dispatchEvent(new MouseEvent(type, ...)) inside a script *)
| ScriptClick (target : WebElement)          (* element.click() inside a script *)
| ScrollTopSet (container : WebElement) (value : Z).

(** The session: a clock in milliseconds, the page the site renders at each
    instant, the time a lookup issued at a given instant takes to answer
    (round trip and the driver's implicit wait), and the log, oldest first.
    The page is an arbitrary function of time, so it also stands for every
    reaction of the site to the logged commands. *)
Record World : Type := {
  w_time : Z;
  w_page : Z -> Page;
  w_latency : Z -> N;
  w_log : list (Z * Event)
}.

#[export] Instance world_clock : Clock World := {
  time w := w_time w;
  sleep d w := {| w_time := w_time w + d; w_page := w_page w;
                  w_latency := w_latency w; w_log := w_log w |}
}.

Definition emit (ev : Event) : M World unit :=
  fun w => Ok tt {| w_time := w_time w; w_page := w_page w;
                    w_latency := w_latency w;
                    w_log := w_log w ++ [(w_time w, ev)] |}.

(** [driver.find_elements(locator)]: answers, after the lookup's latency,
    with the elements the page has then. *)
Definition driver_find_elements (locator : Locator) : M World (list WebElement) :=
  fun w =>
    let t := w_time w + Z.of_N (w_latency w (w_time w)) in
    let found := find_all (w_page w t) locator in
    Ok found {| w_time := t; w_page := w_page w; w_latency := w_latency w;
                w_log := w_log w ++ [(t, Lookup locator found)] |}.

(** [driver.find_element(locator)]: the first such element, or
    [NoSuchElementException]. *)
Definition driver_find_element (locator : Locator) : M World WebElement :=
  found <- driver_find_elements locator ;;
  match found with
  | [] => raise (NoSuchElementException (Text ""))
  | e :: _ => ret e
  end.

Definition answer {A : Type} (r : reply A) : M World A :=
  fun w => match r with inl v => Ok v w | inr e => Raise e w end.

(** ** selenium's expected conditions and [WebDriverWait.until] *)

Definition presence_of_element_located (locator : Locator) : M World WebElement :=
  driver_find_element locator.

Definition presence_of_all_elements_located (locator : Locator)
  : M World (list WebElement) :=
  driver_find_elements locator.

(** Answers the element, or [False] (here [None]) while it is hidden. *)
Definition visibility_of_element_located (locator : Locator)
  : M World (option WebElement) :=
  e <- driver_find_element locator ;;
  ret (if is_displayed e then Some e else None).

Definition visibility_of_any_elements_located (locator : Locator)
  : M World (list WebElement) :=
  found <- driver_find_elements locator ;;
  ret (filter is_displayed found).

Definition element_to_be_clickable (locator : Locator)
  : M World (option WebElement) :=
  e <- driver_find_element locator ;;
  ret (if is_displayed e && is_enabled e then Some e else None).

Section Until.
Context {V : Type} `{Truthy V}.

(** The polling loop of [WebDriverWait.until]: evaluate the condition,
    return its value when truthy, ignore [NoSuchElementException], sleep the
    poll interval (0.5 s), give up with [TimeoutException] once the clock is
    past [end_time]. *)
Fixpoint until_loop (fuel : nat) (end_time : Z) (method : M World V) : M World V :=
  fun w =>
    match fuel with
    | O => Diverge
    | Datatypes.S fuel' =>
        let again w1 :=
          let w2 := sleep 500 w1 in
          if end_time <? time w2 then Raise (TimeoutException (Text "")) w2
          else until_loop fuel' end_time method w2 in
        match method w with
        | Ok value w1 => if truthy value then Ok value w1 else again w1
        | Raise e w1 => if is_no_such_element e then again w1 else Raise e w1
        | Diverge => Diverge
        end
    end.

(** [WebDriverWait(driver, timeout).until(method)], [timeout] in seconds. *)
Definition until (timeout : Z) (method : M World V) : M World V :=
  fun w => until_loop (Datatypes.S (Z.to_nat (2 * timeout)))
                      (time w + 1000 * timeout) method w.

End Until.

(** ** [BasePage] (base_page.py) *)

(** [find_element]: the wait's [TimeoutException] is turned into
    [NoSuchElementException(f"Element not found: {locator}")]. *)
Definition find_element (locator : Locator) (timeout : Z) : M World WebElement :=
  fun w =>
    match until timeout (presence_of_element_located locator) w with
    | Raise (TimeoutException _) w' =>
        Raise (NoSuchElementException (ElementNotFound locator)) w'
    | r => r
    end.

(** [find_elements]: the wait's outcome as it is. *)
Definition find_elements (locator : Locator) (timeout : Z)
  : M World (list WebElement) :=
  until timeout (presence_of_all_elements_located locator).

(** [click]: wait until clickable, then [element.click()].  The wait only
    returns a truthy value, so the [None] branch is never taken. *)
Definition click (locator : Locator) (timeout : Z) : M World unit :=
  element <- until timeout (element_to_be_clickable locator) ;;
  match element with
  | Some e => emit (NativeClick e)
  | None => raise (Exception (Text "AttributeError"))
  end.

(** ** [QAJobsPage] (qa_jobs_page.py) *)

Definition LOCATION_FILTER : Locator := (ID, "select2-filter-by-location-container").
Definition DEPARTMENT_FILTER : Locator := (ID, "select2-filter-by-department-container").
Definition JOB_ITEMS : Locator := (CSS_SELECTOR, ".position-list-item").
Definition JOB_DEPARTMENT : Locator := (CSS_SELECTOR, ".position-department").
Definition JOB_LOCATION : Locator := (CSS_SELECTOR, ".position-location").
Definition WAIT_TIME : Z := 60.

(** The three scripts the filters pass to [driver.execute_script]. *)
Inductive Script : Type :=
| OffsetTopScript    (* return arguments[0].offsetTop; *)
| ScrollTopScript    (* arguments[0].scrollTop = arguments[1] - 100; *)
| ActivateScript.
    (* dispatchEvent(mousedown); dispatchEvent(mouseup); element.click(); *)

Definition execute_script (script : Script) (args : list JsValue)
  : M World JsValue :=
  match script, args with
  | OffsetTopScript, JsElem e :: _ => ret (JsNum (offsetTop e))
  | ScrollTopScript, JsElem c :: JsNum p :: _ =>
      emit (ScrollTopSet c (p - 100)) ;;; ret JsNull
  | ActivateScript, JsElem element :: _ =>
      emit (Dispatch "mousedown" element) ;;;
      emit (Dispatch "mouseup" element) ;;;
      emit (ScriptClick element) ;;;
      ret JsNull
  | _, _ => raise (Exception (Text "JavascriptException"))
  end.

(** *** [_ensure_department_not_all] (lines 232-297) *)

Definition max_element_failures : Z := 10.

(** The body of the [try]: find the control, read and strip its text. *)
Definition read_department_text : M World string :=
  department_element <- driver_find_element DEPARTMENT_FILTER ;;
  t <- answer (text department_element) ;;
  ret (strip t).

(** The success test of the gate on the stripped text. *)
Definition department_ready (department_text : string) : bool :=
  truthy department_text && negb (str_in "All" department_text).

(** The [while time.time() < max_wait] loop. *)
Fixpoint ensure_loop (fuel : nat) (start_time max_wait : Z)
         (last_department_text : option string)
         (consecutive_element_failures : Z) : M World bool :=
  fun w =>
    if time w <? max_wait then
      match fuel with
      | O => Diverge
      | Datatypes.S fuel' =>
          match read_department_text w with
          | Ok department_text w1 =>
              if department_ready department_text then Ok true w1
              else ensure_loop fuel' start_time max_wait
                               (Some department_text) 0 (sleep 1000 w1)
          | Raise e w1 =>
              let consecutive_element_failures :=
                consecutive_element_failures + 1 in
              if max_element_failures <=? consecutive_element_failures then
                Raise (Exception (CannotFindDepartment
                                    consecutive_element_failures
                                    (time w1 - start_time))) w1
              else ensure_loop fuel' start_time max_wait
                               last_department_text
                               consecutive_element_failures (sleep 1000 w1)
          | Diverge => Diverge
          end
      end
    else
      Raise (Exception (DepartmentStillAll (time w - start_time)
                                           last_department_text)) w.

(** [timeout] in seconds. *)
Definition _ensure_department_not_all (timeout : Z) : M World bool :=
  fun w =>
    let start_time := time w in
    let max_wait := start_time + 1000 * timeout in
    ensure_loop (Z.to_nat timeout) start_time max_wait None 0 w.

(** *** [_wait_for_jobs_stable] (lines 299-378) *)

(** The pair [(stable_count, stable_checks)]. *)
Record Stability : Type := {
  stable_count : option Z;
  stable_checks : Z
}.

Definition initial_stability : Stability :=
  {| stable_count := None; stable_checks := 0 |}.

(** "Track stability" of the branch without criteria. *)
Definition track_plain (st : Stability) (job_count : Z) : Stability :=
  match stable_count st with
  | None => {| stable_count := Some job_count; stable_checks := 1 |}
  | Some c =>
      if (job_count =? c) && (0 <? job_count)
      then {| stable_count := stable_count st;
              stable_checks := stable_checks st + 1 |}
      else {| stable_count := Some job_count; stable_checks := 1 |}
  end.

(** "Track stability" of the branch with criteria. *)
Definition track_matching (st : Stability) (job_count : Z) : Stability :=
  match stable_count st with
  | None => {| stable_count := Some job_count; stable_checks := 1 |}
  | Some c =>
      if job_count =? c
      then {| stable_count := stable_count st;
              stable_checks := stable_checks st + 1 |}
      else {| stable_count := Some job_count; stable_checks := 1 |}
  end.

(** The [try] body for one card: [inr] stands for the exception that makes
    the loop [continue]. *)
Definition job_matches (expected_department expected_location : option string)
           (job : WebElement) : reply bool :=
  match (if truthy expected_department
         then match child_text job JOB_DEPARTMENT with
              | inl d => inl (Some d)
              | inr e => inr e
              end
         else inl None) with
  | inr e => inr e
  | inl department =>
      match (if truthy expected_location
             then match child_text job JOB_LOCATION with
                  | inl l => inl (Some l)
                  | inr e => inr e
                  end
             else inl None) with
      | inr e => inr e
      | inl location =>
          let department_match :=
            negb (truthy expected_department)
            || match expected_department, department with
               | Some ed, Some d => str_in ed d
               | _, _ => false
               end in
          let location_match :=
            negb (truthy expected_location)
            || match expected_location, location with
               | Some el, Some l => (el =? l)%string
               | _, _ => false
               end in
          inl (department_match && location_match)
      end
  end.

(** The [for job in jobs] loop: the final value of [matches]. *)
Fixpoint any_job_matches (expected_department expected_location : option string)
         (jobs : list WebElement) : bool :=
  match jobs with
  | [] => false
  | job :: rest =>
      match job_matches expected_department expected_location job with
      | inl true => true
      | _ => any_job_matches expected_department expected_location rest
      end
  end.

(** One pass of the loop body on the sampled cards: whether it returns
    [True], and the stability pair afterwards. *)
Definition sample_step (expected_department expected_location : option string)
           (max_stable_checks : Z) (st : Stability) (jobs : list WebElement)
  : bool * Stability :=
  let job_count := Z.of_nat (List.length jobs) in
  if negb (truthy expected_department) && negb (truthy expected_location) then
    let st' := track_plain st job_count in
    (max_stable_checks <=? stable_checks st', st')
  else
    let matches := any_job_matches expected_department expected_location jobs in
    let st' := track_matching st job_count in
    (matches && (max_stable_checks <=? stable_checks st'), st').

(** The [while time.time() < timeout] loop. *)
Fixpoint jobs_stable_loop (fuel : nat)
         (expected_department expected_location : option string)
         (max_stable_checks : Z) (timeout : Z) (st : Stability) : M World bool :=
  fun w =>
    if time w <? timeout then
      match fuel with
      | O => Diverge
      | Datatypes.S fuel' =>
          match driver_find_elements JOB_ITEMS w with
          | Ok jobs w1 =>
              let '(done, st') :=
                sample_step expected_department expected_location
                            max_stable_checks st jobs in
              if done then Ok true w1
              else jobs_stable_loop fuel' expected_department expected_location
                                    max_stable_checks timeout st'
                                    (sleep 1000 w1)
          | Raise e w1 => Raise e w1
          | Diverge => Diverge
          end
      end
    else Ok false w.

Definition _wait_for_jobs_stable
           (expected_department expected_location : option string)
           (max_stable_checks : Z) : M World bool :=
  fun w =>
    jobs_stable_loop (Z.to_nat WAIT_TIME) expected_department expected_location
                     max_stable_checks (time w + 1000 * WAIT_TIME)
                     initial_stability w.

(** *** The filters (lines 109-230) *)

Definition OPTIONS_PANEL : Locator := (CSS_SELECTOR, ".select2-results__options").
Definition OPTIONS : Locator := (CSS_SELECTOR, ".select2-results__options li").

(** A wait's value as a script argument. *)
Definition js_of (v : option WebElement) : JsValue :=
  match v with Some e => JsElem e | None => JsFalse end.

Definition filter_by_location (location : string)
           (expected_department : option string) : M World unit :=
  _ensure_department_not_all 10 ;;;
  until WAIT_TIME (visibility_of_element_located LOCATION_FILTER) ;;;
  until WAIT_TIME (element_to_be_clickable LOCATION_FILTER) ;;;
  click LOCATION_FILTER 15 ;;;
  dropdown_container <-
    until WAIT_TIME (visibility_of_element_located OPTIONS_PANEL) ;;
  until WAIT_TIME (presence_of_all_elements_located OPTIONS) ;;;
  until WAIT_TIME (visibility_of_any_elements_located OPTIONS) ;;;
  let location_locator :=
    (CSS_SELECTOR, "li[data-select2-id*='" ++ location ++ "']") in
  location_option <-
    until WAIT_TIME (presence_of_element_located location_locator) ;;
  until WAIT_TIME (element_to_be_clickable location_locator) ;;;
  option_position <- execute_script OffsetTopScript [JsElem location_option] ;;
  execute_script ScrollTopScript [js_of dropdown_container; option_position] ;;;
  execute_script ActivateScript [JsElem location_option] ;;;
  until WAIT_TIME (presence_of_all_elements_located JOB_ITEMS) ;;;
  until WAIT_TIME (element_to_be_clickable JOB_ITEMS) ;;;
  _wait_for_jobs_stable expected_department (Some location) 3 ;;;
  ret tt.

Definition filter_by_department (department : string) : M World unit :=
  click DEPARTMENT_FILTER 15 ;;;
  dropdown_container <-
    until WAIT_TIME (visibility_of_element_located OPTIONS_PANEL) ;;
  until WAIT_TIME (presence_of_all_elements_located OPTIONS) ;;;
  let department_locator :=
    (XPATH, "//li[contains(text(),'" ++ department ++ "')]") in
  department_option <-
    until WAIT_TIME (presence_of_element_located department_locator) ;;
  option_position <- execute_script OffsetTopScript [JsElem department_option] ;;
  execute_script ScrollTopScript [js_of dropdown_container; option_position] ;;;
  execute_script ActivateScript [JsElem department_option] ;;;
  until WAIT_TIME (presence_of_all_elements_located JOB_ITEMS) ;;;
  until WAIT_TIME (element_to_be_clickable JOB_ITEMS) ;;;
  _wait_for_jobs_stable (Some department) None 2 ;;;
  ret tt.

(** ** Auxiliary notions for the statements *)

Section StaleRun.
Context {S A : Type} `{Clock S}.

(** [stale_run func k s s']: [k] successive invocations of [func], the first
    from [s], each raised [StaleElementReferenceException] and was followed
    by the 0.5 s back-off sleep; [s'] is the state after the last sleep. *)
Inductive stale_run (func : M S A) : nat -> S -> S -> Prop :=
| stale_run_O : forall s, stale_run func O s s
| stale_run_S : forall k s m s1 s',
    func s = Raise (StaleElementReferenceException m) s1 ->
    stale_run func k (sleep 500 s1) s' ->
    stale_run func (Datatypes.S k) s s'.

End StaleRun.

(** Sample scripts for the test double: two stale failures and then a value;
    stale failures for ever, told apart by their message. *)
Definition attempt_message (k : nat) : message :=
  match k with
  | O => Text "first"
  | 1%nat => Text "second"
  | 2%nat => Text "third"
  | _ => Text "later"
  end.

Definition always_stale (k : nat) : nat + exn :=
  inr (StaleElementReferenceException (attempt_message k)).

Definition stale_twice_then (v : nat) (k : nat) : nat + exn :=
  if (k <? 2)%nat then always_stale k else inl v.

(** One stale failure and then an exception of another class. *)
Definition stale_then_timeout (k : nat) : nat + exn :=
  if (k <? 1)%nat then always_stale k else inr (TimeoutException (Text "")).

(** What the gate reads from the answer of one lookup of the department
    control: the stripped text, or the exception of the failed read. *)
Definition department_reading (found : list WebElement) : reply string :=
  match found with
  | [] => inr (NoSuchElementException (Text ""))
  | e :: _ => match text e with
              | inl t => inl (strip t)
              | inr x => inr x
              end
  end.

Definition reading_ready (r : reply string) : bool :=
  match r with inl t => department_ready t | inr _ => false end.

Definition read_failed (r : reply string) : bool :=
  match r with inl _ => false | inr _ => true end.

(** The log entry of a lookup answered at [fst o] with [snd o]. *)
Definition lookup_entry (locator : Locator) (o : Z * list WebElement)
  : Z * Event :=
  (fst o, Lookup locator (snd o)).

(** How a call of the gate ends. *)
Inductive gate_end : Type :=
| GateReady
| GateAbort (attempts : Z)
| GateTimeout.

(** [gate_trace f rs v]: entered with [f] consecutive failures so far, the
    loop of the gate makes the successive readings [rs] and ends as [v]. *)
Inductive gate_trace : Z -> list (reply string) -> gate_end -> Prop :=
| gate_trace_timeout : forall f, gate_trace f [] GateTimeout
| gate_trace_ready : forall f t,
    department_ready t = true -> gate_trace f [inl t] GateReady
| gate_trace_wait : forall f t rs v,
    department_ready t = false -> gate_trace 0 rs v ->
    gate_trace f (inl t :: rs) v
| gate_trace_abort : forall f e,
    max_element_failures <= f + 1 -> gate_trace f [inr e] (GateAbort (f + 1))
| gate_trace_fail : forall f e rs v,
    f + 1 < max_element_failures -> gate_trace (f + 1) rs v ->
    gate_trace f (inr e :: rs) v.

(** The outcome of the gate that corresponds to an end of its loop, for a
    call entered at [start_time] and left in [w']. *)
Definition gate_outcome_is (start_time : Z) (out : outcome World bool)
           (v : gate_end) : Prop :=
  match out, v with
  | Ok b _, GateReady => b = true
  | Raise (Exception (CannotFindDepartment n el)) w', GateAbort n' =>
      n = n' /\ el = time w' - start_time
  | Raise (Exception (DepartmentStillAll el _)) w', GateTimeout =>
      el = time w' - start_time
  | _, _ => False
  end.

Definition final_world {A : Type} (out : outcome World A) (w : World) : World :=
  match out with Ok _ w' => w' | Raise _ w' => w' | Diverge => w end.

(** The state after a lookup issued in [w], and its answer. *)
Definition after_lookup (locator : Locator) (w : World) : World :=
  let t := w_time w + Z.of_N (w_latency w (w_time w)) in
  {| w_time := t; w_page := w_page w; w_latency := w_latency w;
     w_log := w_log w ++ [(t, Lookup locator (find_all (w_page w t) locator))] |}.

Definition lookup_answer (locator : Locator) (w : World) : list WebElement :=
  find_all (w_page w (w_time w + Z.of_N (w_latency w (w_time w)))) locator.

(** What a computation answered, without the final state. *)
Definition result_of {A : Type} (out : outcome World A) : option (A + exn) :=
  match out with
  | Ok a _ => Some (inl a)
  | Raise e _ => Some (inr e)
  | Diverge => None
  end.

(** ** Sample sessions *)

Definition By_eqb (a b : By) : bool :=
  match a, b with
  | ID, ID | XPATH, XPATH | CSS_SELECTOR, CSS_SELECTOR | TAG_NAME, TAG_NAME => true
  | _, _ => false
  end.

Definition locator_eqb (a b : Locator) : bool :=
  By_eqb (fst a) (fst b) && (snd a =? snd b)%string.

Definition no_child : Locator -> reply string :=
  fun _ => inr (NoSuchElementException (Text "")).

(** A visible, enabled element with the given text answer. *)
Definition plain_element (n : nat) (r : reply string) : WebElement :=
  {| node := n; is_displayed := true; is_enabled := true; text := r;
     offsetTop := 0; child_text := no_child |}.

(** A job card with the given department and location texts. *)
Definition job_card (n : nat) (department location : string) : WebElement :=
  {| node := n; is_displayed := true; is_enabled := true; text := inl "";
     offsetTop := 0;
     child_text := fun l =>
       if locator_eqb l JOB_DEPARTMENT then inl department
       else if locator_eqb l JOB_LOCATION then inl location
       else inr (NoSuchElementException (Text "")) |}.

(** A site that shows [states]'s i-th entry during second i and [rest]
    from then on. *)
Definition timeline {X : Type} (states : list X) (rest : X) (t : Z) : X :=
  nth (Z.to_nat (t / 1000)) states rest.

(** A page holding only the department control: absent ([None]) or with
    the given text answer. *)
Definition department_page (control : option (reply string)) : Page :=
  {| find_all := fun l =>
       if locator_eqb l DEPARTMENT_FILTER
       then match control with
            | None => []
            | Some r => [plain_element 1 r]
            end
       else [];
     current_url := "" |}.

(** A page holding only the given job cards. *)
Definition jobs_page (cards : list WebElement) : Page :=
  {| find_all := fun l => if locator_eqb l JOB_ITEMS then cards else [];
     current_url := "" |}.

(** A fresh session on the given site, with instantaneous lookups. *)
Definition session (site : Z -> Page) : World :=
  {| w_time := 0; w_page := site; w_latency := fun _ => 0%N; w_log := [] |}.

(** The department readings a log records, with their instants. *)
Definition department_readings (log : list (Z * Event)) : list (Z * reply string) :=
  flat_map (fun entry =>
              match snd entry with
              | Lookup l found =>
                  if locator_eqb l DEPARTMENT_FILTER
                  then [(fst entry, department_reading found)]
                  else []
              | _ => []
              end) log.

(** The department text goes from the decorated sentinel to a value. *)
Definition auto_selecting_site : Z -> Page :=
  fun t => department_page
             (Some (inl (timeline ["× All"; "× All"] "Quality Assurance" t))).

(** The department control is missing for [n] seconds and then shows a
    value. *)
Definition late_control_site (n : nat) : Z -> Page :=
  fun t => department_page
             (timeline (repeat None n) (Some (inl "Quality Assurance")) t).

(** Nine seconds without the control, one second showing the sentinel,
    nine more seconds without it, then a value. *)
Definition flickering_control_site : Z -> Page :=
  fun t => department_page
             (timeline (repeat None 9 ++ [Some (inl "All")] ++ repeat None 9)
                       (Some (inl "Quality Assurance")) t).

(** *** Traces of the stability detector *)

Section DetectorTrace.
Variables (expected_department expected_location : option string).
Variable max_stable_checks : Z.

(** The stability pair after one more sample. *)
Definition step_state (st : Stability) (jobs : list WebElement) : Stability :=
  snd (sample_step expected_department expected_location max_stable_checks st jobs).

(** Whether the loop body returns [True] on this sample. *)
Definition step_done (st : Stability) (jobs : list WebElement) : bool :=
  fst (sample_step expected_department expected_location max_stable_checks st jobs).

(** The stability pair after the given samples, oldest first. *)
Definition state_after (st : Stability) (samples : list (list WebElement))
  : Stability :=
  fold_left step_state samples st.

(** [detector_trace st samples b]: entered with the pair [st], the loop of
    the detector takes the successive [samples] and returns [b]. *)
Inductive detector_trace : Stability -> list (list WebElement) -> bool -> Prop :=
| detector_trace_timeout : forall st, detector_trace st [] false
| detector_trace_done : forall st jobs,
    step_done st jobs = true -> detector_trace st [jobs] true
| detector_trace_more : forall st jobs rest b,
    step_done st jobs = false ->
    detector_trace (step_state st jobs) rest b ->
    detector_trace st (jobs :: rest) b.

End DetectorTrace.

(** The number of cards of a sample, as [len(jobs)]. *)
Definition card_count (jobs : list WebElement) : Z := Z.of_nat (List.length jobs).

(** A card satisfies the criteria: each criterion that is given can be read
    from the card, the department text containing the expected department
    and the location text being equal to the expected location. *)
Definition card_satisfies (expected_department expected_location : option string)
           (job : WebElement) : Prop :=
  (forall ed, expected_department = Some ed -> ed <> "" ->
     exists d, child_text job JOB_DEPARTMENT = inl d
               /\ exists a b, d = (a ++ ed ++ b)%string)
  /\ (forall el, expected_location = Some el -> el <> "" ->
        child_text job JOB_LOCATION = inl el).

(** The job samples a log records. *)
Definition job_samples (log : list (Z * Event)) : list (Z * Z) :=
  flat_map (fun entry =>
              match snd entry with
              | Lookup l found =>
                  if locator_eqb l JOB_ITEMS
                  then [(fst entry, card_count found)]
                  else []
              | _ => []
              end) log.

Definition qa_card (n : nat) : WebElement :=
  job_card n "Quality Assurance" "Istanbul, Turkiye".

(** [n] cards of the Quality Assurance department in Istanbul. *)
Definition qa_cards (n : nat) : list WebElement := map qa_card (seq 0 n).

(** Four cards from the start on. *)
Definition steady_site : Z -> Page := fun _ => jobs_page (qa_cards 4).

(** The number of cards alternates between 4 and 5 every second. *)
Definition restless_site : Z -> Page :=
  fun t => jobs_page (qa_cards (if Z.even (t / 1000) then 4 else 5)).

(** No card at all. *)
Definition empty_site : Z -> Page := fun _ => jobs_page [].

(** Four cards of another department. *)
Definition sales_site : Z -> Page :=
  fun _ => jobs_page (map (fun n => job_card n "Sales" "Istanbul, Turkiye") (seq 0 4)).

(** Sales cards for three seconds, then Quality Assurance cards, four each. *)
Definition settling_site : Z -> Page :=
  fun t => if t <? 3000 then sales_site t else steady_site t.

(** [steady st h]: the stability pair [st] is backed by the history [h] of
    samples: the last [stable_checks st] samples of [h] all have
    [stable_count st] cards, and a count that was confirmed at least once is
    positive. *)
Definition steady (st : Stability) (h : list (list WebElement)) : Prop :=
  match stable_count st with
  | None => True
  | Some c =>
      exists pre suf,
        h = (pre ++ suf)%list
        /\ Z.of_nat (List.length suf) = stable_checks st
        /\ Forall (fun jobs => card_count jobs = c) suf
        /\ (2 <= stable_checks st -> 0 < c)
  end.

(** *** The stability counter in the words of the specification *)

(** The number of consecutive unchanged samples, read off the card counts
    alone, the newest count first: a first sample counts 1; a sample with
    as many cards as the one before it counts one more than that one did;
    any other sample counts 1 again. *)
Fixpoint unchanged_run (newest_first : list Z) : Z :=
  match newest_first with
  | [] => 0
  | count :: older =>
      match older with
      | [] => 1
      | previous :: _ =>
          if count =? previous then unchanged_run older + 1 else 1
      end
  end.

(** That number for the samples taken so far, oldest first. *)
Definition consecutive_unchanged (samples : list (list WebElement)) : Z :=
  unchanged_run (rev (map card_count samples)).

(** *** Frames *)

(** [step_to w w' news]: [w'] comes after [w] in the same session: the
    clock has not gone back, the site is the same, and the log has grown by
    [news]. *)
Definition step_to (w w' : World) (news : list (Z * Event)) : Prop :=
  time w <= time w'
  /\ w_page w' = w_page w
  /\ w_latency w' = w_latency w
  /\ w_log w' = (w_log w ++ news)%list.

Definition is_lookup (entry : Z * Event) : bool :=
  match snd entry with Lookup _ _ => true | _ => false end.

(** A log segment made of lookups only: nothing in it acts on the page. *)
Definition quiet (news : list (Z * Event)) : Prop :=
  forallb is_lookup news = true.

(** A computation that only looks the page up, whenever it ends. *)
Definition quiet_method {V : Type} (m : M World V) : Prop :=
  forall w,
    match m w with
    | Ok _ w' | Raise _ w' => exists news, step_to w w' news /\ quiet news
    | Diverge => True
    end.

(** A computation that always ends. *)
Definition total_method {V : Type} (m : M World V) : Prop :=
  forall w, m w <> Diverge.

Definition is_activation (entry : Z * Event) : bool :=
  match snd entry with
  | Dispatch _ _ | ScriptClick _ => true
  | _ => false
  end.

(** A log segment without any event of an option activation. *)
Definition calm (news : list (Z * Event)) : Prop :=
  forallb (fun entry => negb (is_activation entry)) news = true.

(** What the activation script does to the option node [target] at [t]. *)
Definition activation (t : Z) (target : WebElement) : list (Z * Event) :=
  [(t, Dispatch "mousedown" target); (t, Dispatch "mouseup" target);
   (t, ScriptClick target)].

(** [option_activated locator w w']: between [w] and [w'] exactly one
    option activation took place: pointer-down, pointer-up, click, in that
    order and on one node, which the page held under [locator] beforehand;
    and at some instant after it the page held a first job card that was
    displayed and enabled. *)
Definition option_activated (locator : Locator) (w w' : World) : Prop :=
  exists before target t after t0 t' card cards,
    w_log w' = (w_log w ++ before ++ activation t target ++ after)%list
    /\ calm before /\ quiet after
    /\ time w <= t0 <= t
    /\ In target (find_all (w_page w t0) locator)
    /\ t <= t' <= time w'
    /\ find_all (w_page w t') JOB_ITEMS = card :: cards
    /\ is_displayed card = true /\ is_enabled card = true.

(** The entries of a log that act on the page, each as its instant, its
    kind and the node it is aimed at. *)
Definition interactions (log : list (Z * Event)) : list (Z * string * nat) :=
  flat_map (fun entry =>
              match snd entry with
              | Lookup _ _ => []
              | NativeClick e => [(fst entry, "click", node e)]
              | Dispatch type e => [(fst entry, type, node e)]
              | ScriptClick e => [(fst entry, "script click", node e)]
              | ScrollTopSet c _ => [(fst entry, "scrollTop", node c)]
              end) log.

(** The open-positions page once rendered: the department control showing
    [department], the location control, the options panel with one option
    per filter value, and four Quality Assurance cards in Istanbul. *)
Definition careers_site (department : string) : Z -> Page :=
  fun _ =>
    {| find_all := fun l =>
         if locator_eqb l DEPARTMENT_FILTER then [plain_element 1 (inl department)]
         else if locator_eqb l LOCATION_FILTER then [plain_element 2 (inl "All")]
         else if locator_eqb l OPTIONS_PANEL then [plain_element 3 (inl "")]
         else if locator_eqb l OPTIONS
              then [plain_element 10 (inl "Istanbul, Turkiye");
                    plain_element 11 (inl "Quality Assurance")]
         else if locator_eqb l (CSS_SELECTOR, "li[data-select2-id*='Istanbul, Turkiye']")
              then [plain_element 10 (inl "Istanbul, Turkiye")]
         else if locator_eqb l (XPATH, "//li[contains(text(),'Quality Assurance')]")
              then [plain_element 11 (inl "Quality Assurance")]
         else if locator_eqb l JOB_ITEMS then qa_cards 4
         else [];
       current_url := "/careers/open-positions" |}.

(** The activation events of a log segment, in order. *)
Definition activations (news : list (Z * Event)) : list (Z * Event) :=
  filter is_activation news.

(** A computation that, whenever it ends, has logged no activation event. *)
Definition calm_method {V : Type} (m : M World V) : Prop :=
  forall w,
    match m w with
    | Ok _ w' | Raise _ w' =>
        exists news, step_to w w' news /\ activations news = []
    | Diverge => True
    end.

(** A computation that, whenever it ends, has logged no activation event
    or those of exactly one activation. *)
Definition orderly_method {V : Type} (m : M World V) : Prop :=
  forall w,
    match m w with
    | Ok _ w' | Raise _ w' =>
        exists news,
          step_to w w' news
          /\ (activations news = []
              \/ exists t target, activations news = activation t target)
    | Diverge => True
    end.

(** * The rest of the page objects *)

(** ** More of [BasePage] (base_page.py) *)

(** [self.wait = WebDriverWait(driver, 15)], set in [__init__]. *)
Definition PAGE_WAIT : Z := 15.

(** [get_text] (lines 82-93): [self.find_element(locator, timeout).text]. *)
Definition get_text (locator : Locator) (timeout : Z) : M World string :=
  e <- find_element locator timeout ;;
  answer (text e).

Section ElementIsDisplayed.
(** What the driver answers when a handle it has given out is asked, at a
    given instant, whether it is displayed: a truth value, or an exception
    (the handle has gone stale, say).  Left open: the statements hold
    whatever it answers. *)
Variable displayed_again : Z -> WebElement -> reply bool.

(** [element.is_displayed()] on a handle already held: one more call to the
    driver, answered after its latency.  It looks nothing up and does
    nothing to the page, so the record gets no entry. *)
Definition element_is_displayed (element : WebElement) : M World bool :=
  fun w =>
    let t := w_time w + Z.of_N (w_latency w (w_time w)) in
    let w' := {| w_time := t; w_page := w_page w; w_latency := w_latency w;
                 w_log := w_log w |} in
    match displayed_again t element with
    | inl b => Ok b w'
    | inr e => Raise e w'
    end.

(** [BasePage.is_displayed] (lines 95-111): the value of the wait is asked
    whether it is displayed.  A [TimeoutException] or a
    [NoSuchElementException], of the wait or of that call, gives [False];
    any other exception comes out.  (Named apart from the element's own
    [is_displayed].) *)
Definition BasePage_is_displayed (locator : Locator) (timeout : Z) : M World bool :=
  fun w =>
    match (element <- until timeout (visibility_of_element_located locator) ;;
           match element with
           | Some e => element_is_displayed e
           | None => raise (Exception (Text "AttributeError"))
           end) w with
    | Ok b w' => Ok b w'
    | Raise (TimeoutException _) w' => Ok false w'
    | Raise (NoSuchElementException _) w' => Ok false w'
    | Raise e w' => Raise e w'
    | Diverge => Diverge
    end.

End ElementIsDisplayed.

(** [driver.current_url]: the address of the page shown now. *)
Definition driver_current_url : M World string :=
  fun w => Ok (current_url (w_page w (time w))) w.

(** [EC.url_contains(fragment)] *)
Definition url_contains (fragment : string) : M World bool :=
  url <- driver_current_url ;;
  ret (str_in fragment url).

(** [wait_for_url_contains] (lines 113-125) *)
Definition wait_for_url_contains (url_fragment : string) (timeout : Z)
  : M World bool :=
  until timeout (url_contains url_fragment).

(** ** More of [QAJobsPage] (qa_jobs_page.py) *)

Definition JOB_POSITION : Locator := (CSS_SELECTOR, ".position-title").

(** [get_all_jobs] (lines 380-389) *)
Definition get_all_jobs : M World (list WebElement) :=
  until PAGE_WAIT (presence_of_all_elements_located JOB_ITEMS) ;;;
  find_elements JOB_ITEMS 15.

(** The body shared, up to the locator of the field, by [get_job_position],
    [get_job_department] and [get_job_location]: read the card; when that
    read is stale, fetch all cards again and read the first one, or give
    the empty string when there is none. *)
Definition read_card_or_first (field : Locator) (job_element : WebElement)
  : M World string :=
  fun w =>
    match child_text job_element field with
    | inl t => Ok t w
    | inr e =>
        if is_stale e then
          (jobs <- get_all_jobs ;;
           match jobs with
           | first :: _ => answer (child_text first field)
           | [] => ret ""
           end) w
        else Raise e w
    end.

(** [get_job_position] (lines 391-409), decorated with
    [retry_on_stale_element(max_attempts=3)]. *)
Definition get_job_position (job_element : WebElement) : M World (option string) :=
  retry_on_stale_element 3 (read_card_or_first JOB_POSITION job_element).

(** [get_job_department] (lines 411-429) *)
Definition get_job_department (job_element : WebElement) : M World (option string) :=
  retry_on_stale_element 3 (read_card_or_first JOB_DEPARTMENT job_element).

(** [get_job_location] (lines 431-449) *)
Definition get_job_location (job_element : WebElement) : M World (option string) :=
  retry_on_stale_element 3 (read_card_or_first JOB_LOCATION job_element).

(** [verify_job_details] (lines 451-479): the three texts are fetched, then
    tested with [in]; [all([...])] is their conjunction.  [in] applied to
    [None] is a [TypeError]. *)
Definition verify_job_details (job_element : WebElement)
           (expected_position_contains expected_department_contains
              expected_location_contains : string) : M World bool :=
  position <- get_job_position job_element ;;
  department <- get_job_department job_element ;;
  location <- get_job_location job_element ;;
  match position, department, location with
  | Some p, Some d, Some l =>
      ret (str_in expected_position_contains p
           && str_in expected_department_contains d
           && str_in expected_location_contains l)
  | _, _, _ => raise (Exception (Text "TypeError"))
  end.

Section Lever.
(** [str.lower()], left open: the statements hold whatever it computes. *)
Variable lower : string -> string.

(** [is_redirected_to_lever] (lines 518-532): a bare [except] turns every
    exception into [False]. *)
Definition is_redirected_to_lever : M World bool :=
  fun w =>
    match until WAIT_TIME (url <- driver_current_url ;;
                           ret (str_in "lever" (lower url))) w with
    | Ok _ w' => Ok true w'
    | Raise _ w' => Ok false w'
    | Diverge => Diverge
    end.

End Lever.

(** ** [CareersPage] (careers_page.py) *)

Definition LOCATIONS_BLOCK : Locator := (CSS_SELECTOR, "#career-our-location").
Definition TEAMS_BLOCK : Locator := (CSS_SELECTOR, "#career-find-our-calling").
Definition LIFE_AT_INSIDER_BLOCK : Locator :=
  (XPATH, "//h2[text()='Life at Insider']").

(** [is_careers_page_opened] (lines 24-31) *)
Definition is_careers_page_opened : M World bool :=
  url <- driver_current_url ;;
  ret (str_in "careers" url).

Section CareersBlocks.
(** The driver's answers to [element.is_displayed()], left open. *)
Variable displayed_again : Z -> WebElement -> reply bool.

Definition is_locations_block_displayed : M World bool :=
  BasePage_is_displayed displayed_again LOCATIONS_BLOCK 10.

Definition is_teams_block_displayed : M World bool :=
  BasePage_is_displayed displayed_again TEAMS_BLOCK 10.

Definition is_life_at_insider_block_displayed : M World bool :=
  BasePage_is_displayed displayed_again LIFE_AT_INSIDER_BLOCK 10.

(** [verify_all_blocks_displayed] (lines 45-56): [a() and b() and c()]. *)
Definition verify_all_blocks_displayed : M World bool :=
  locations <- is_locations_block_displayed ;;
  if locations then
    teams <- is_teams_block_displayed ;;
    if teams then is_life_at_insider_block_displayed else ret false
  else ret false.

End CareersBlocks.

(** ** [HomePage] (home_page.py) *)

Definition COMPANY_MENU : Locator := (XPATH, "//a[contains(text(),'Company')]").
Definition CAREERS_MENU_ITEM : Locator := (XPATH, "//a[contains(text(),'Careers')]").
Definition ACCEPT_COOKIES : Locator := (ID, "wt-cli-accept-all-btn").

(** [navigate_to_careers] (lines 44-55) *)
Definition navigate_to_careers : M World unit :=
  click COMPANY_MENU 15 ;;;
  click CAREERS_MENU_ITEM 15.

Section HomePageOpen.
(** [driver.get(url)], the driver's navigation, left open. *)
Variable driver_get : string -> M World unit.

(** The driver's answers to [element.is_displayed()], left open. *)
Variable displayed_again : Z -> WebElement -> reply bool.

(** [BasePage.navigate_to] (lines 135-137) *)
Definition navigate_to (url : string) : M World unit := driver_get url.

(** [HomePage.open] (lines 22-30): navigate, then accept the cookie banner
    when it is displayed within 5 s; the bare [except] swallows whatever
    that attempt raises. *)
Definition HomePage_open (base_url : string) : M World unit :=
  navigate_to (base_url ++ "/") ;;;
  fun w =>
    match (shown <- BasePage_is_displayed displayed_again ACCEPT_COOKIES 5 ;;
           if shown then click ACCEPT_COOKIES 15 else ret tt) w with
    | Ok _ w' => Ok tt w'
    | Raise _ w' => Ok tt w'
    | Diverge => Diverge
    end.

End HomePageOpen.

(** The three text getters of a job card, each with the field it reads. *)
Definition job_text_getters
  : list ((WebElement -> M World (option string)) * Locator) :=
  [(get_job_position, JOB_POSITION);
   (get_job_department, JOB_DEPARTMENT);
   (get_job_location, JOB_LOCATION)].

(** A card handle that the page has since re-rendered: every read of it is
    stale. *)
Definition stale_card (n : nat) : WebElement :=
  {| node := n; is_displayed := true; is_enabled := true;
     text := inr (StaleElementReferenceException (Text "stale"));
     offsetTop := 0;
     child_text := fun _ => inr (StaleElementReferenceException (Text "stale")) |}.

(** A page whose job cards are all stale by the time they are read. *)
Definition churning_site : Z -> Page :=
  fun _ => jobs_page [stale_card 0; stale_card 1].

(** A full job card: position, department and location texts. *)
Definition full_card (n : nat) (position department location : string)
  : WebElement :=
  {| node := n; is_displayed := true; is_enabled := true; text := inl "";
     offsetTop := 0;
     child_text := fun l =>
       if locator_eqb l JOB_POSITION then inl position
       else if locator_eqb l JOB_DEPARTMENT then inl department
       else if locator_eqb l JOB_LOCATION then inl location
       else inr (NoSuchElementException (Text "")) |}.

(** A condition on the address of the page shown now, as the waits on the
    address poll it. *)
Definition url_test (test : string -> bool) : M World bool :=
  url <- driver_current_url ;; ret (test url).

(** * The deployment script (scripts/deploy_and_run.py) *)

From Stdlib Require Import DecimalString.

(** [str(n)] for an integer, as an f-string prints it. *)
Definition str_of_int (n : Z) : string := NilZero.string_of_int (Z.to_int n).

(** What [subprocess.run] captures of a finished command. *)
Record ProcessResult : Type := {
  returncode : Z;
  stdout : string;
  stderr : string
}.

(** A pod as the script reads it: [metadata.name], [status.phase] and
    [status.conditions] (which may be [None]) as (type, status) pairs. *)
Record Pod : Type := {
  pod_name : string;
  pod_phase : string;
  pod_conditions : option (list (string * string))
}.

(** A service as the script reads it: its name and [spec.ports] (which may
    be [None]) as (port, protocol) pairs. *)
Record Service : Type := {
  svc_name : string;
  svc_ports : option (list (Z * string))
}.

(** An answer of the cluster API: a value, or an [ApiException] with its
    status. *)
Definition api_reply (A : Type) : Type := (A + Z)%type.

(** The calls the script makes outside itself. *)
Inductive Call : Type :=
| ShellCall (cmd : string)
| LoadKubeConfig
| ListPods (namespace : string) (label_selector : option string)
| ReadPodLog (name namespace container : string)
| ListDeployments (namespace : string)
| ListJobs (namespace : string)
| ListServices (namespace : string).

(** The world of the script: a clock in milliseconds; what the shell, the
    kube config and the cluster API answer at each instant; the time a call
    issued at a given instant takes; and the calls made so far, oldest
    first. *)
Record Cluster : Type := {
  c_time : Z;
  c_shell : Z -> string -> ProcessResult;
  c_kube_config : Z -> bool;
  c_pods : Z -> string -> option string -> api_reply (list Pod);
  c_pod_log : Z -> string -> string -> string -> api_reply string;
  c_deployments : Z -> string -> api_reply (list string);
  c_jobs : Z -> string -> api_reply (list string);
  c_services : Z -> string -> api_reply (list Service);
  c_latency : Z -> N;
  c_calls : list (Z * Call)
}.

Definition set_clock (t : Z) (calls : list (Z * Call)) (c : Cluster) : Cluster :=
  {| c_time := t; c_shell := c_shell c; c_kube_config := c_kube_config c;
     c_pods := c_pods c; c_pod_log := c_pod_log c;
     c_deployments := c_deployments c; c_jobs := c_jobs c;
     c_services := c_services c; c_latency := c_latency c;
     c_calls := calls |}.

#[export] Instance cluster_clock : Clock Cluster := {
  time c := c_time c;
  sleep d c := set_clock (c_time c + d) (c_calls c) c
}.

(** Make a call: it is answered after its latency and recorded then. *)
Definition perform (what : Call) : M Cluster unit :=
  fun c =>
    let t := c_time c + Z.of_N (c_latency c (c_time c)) in
    Ok tt (set_clock t (c_calls c ++ [(t, what)])%list c).

(** An API call: its answer, read at the instant it is given. *)
Definition api {A : Type} (what : Call) (answer_at : Cluster -> Z -> api_reply A)
  : M Cluster (api_reply A) :=
  perform what ;;; fun c => Ok (answer_at c (c_time c)) c.

(** The parsed command line ([parse_args], lines 21-61). *)
Record Args : Type := {
  node_count : Z;
  namespace : string;
  wait_timeout : Z;
  cleanup : bool;
  helm_chart_path : string;
  values_file : option string
}.

(** [run_command] (lines 64-87).  With [check=True] a non-zero return code
    makes [subprocess.run] raise [CalledProcessError], which is caught. *)
Definition run_command (cmd : string) (check : bool) : M Cluster (option string) :=
  perform (ShellCall cmd) ;;;
  fun c =>
    let result := c_shell c (c_time c) cmd in
    if check && negb (returncode result =? 0) then
      Ok None c
    else if returncode result =? 0 then Ok (Some (stdout result)) c
    else Ok None c.

Definition release_name : string := "insider-tests".

(** The command line [deploy_with_helm] builds (lines 102-115). *)
Definition helm_command (args : Args) (existing : option string) : string :=
  let helm_cmd :=
    if truthy existing
    then "helm upgrade " ++ release_name ++ " " ++ helm_chart_path args
    else "helm install " ++ release_name ++ " " ++ helm_chart_path args in
  let helm_cmd := helm_cmd ++ " --set chromeNode.nodeCount="
                           ++ str_of_int (node_count args) in
  let helm_cmd := helm_cmd ++ " --namespace " ++ namespace args in
  let helm_cmd := helm_cmd ++ " --create-namespace" in
  let helm_cmd :=
    if truthy (values_file args)
    then helm_cmd ++ " -f "
                  ++ match values_file args with Some f => f | None => "" end
    else helm_cmd in
  helm_cmd ++ " --wait --timeout 5m".

(** [deploy_with_helm] (lines 90-126) *)
Definition deploy_with_helm (args : Args) : M Cluster bool :=
  let check_cmd :=
    "helm list -n " ++ namespace args ++ " | grep " ++ release_name in
  existing <- run_command check_cmd false ;;
  result <- run_command (helm_command args existing) true ;;
  match result with
  | None => ret false
  | Some _ => ret true
  end.

(** [load_kube_config] (lines 129-137) *)
Definition load_kube_config : M Cluster bool :=
  perform LoadKubeConfig ;;;
  fun c => Ok (c_kube_config c (c_time c)) c.

(** The pods [wait_for_pods_ready] keeps as chrome nodes: not finished and
    named like a chrome node. *)
Definition chrome_pods_of (pods : list Pod) : list Pod :=
  filter (fun pod =>
            negb ((pod_phase pod =? "Succeeded")%string
                  || (pod_phase pod =? "Failed")%string)
            && str_in "chrome-node" (pod_name pod)) pods.

(** The test of the [sum(...)]: running, with a condition Ready = True. *)
Definition pod_ready (pod : Pod) : bool :=
  (pod_phase pod =? "Running")%string
  && existsb (fun c => (fst c =? "Ready")%string && (snd c =? "True")%string)
             (match pod_conditions pod with Some cs => cs | None => [] end).

(** The exit test of one poll (lines 154-185). *)
Definition all_chrome_ready (pods : list Pod) : bool :=
  let chrome_pods := chrome_pods_of pods in
  let chrome_ready := List.length (filter pod_ready chrome_pods) in
  (0 <? Z.of_nat (List.length chrome_pods))
  && (Z.of_nat chrome_ready =? Z.of_nat (List.length chrome_pods)).

(** The [while time.time() - start_time < timeout] loop of
    [wait_for_pods_ready]. *)
Fixpoint pods_ready_loop (fuel : nat) (ns : string) (start_time timeout : Z)
  : M Cluster bool :=
  fun c =>
    if time c - start_time <? 1000 * timeout then
      match fuel with
      | O => Diverge
      | Datatypes.S fuel' =>
          match api (ListPods ns None) (fun c t => c_pods c t ns None) c with
          | Ok (inl pods) c1 =>
              if all_chrome_ready pods then Ok true c1
              else pods_ready_loop fuel' ns start_time timeout (sleep 2000 c1)
          | Ok (inr _) c1 => Ok false c1
          | Raise e c1 => Raise e c1
          | Diverge => Diverge
          end
      end
    else Ok false c.

(** [wait_for_pods_ready] (lines 140-194), [timeout] in seconds. *)
Definition wait_for_pods_ready (ns : string) (timeout : Z) : M Cluster bool :=
  fun c => pods_ready_loop (Z.to_nat timeout) ns (time c) timeout c.

Definition TEST_CONTROLLER : option string :=
  Some "app.kubernetes.io/component=test-controller".

(** The loop of [wait_for_test_completion]. *)
Fixpoint test_completion_loop (fuel : nat) (ns : string) (start_time timeout : Z)
  : M Cluster (option string) :=
  fun c =>
    if time c - start_time <? 1000 * timeout then
      match fuel with
      | O => Diverge
      | Datatypes.S fuel' =>
          match api (ListPods ns TEST_CONTROLLER)
                    (fun c t => c_pods c t ns TEST_CONTROLLER) c with
          | Ok (inl []) c1 =>
              test_completion_loop fuel' ns start_time timeout (sleep 2000 c1)
          | Ok (inl (pod :: _)) c1 =>
              let phase := pod_phase pod in
              if (phase =? "Succeeded")%string then Ok (Some (pod_name pod)) c1
              else if (phase =? "Failed")%string then Ok (Some (pod_name pod)) c1
              else test_completion_loop fuel' ns start_time timeout (sleep 2000 c1)
          | Ok (inr _) c1 => Ok None c1
          | Raise e c1 => Raise e c1
          | Diverge => Diverge
          end
      end
    else Ok None c.

(** [wait_for_test_completion] (lines 197-235) *)
Definition wait_for_test_completion (ns : string) (timeout : Z)
  : M Cluster (option string) :=
  fun c => test_completion_loop (Z.to_nat timeout) ns (time c) timeout c.

(** [get_test_logs] (lines 238-254) *)
Definition get_test_logs (ns pod : string) : M Cluster bool :=
  logs <- api (ReadPodLog pod ns "test-runner")
              (fun c t => c_pod_log c t pod ns "test-runner") ;;
  match logs with
  | inl _ => ret true
  | inr _ => ret false
  end.

(** [cleanup_resources] (lines 257-271) *)
Definition cleanup_resources (args : Args) : M Cluster bool :=
  result <- run_command ("helm uninstall insider-tests --namespace "
                           ++ namespace args) true ;;
  if truthy result then ret true else ret false.

(** The loop over the services of [display_cluster_info]: iterating the
    ports of a service that has none is a [TypeError]. *)
Fixpoint show_services (services : list Service) : M Cluster unit :=
  match services with
  | [] => ret tt
  | svc :: rest =>
      if (svc_name svc =? "kubernetes")%string then show_services rest
      else match svc_ports svc with
           | Some _ => show_services rest
           | None => raise (Exception (Text "TypeError"))
           end
  end.

(** [display_cluster_info] (lines 274-315): what it prints is left out; an
    [ApiException] of any of its three listings ends it quietly. *)
Definition display_cluster_info (ns : string) : M Cluster unit :=
  deployments <- api (ListDeployments ns) (fun c t => c_deployments c t ns) ;;
  match deployments with
  | inr _ => ret tt
  | inl _ =>
      jobs <- api (ListJobs ns) (fun c t => c_jobs c t ns) ;;
      match jobs with
      | inr _ => ret tt
      | inl _ =>
          services <- api (ListServices ns) (fun c t => c_services c t ns) ;;
          match services with
          | inr _ => ret tt
          | inl svcs => show_services svcs
          end
      end
  end.

(** [main] (lines 318-362) after [parse_args]: the value is the exit status
    of the process, 1 for each [sys.exit(1)] and 0 at the end. *)
Definition main (args : Args) : M Cluster Z :=
  deployed <- deploy_with_helm args ;;
  if negb deployed then ret 1 else
  loaded <- load_kube_config ;;
  if negb loaded then ret 1 else
  ready <- wait_for_pods_ready (namespace args) (wait_timeout args) ;;
  if negb ready then ret 1 else
  display_cluster_info (namespace args) ;;;
  pod <- wait_for_test_completion (namespace args) (wait_timeout args) ;;
  match pod with
  | None => ret 1
  | Some pod_name =>
      if negb (truthy pod_name) then ret 1 else
      logs <- get_test_logs (namespace args) pod_name ;;
      if negb logs then ret 1 else
      (if cleanup args then cleanup_resources args ;;; ret tt else ret tt) ;;;
      ret 0
  end.

(** ** Words for the statements about the script *)

(** [c'] is [c] at a later instant: the same answers, the clock moved on,
    [calls] added to the record. *)
Definition later (c c' : Cluster) (calls : list (Z * Call)) : Prop :=
  exists t, c_time c <= t /\ c' = set_clock t (c_calls c ++ calls)%list c.

(** No command was run by the shell among [calls]. *)
Definition no_shell (calls : list (Z * Call)) : Prop :=
  forall t cmd, ~ In (t, ShellCall cmd) calls.

(** A pod that has not finished and is named like a chrome node. *)
Definition chrome_pod (pod : Pod) : Prop :=
  pod_phase pod <> "Succeeded" /\ pod_phase pod <> "Failed" /\
  str_in "chrome-node" (pod_name pod) = true.

(** A running pod with the condition Ready = True. *)
Definition ready_pod (pod : Pod) : Prop :=
  pod_phase pod = "Running" /\
  exists cs, pod_conditions pod = Some cs /\ In ("Ready", "True") cs.

(** A service whose ports cannot be iterated. *)
Definition portless (svc : Service) : Prop :=
  svc_name svc <> "kubernetes" /\ svc_ports svc = None.

(** A sample cluster: every call takes 100 ms; the given shell, pods and
    services; the kube config loads; logs, deployments and jobs are there. *)
Definition sample_cluster (shell : string -> ProcessResult)
    (pods : Z -> option string -> api_reply (list Pod))
    (services : api_reply (list Service)) : Cluster :=
  {| c_time := 0;
     c_shell := fun _ => shell;
     c_kube_config := fun _ => true;
     c_pods := fun t _ => pods t;
     c_pod_log := fun _ _ _ _ => inl "1 passed";
     c_deployments := fun _ _ => inl ["chrome-node"];
     c_jobs := fun _ _ => inl ["test-controller"];
     c_services := fun _ _ => services;
     c_latency := fun _ => 100%N;
     c_calls := [] |}.

(** The pod with the verdicts exchanged: Succeeded for Failed and back. *)
Definition exchange_phase (pod : Pod) : Pod :=
  if (pod_phase pod =? "Succeeded")%string then
    {| pod_name := pod_name pod; pod_phase := "Failed";
       pod_conditions := pod_conditions pod |}
  else if (pod_phase pod =? "Failed")%string then
    {| pod_name := pod_name pod; pod_phase := "Succeeded";
       pod_conditions := pod_conditions pod |}
  else pod.

(** The cluster in which every pod that succeeded has failed instead, and
    every pod that failed has succeeded. *)
Definition exchange_verdicts (c : Cluster) : Cluster :=
  {| c_time := c_time c; c_shell := c_shell c; c_kube_config := c_kube_config c;
     c_pods := fun t ns sel =>
                 match c_pods c t ns sel with
                 | inl pods => inl (map exchange_phase pods)
                 | inr e => inr e
                 end;
     c_pod_log := c_pod_log c;
     c_deployments := c_deployments c; c_jobs := c_jobs c;
     c_services := c_services c; c_latency := c_latency c;
     c_calls := c_calls c |}.

(** The outcome with its final state seen through [f]. *)
Definition in_state {S A : Type} (f : S -> S) (o : outcome S A) : outcome S A :=
  match o with
  | Ok a s => Ok a (f s)
  | Raise e s => Raise e (f s)
  | Diverge => Diverge
  end.

(** The command [cmd] was not run among [calls]. *)
Definition never_runs (cmd : string) (calls : list (Z * Call)) : Prop :=
  forall t, ~ In (t, ShellCall cmd) calls.

(** A computation that does the same whether pods succeeded or failed. *)
Definition blind_to_verdicts {A : Type} (m : M Cluster A) : Prop :=
  forall c, m (exchange_verdicts c) = in_state exchange_verdicts (m c).

(** * Properties *)

Local Open Scope list_scope.

(** ** The retry decorator *)

Section RetryFacts.
Context {S A : Type} `{Clock S}.
Variable func : M S A.
Variable max_attempts : Z.

Lemma wrapper_attempts_skip_stale :
  forall k a n s s',
    stale_run func k s s' ->
    (k <= n)%nat ->
    Z.of_nat (a + k) <= max_attempts - 1 ->
    wrapper_attempts (map Z.of_nat (seq a n)) max_attempts func s =
    wrapper_attempts (map Z.of_nat (seq (a + k) (n - k))) max_attempts func s'.
Proof.
  induction k as [|k IH]; intros a n s s' Hrun Hn Ha.
  - inversion Hrun; subst. now rewrite Nat.add_0_r, Nat.sub_0_r.
  - inversion Hrun as [|k' s0 m s1 s2 Hf Hrest]; subst.
    destruct n as [|n]; [lia|].
    cbn [seq map wrapper_attempts]. rewrite Hf. cbn [is_stale].
    destruct (Z.eqb_spec (Z.of_nat a) (max_attempts - 1)) as [E|_]; [lia|].
    rewrite (IH (Datatypes.S a) n _ s' Hrest) by lia.
    now replace (Datatypes.S a + k)%nat with (a + Datatypes.S k)%nat by lia.
Qed.

Lemma retry_after_stale_run :
  forall k s s',
    stale_run func k s s' ->
    Z.of_nat k <= max_attempts - 1 ->
    retry_on_stale_element max_attempts func s =
    wrapper_attempts
      (Z.of_nat k :: map Z.of_nat (seq (Datatypes.S k) (Z.to_nat max_attempts - Datatypes.S k)))
      max_attempts func s'.
Proof.
  intros k s s' Hrun Hk. unfold retry_on_stale_element, range.
  rewrite (wrapper_attempts_skip_stale k 0 _ s s' Hrun) by lia.
  cbn [Nat.add].
  destruct (Z.to_nat max_attempts - k)%nat as [|r] eqn:E; [lia|].
  cbn [seq map]. repeat f_equal. lia.
Qed.

End RetryFacts.

Lemma scripted_stale_run {A : Type} (script : nat -> A + exn) (m : nat -> message) :
  forall k h,
    (forall j, (j < k)%nat ->
               script (h_calls h + j)%nat = inr (StaleElementReferenceException (m j))) ->
    stale_run (scripted script) k h
              {| h_clock := h_clock h + 500 * Z.of_nat k;
                 h_calls := h_calls h + k |}.
Proof.
  intros k. revert m. induction k as [|k IH]; intros m h Hs.
  - replace {| h_clock := _; h_calls := _ |} with h; [constructor|].
    destruct h; cbn. f_equal; lia.
  - eapply stale_run_S with (m := m O).
    + unfold scripted. rewrite <- (Nat.add_0_r (h_calls h)) at 1.
      rewrite (Hs O) by lia. reflexivity.
    + match goal with |- stale_run _ _ ?h1 _ => pose (h1' := h1) end.
      specialize (IH (fun j => m (Datatypes.S j)) h1').
      cbn in IH.
      replace (h_clock h + 500 * Z.of_nat (Datatypes.S k))
        with (h_clock h + 500 + 500 * Z.of_nat k) by lia.
      replace (h_calls h + Datatypes.S k)%nat
        with (Datatypes.S (h_calls h + k)) by lia.
      apply IH. intros j Hj.
      replace (Datatypes.S (h_calls h + j)) with (h_calls h + Datatypes.S j)%nat by lia.
      apply Hs. lia.
Qed.

(** C3. With [max_attempts = 3], an operation whose first two invocations
    raise [StaleElementReferenceException] is invoked a third time, after
    two back-off sleeps: if that invocation returns a value the wrapper
    returns it, and if it raises [StaleElementReferenceException] again the
    wrapper raises that last exception, in the state the third invocation
    left.  Counted on the test double: exactly three invocations and two
    sleeps of 0.5 s in both cases. *)
Theorem retry_on_stale_element_three_attempts :
  (forall (S A : Type) (C : Clock S) (func : M S A) (s s2 : S),
      stale_run func 2 s s2 ->
      (forall v s3,
          func s2 = Ok v s3 ->
          retry_on_stale_element 3 func s = Ok (Some v) s3)
      /\ (forall m s3,
             func s2 = Raise (StaleElementReferenceException m) s3 ->
             retry_on_stale_element 3 func s =
             Raise (StaleElementReferenceException m) s3))
  /\ (forall (A : Type) (script : nat -> A + exn) (clock : Z) (m0 m1 : message),
         script 0%nat = inr (StaleElementReferenceException m0) ->
         script 1%nat = inr (StaleElementReferenceException m1) ->
         let start := {| h_clock := clock; h_calls := 0 |} in
         let finish := {| h_clock := clock + 1000; h_calls := 3 |} in
         (forall v, script 2%nat = inl v ->
            retry_on_stale_element 3 (scripted script) start = Ok (Some v) finish)
         /\ (forall m2, script 2%nat = inr (StaleElementReferenceException m2) ->
               retry_on_stale_element 3 (scripted script) start =
               Raise (StaleElementReferenceException m2) finish)).
Proof.
  assert (Hgen : forall (S A : Type) (C : Clock S) (func : M S A) (s s2 : S),
      stale_run func 2 s s2 ->
      (forall v s3,
          func s2 = Ok v s3 ->
          retry_on_stale_element 3 func s = Ok (Some v) s3)
      /\ (forall m s3,
             func s2 = Raise (StaleElementReferenceException m) s3 ->
             retry_on_stale_element 3 func s =
             Raise (StaleElementReferenceException m) s3)).
  { intros S A C func s s2 Hrun.
    split; intros x s3 Hx;
      rewrite (retry_after_stale_run func 3 2 _ _ Hrun) by lia;
      cbn; rewrite Hx; reflexivity. }
  split; [exact Hgen|].
  intros A script clock m0 m1 H0 H1 start finish.
  assert (Hrun : stale_run (scripted script) 2 start
                           {| h_clock := clock + 1000; h_calls := 2 |}).
  { pose proof (scripted_stale_run script
                  (fun j => match j with O => m0 | _ => m1 end) 2 start) as R.
    cbn in R. replace (clock + 1000) with (clock + 500 * 2) by lia.
    apply R. intros [|[|j]] Hj; cbn; try assumption; lia. }
  destruct (Hgen _ _ _ _ _ _ Hrun) as [Hok Hraise].
  split; intros x Hx; [apply Hok|apply Hraise]; unfold scripted; cbn;
    rewrite Hx; reflexivity.
Qed.

(** The two cases of C3 on sample scripts. *)
Lemma retry_on_stale_element_three_attempts_witness :
  retry_on_stale_element 3 (scripted (stale_twice_then 7))
                         {| h_clock := 0; h_calls := 0 |}
  = Ok (Some 7%nat) {| h_clock := 1000; h_calls := 3 |}
  /\
  retry_on_stale_element 3 (scripted always_stale)
                         {| h_clock := 0; h_calls := 0 |}
  = Raise (StaleElementReferenceException (Text "third"))
          {| h_clock := 1000; h_calls := 3 |}.
Proof.
  split.
  - apply (proj1 (proj2 retry_on_stale_element_three_attempts
                        nat (stale_twice_then 7) 0 (Text "first") (Text "second")
                        eq_refl eq_refl) 7%nat eq_refl).
  - apply (proj2 (proj2 retry_on_stale_element_three_attempts
                        nat always_stale 0 (Text "first") (Text "second")
                        eq_refl eq_refl) (Text "third") eq_refl).
Defined.

(** C10. Only [StaleElementReferenceException] is caught: when the
    invocations before the k-th each raised it and the k-th, still within
    [max_attempts], raises an exception of another class, the wrapper raises
    that exception in the state the operation left, with no sleep after it
    and no further invocation; in particular an exception of another class
    on the first invocation comes out at once.  Counted on the test double:
    [k + 1] invocations and [k] back-off sleeps in all. *)
Theorem retry_on_stale_element_other_exception :
  (forall (S A : Type) (C : Clock S) (func : M S A) (max_attempts : Z)
          (k : nat) (s sk s' : S) (e : exn),
      stale_run func k s sk ->
      Z.of_nat k < max_attempts ->
      func sk = Raise e s' ->
      is_stale e = false ->
      retry_on_stale_element max_attempts func s = Raise e s')
  /\ (forall (A : Type) (script : nat -> A + exn) (max_attempts clock : Z)
             (k : nat) (m : nat -> message) (e : exn),
         (forall j, (j < k)%nat ->
                    script j = inr (StaleElementReferenceException (m j))) ->
         Z.of_nat k < max_attempts ->
         script k = inr e ->
         is_stale e = false ->
         retry_on_stale_element max_attempts (scripted script)
                                {| h_clock := clock; h_calls := 0 |} =
         Raise e {| h_clock := clock + 500 * Z.of_nat k;
                    h_calls := Datatypes.S k |}).
Proof.
  assert (Hgen : forall (S A : Type) (C : Clock S) (func : M S A) (max_attempts : Z)
                        (k : nat) (s sk s' : S) (e : exn),
      stale_run func k s sk ->
      Z.of_nat k < max_attempts ->
      func sk = Raise e s' ->
      is_stale e = false ->
      retry_on_stale_element max_attempts func s = Raise e s').
  { intros S A C func max_attempts k s sk s' e Hrun Hk Hf He.
    rewrite (retry_after_stale_run func max_attempts k s sk Hrun) by lia.
    cbn [wrapper_attempts]. rewrite Hf, He. reflexivity. }
  split; [exact Hgen|].
  intros A script max_attempts clock k m e Hstale Hk Hscript He.
  eapply Hgen; [| exact Hk | | exact He].
  - apply (scripted_stale_run script m k {| h_clock := clock; h_calls := 0 |}).
    exact Hstale.
  - unfold scripted. cbn. now rewrite Hscript.
Qed.

(** C10 on a script that fails stale once and then times out. *)
Lemma retry_on_stale_element_other_exception_witness :
  retry_on_stale_element 3 (scripted stale_then_timeout)
                         {| h_clock := 0; h_calls := 0 |}
  = Raise (TimeoutException (Text "")) {| h_clock := 500; h_calls := 2 |}.
Proof.
  apply (proj2 retry_on_stale_element_other_exception
               nat stale_then_timeout 3 0 1%nat attempt_message
               (TimeoutException (Text ""))).
  - intros [|j] Hj; [reflexivity|lia].
  - lia.
  - reflexivity.
  - reflexivity.
Defined.

(** ** Lookups *)

Lemma driver_find_elements_eq (locator : Locator) (w : World) :
  driver_find_elements locator w =
  Ok (lookup_answer locator w) (after_lookup locator w).
Proof. reflexivity. Qed.

Lemma after_lookup_time (locator : Locator) (w : World) :
  time w <= time (after_lookup locator w).
Proof. cbn. lia. Qed.

Lemma after_lookup_log (locator : Locator) (w : World) :
  w_log (after_lookup locator w) =
  w_log w ++ [lookup_entry locator (time (after_lookup locator w),
                                    lookup_answer locator w)].
Proof. reflexivity. Qed.

Lemma read_department_text_eq (w : World) :
  read_department_text w =
  match department_reading (lookup_answer DEPARTMENT_FILTER w) with
  | inl t => Ok t (after_lookup DEPARTMENT_FILTER w)
  | inr e => Raise e (after_lookup DEPARTMENT_FILTER w)
  end.
Proof.
  unfold read_department_text, driver_find_element, bind.
  rewrite driver_find_elements_eq. unfold department_reading.
  destruct (lookup_answer DEPARTMENT_FILTER w) as [|e l]; [reflexivity|].
  cbn. destruct (text e); reflexivity.
Qed.

(** ** The auto-selection gate *)

(** The loop of the gate ends within its fuel, and what it does is a
    [gate_trace] of the readings it logged; unless it times out, it ends at
    the instant of its last reading. *)
Lemma ensure_loop_trace :
  forall fuel start_time max_wait last fails w,
    max_wait - time w <= 1000 * Z.of_nat fuel ->
    let out := ensure_loop fuel start_time max_wait last fails w in
    exists obs v,
      w_log (final_world out w) =
        w_log w ++ map (lookup_entry DEPARTMENT_FILTER) obs
      /\ gate_trace fails (map (fun o => department_reading (snd o)) obs) v
      /\ gate_outcome_is start_time out v
      /\ time w <= time (final_world out w)
      /\ (v <> GateTimeout ->
          exists pre o, obs = pre ++ [o] /\ fst o = time (final_world out w)).
Proof.
  induction fuel as [|fuel IH]; intros start_time max_wait last fails w Hfuel out;
    subst out; cbn [ensure_loop].
  - destruct (Z.ltb_spec (time w) max_wait) as [Hlt|Hge]; [cbn in *; lia|].
    exists [], GateTimeout. cbn. rewrite app_nil_r.
    repeat split; try constructor; try lia. congruence.
  - destruct (Z.ltb_spec (time w) max_wait) as [Hlt|Hge].
    2:{ exists [], GateTimeout. cbn. rewrite app_nil_r.
        repeat split; try constructor; try lia. congruence. }
    rewrite read_department_text_eq.
    set (w1 := after_lookup DEPARTMENT_FILTER w).
    set (found := lookup_answer DEPARTMENT_FILTER w).
    pose proof (after_lookup_time DEPARTMENT_FILTER w) as Ht. fold w1 in Ht.
    pose proof (after_lookup_log DEPARTMENT_FILTER w) as Hl.
    fold w1 in Hl. fold found in Hl.
    assert (Hfuel' : max_wait - time (sleep 1000 w1) <= 1000 * Z.of_nat fuel).
    { change (time (sleep 1000 w1)) with (time w1 + 1000).
      rewrite Nat2Z.inj_succ in Hfuel. lia. }
    assert (Hsl : time w <= time (sleep 1000 w1)).
    { change (time (sleep 1000 w1)) with (time w1 + 1000). lia. }
    destruct (department_reading found) as [t|e] eqn:Hr.
    + destruct (department_ready t) eqn:Hready.
      * exists [(time w1, found)], GateReady. cbn [final_world map snd].
        rewrite Hr. repeat split; auto.
        -- now constructor.
        -- intros _. exists [], (time w1, found). split; reflexivity.
      * specialize (IH start_time max_wait (Some t) 0 (sleep 1000 w1) Hfuel').
        cbn zeta in IH. destruct IH as (obs & v & Hlog & Htr & Hout & Htime & Hlast).
        set (out := ensure_loop fuel start_time max_wait (Some t) 0 (sleep 1000 w1)) in *.
        exists ((time w1, found) :: obs), v.
        assert (Hfw : final_world out w = final_world out (sleep 1000 w1)).
        { destruct out; try reflexivity. destruct v; cbn in Hout; contradiction. }
        rewrite Hfw. cbn [map snd]. rewrite Hr. repeat split.
        -- rewrite Hlog. cbn [sleep world_clock w_log]. rewrite Hl.
           rewrite <- app_assoc. reflexivity.
        -- now constructor.
        -- exact Hout.
        -- lia.
        -- intros Hv. destruct (Hlast Hv) as (pre & o & -> & Ho).
           exists ((time w1, found) :: pre), o. split; [reflexivity|exact Ho].
    + destruct (Z.leb_spec max_element_failures (fails + 1)) as [Hmax|Hmax].
      * exists [(time w1, found)], (GateAbort (fails + 1)). cbn [final_world map snd].
        rewrite Hr. repeat split; auto.
        -- now constructor.
        -- intros _. exists [], (time w1, found). split; reflexivity.
      * specialize (IH start_time max_wait last (fails + 1) (sleep 1000 w1) Hfuel').
        cbn zeta in IH. destruct IH as (obs & v & Hlog & Htr & Hout & Htime & Hlast).
        set (out := ensure_loop fuel start_time max_wait last (fails + 1) (sleep 1000 w1)) in *.
        exists ((time w1, found) :: obs), v.
        assert (Hfw : final_world out w = final_world out (sleep 1000 w1)).
        { destruct out; try reflexivity. destruct v; cbn in Hout; contradiction. }
        rewrite Hfw. cbn [map snd]. rewrite Hr. repeat split.
        -- rewrite Hlog. cbn [sleep world_clock w_log]. rewrite Hl.
           rewrite <- app_assoc. reflexivity.
        -- now constructor.
        -- exact Hout.
        -- lia.
        -- intros Hv. destruct (Hlast Hv) as (pre & o & -> & Ho).
           exists ((time w1, found) :: pre), o. split; [reflexivity|exact Ho].
Qed.

Lemma ensure_department_not_all_trace (timeout : Z) (w : World) :
  let out := _ensure_department_not_all timeout w in
  exists obs v,
    w_log (final_world out w) =
      w_log w ++ map (lookup_entry DEPARTMENT_FILTER) obs
    /\ gate_trace 0 (map (fun o => department_reading (snd o)) obs) v
    /\ gate_outcome_is (time w) out v
    /\ time w <= time (final_world out w)
    /\ (v <> GateTimeout ->
        exists pre o, obs = pre ++ [o] /\ fst o = time (final_world out w)).
Proof.
  unfold _ensure_department_not_all. apply ensure_loop_trace. lia.
Qed.

(** *** Text tests *)

Lemma prefix_app (p s : string) :
  prefix p s = true <-> exists b, s = (p ++ b)%string.
Proof.
  revert p. induction s as [|c s IH]; intros [|a p]; cbn.
  - split; [intros _; now exists "" | reflexivity].
  - split; [discriminate | intros [b Hb]; discriminate].
  - split; [intros _; now exists (String c s) | reflexivity].
  - destruct (ascii_dec a c) as [->|Hne].
    + rewrite IH. split; intros [b Hb]; exists b; congruence.
    + split; [discriminate | intros [b Hb]; congruence].
Qed.

(** [str_in] is substring containment. *)
Lemma str_in_substring (sub s : string) :
  str_in sub s = true <-> exists a b, s = (a ++ sub ++ b)%string.
Proof.
  induction s as [|c s IH]; cbn [str_in].
  - destruct (prefix sub "") eqn:Hp.
    + split; [intros _|reflexivity].
      apply prefix_app in Hp. destruct Hp as [b Hb]. now exists "", b.
    + split; [discriminate|]. intros (a & b & Hab).
      destruct a; [|discriminate]. cbn in Hab.
      assert (prefix sub "" = true) by (apply prefix_app; now exists b).
      congruence.
  - destruct (prefix sub (String c s)) eqn:Hp.
    + split; [intros _|reflexivity].
      apply prefix_app in Hp. destruct Hp as [b Hb]. now exists "", b.
    + rewrite IH. split.
      * intros (a & b & ->). now exists (String c a), b.
      * intros (a & b & Hab). destruct a as [|c' a].
        -- cbn in Hab.
           assert (prefix sub (String c s) = true) by (apply prefix_app; now exists b).
           congruence.
        -- cbn in Hab. exists a, b. congruence.
Qed.

Lemma department_ready_iff (t : string) :
  department_ready t = true <->
  t <> "" /\ ~ exists a b, t = (a ++ "All" ++ b)%string.
Proof.
  unfold department_ready. rewrite andb_true_iff, negb_true_iff.
  rewrite <- str_in_substring. split.
  - intros [Ht Hs]. split.
    + intros ->. discriminate.
    + rewrite Hs. discriminate.
  - intros [Ht Hs]. split.
    + destruct t; [congruence|reflexivity].
    + destruct (str_in "All" t); [exfalso; now apply Hs|reflexivity].
Qed.

Lemma strip_examples :
  strip "  Quality Assurance  " = "Quality Assurance"
  /\ strip "× All" = "× All"
  /\ strip "   " = ""
  /\ department_ready "Quality Assurance" = true
  /\ department_ready "× All" = false
  /\ department_ready "" = false.
Proof. vm_compute. repeat split. Qed.

(** *** Traces of the gate *)

Lemma gate_trace_ready_inv f rs :
  gate_trace f rs GateReady ->
  exists pre t, rs = pre ++ [inl t] /\ department_ready t = true
                /\ Forall (fun r => reading_ready r = false) pre.
Proof.
  intros Htr. remember GateReady as v eqn:Hv.
  induction Htr as [f|f t Ht|f t rs v Ht Htr IH|f e Hmax|f e rs v Hlt Htr IH];
    try discriminate.
  - exists [], t. repeat split; auto.
  - destruct (IH Hv) as (pre & t' & -> & Ht' & Hpre).
    exists (inl t :: pre), t'. repeat split; auto.
  - destruct (IH Hv) as (pre & t' & -> & Ht' & Hpre).
    exists (inr e :: pre), t'. repeat split; auto.
Qed.

Lemma gate_trace_not_ready f rs v :
  gate_trace f rs v -> v <> GateReady ->
  Forall (fun r => reading_ready r = false) rs.
Proof.
  induction 1; intros Hv; try congruence; repeat constructor; auto.
Qed.

Lemma gate_trace_abort_inv f rs n :
  gate_trace f rs (GateAbort n) -> f < max_element_failures ->
  n = max_element_failures /\
  exists pre tail,
    rs = pre ++ tail /\ Forall (fun r => read_failed r = true) tail
    /\ (Z.of_nat (List.length tail) = max_element_failures
        \/ (pre = [] /\ f + Z.of_nat (List.length tail) = max_element_failures)).
Proof.
  intros Htr. remember (GateAbort n) as v eqn:Hv. revert Hv.
  induction Htr as [f|f t Ht|f t rs v Ht Htr IH|f e Hmax|f e rs v Hlt Htr IH];
    intros Hv Hf; try discriminate.
  - destruct (IH Hv) as (Hn & pre & tail & -> & Hfail & Hlen);
      [unfold max_element_failures; lia|].
    split; [exact Hn|]. exists (inl t :: pre), tail. repeat split; auto.
    left. destruct Hlen as [H|[_ H]]; lia.
  - injection Hv as <-. split; [lia|].
    exists [], [inr e]. repeat split; auto.
    right. split; [reflexivity|]. cbn. lia.
  - destruct (IH Hv Hlt) as (Hn & pre & tail & -> & Hfail & Hlen).
    split; [exact Hn|]. destruct Hlen as [H|[-> H]].
    + exists (inr e :: pre), tail. repeat split; auto.
    + exists [], (inr e :: tail). repeat split; auto.
      right. split; [reflexivity|]. cbn [List.length]. lia.
Qed.

Lemma gate_trace_runs f rs v :
  gate_trace f rs v -> 0 <= f < max_element_failures ->
  forall pre run post,
    rs = pre ++ run ++ post ->
    Forall (fun r => read_failed r = true) run ->
    post <> [] \/ (forall n, v <> GateAbort n) ->
    Z.of_nat (List.length run) < max_element_failures
    /\ (pre = [] -> f + Z.of_nat (List.length run) < max_element_failures).
Proof.
  induction 1 as [f|f t Ht|f t rs v Ht Htr IH|f e Hmax|f e rs v Hlt Htr IH];
    intros Hf pre run post Hrs Hrun Hpost.
  - destruct pre; [|discriminate]. destruct run; [|discriminate].
    cbn. unfold max_element_failures in *. lia.
  - destruct run as [|r run].
    + cbn. unfold max_element_failures in *. lia.
    + exfalso. inversion Hrun as [|? ? Hr _]; subst.
      destruct pre as [|p pre]; cbn in Hrs.
      * injection Hrs as <- _. discriminate.
      * injection Hrs as _ Hrs. destruct pre; discriminate.
  - destruct pre as [|p pre]; cbn in Hrs.
    + destruct run as [|r run].
      * cbn. unfold max_element_failures in *. lia.
      * exfalso. inversion Hrun as [|? ? Hr _]; subst.
        injection Hrs as <- _. discriminate.
    + injection Hrs as _ Hrs.
      destruct (IH ltac:(unfold max_element_failures; lia) pre run post Hrs Hrun Hpost)
        as [Hlen _].
      split; [exact Hlen|discriminate].
  - destruct Hpost as [Hpost|Hpost]; [|now elim (Hpost (f + 1))].
    destruct pre as [|p pre]; cbn in Hrs.
    + destruct run as [|r run]; cbn in Hrs.
      * cbn. unfold max_element_failures in *. lia.
      * injection Hrs as _ Hrs. destruct run; destruct post; try discriminate.
        now elim Hpost.
    + injection Hrs as _ Hrs. destruct pre; destruct run; destruct post;
        try discriminate. now elim Hpost.
  - destruct pre as [|p pre]; cbn in Hrs.
    + destruct run as [|r run]; cbn in Hrs.
      * cbn. unfold max_element_failures in *. lia.
      * injection Hrs as _ Hrs. inversion Hrun as [|? ? _ Hrun']; subst.
        destruct (IH ltac:(lia) [] run post eq_refl Hrun' Hpost) as [_ Hlen].
        specialize (Hlen eq_refl). cbn [List.length].
        split; [|intros _]; lia.
    + injection Hrs as _ Hrs.
      destruct (IH ltac:(lia) pre run post Hrs Hrun Hpost) as [Hlen _].
      split; [exact Hlen|discriminate].
Qed.

Lemma first_hit_is_last {X : Type} (P : X -> bool) (pre' : list X) :
  forall pre r post x,
    Forall (fun y => P y = false) pre' ->
    pre ++ r :: post = pre' ++ [x] ->
    P r = true ->
    post = [] /\ pre = pre'.
Proof.
  induction pre' as [|y pre' IH]; intros pre r post x Hall Heq Hr.
  - destruct pre as [|p pre]; cbn in Heq.
    + injection Heq as _ ->. auto.
    + injection Heq as _ Heq. destruct pre; discriminate.
  - inversion Hall as [|? ? Hy Hall']; subst.
    destruct pre as [|p pre]; cbn in Heq.
    + injection Heq as -> _. congruence.
    + injection Heq as -> Heq.
      destruct (IH pre r post x Hall' Heq Hr) as [-> ->]. auto.
Qed.




(** ** The stability detector *)

Section DetectorFacts.
Variables (expected_department expected_location : option string).
Variable max_stable_checks : Z.


(** The loop of the detector ends within its fuel with a value, and what it
    does is a [detector_trace] of the samples it logged. *)
Lemma jobs_stable_loop_trace :
  forall fuel timeout st w,
    timeout - time w <= 1000 * Z.of_nat fuel ->
    exists b w' obs,
      jobs_stable_loop fuel expected_department expected_location
                       max_stable_checks timeout st w = Ok b w'
      /\ w_log w' = w_log w ++ map (lookup_entry JOB_ITEMS) obs
      /\ detector_trace expected_department expected_location max_stable_checks st (map snd obs) b
      /\ time w <= time w'
      /\ w_page w' = w_page w
      /\ Forall (fun o => time w <= fst o <= time w'
                          /\ snd o = find_all (w_page w (fst o)) JOB_ITEMS) obs.
Proof.
  induction fuel as [|fuel IH]; intros timeout st w Hfuel; cbn [jobs_stable_loop].
  - destruct (Z.ltb_spec (time w) timeout) as [Hlt|Hge]; [cbn in *; lia|].
    exists false, w, []. cbn. rewrite app_nil_r.
    repeat split; try constructor; lia.
  - destruct (Z.ltb_spec (time w) timeout) as [Hlt|Hge].
    2:{ exists false, w, []. cbn. rewrite app_nil_r.
        repeat split; try constructor; lia. }
    rewrite driver_find_elements_eq.
    set (w1 := after_lookup JOB_ITEMS w).
    set (jobs := lookup_answer JOB_ITEMS w).
    pose proof (after_lookup_time JOB_ITEMS w) as Ht. fold w1 in Ht.
    pose proof (after_lookup_log JOB_ITEMS w) as Hl. fold w1 in Hl. fold jobs in Hl.
    assert (Hjobs : jobs = find_all (w_page w (time w1)) JOB_ITEMS) by reflexivity.
    destruct (sample_step expected_department expected_location
                          max_stable_checks st jobs) as [fin st'] eqn:Hstep.
    assert (Hdone : step_done expected_department expected_location max_stable_checks st jobs = fin) by (unfold step_done; now rewrite Hstep).
    assert (Hnext : step_state expected_department expected_location max_stable_checks st jobs = st') by (unfold step_state; now rewrite Hstep).
    destruct fin.
    + exists true, w1, [(time w1, jobs)]. cbn [map snd].
      repeat split; auto.
      * now constructor.
      * repeat constructor; cbn [fst snd]; auto; lia.
    + destruct (IH timeout st' (sleep 1000 w1)) as (b & w' & obs & Hrun & Hlog & Htr & Htime & Hpage & Hobs).
      { change (time (sleep 1000 w1)) with (time w1 + 1000).
        rewrite Nat2Z.inj_succ in Hfuel. lia. }
      change (time (sleep 1000 w1)) with (time w1 + 1000) in *.
      exists b, w', ((time w1, jobs) :: obs). cbn [map snd].
      repeat split.
      * exact Hrun.
      * rewrite Hlog. cbn [sleep world_clock w_log]. rewrite Hl.
        now rewrite <- app_assoc.
      * apply detector_trace_more; [exact Hdone|now rewrite Hnext].
      * lia.
      * exact Hpage.
      * constructor; [cbn [fst snd]; split; [lia|exact Hjobs]|].
        eapply Forall_impl; [|exact Hobs]. cbn beta.
        intros o [Ho1 Ho2]. split; [lia|exact Ho2].
Qed.

Lemma wait_for_jobs_stable_trace (w : World) :
  exists b w' obs,
    _wait_for_jobs_stable expected_department expected_location
                          max_stable_checks w = Ok b w'
    /\ w_log w' = w_log w ++ map (lookup_entry JOB_ITEMS) obs
    /\ detector_trace expected_department expected_location max_stable_checks initial_stability (map snd obs) b
    /\ time w <= time w'
    /\ Forall (fun o => time w <= fst o <= time w'
                        /\ snd o = find_all (w_page w (fst o)) JOB_ITEMS) obs.
Proof.
  unfold _wait_for_jobs_stable.
  destruct (jobs_stable_loop_trace (Z.to_nat WAIT_TIME) (time w + 1000 * WAIT_TIME)
                                   initial_stability w)
    as (b & w' & obs & H1 & H2 & H3 & H4 & _ & H6).
  { unfold WAIT_TIME. lia. }
  exists b, w', obs. auto.
Qed.

(** A trace returns [True] on its last sample and on no earlier one. *)
Lemma detector_trace_steps :
  forall st samples b,
    detector_trace expected_department expected_location max_stable_checks st samples b ->
    (samples = [] -> b = false)
    /\ forall pre jobs post,
         samples = pre ++ jobs :: post ->
         step_done expected_department expected_location max_stable_checks
           (state_after expected_department expected_location max_stable_checks st pre) jobs = match post with [] => b | _ :: _ => false end.
Proof.
  induction 1 as [st|st jobs Hd|st jobs rest b Hd Htr [IH0 IH]].
  - split; [reflexivity|]. intros [|p pre] jobs post Heq; discriminate.
  - split; [discriminate|]. intros [|p pre] jobs' post Heq; cbn in Heq.
    + injection Heq as <- <-. exact Hd.
    + injection Heq as _ Heq. destruct pre; discriminate.
  - split; [discriminate|]. intros [|p pre] jobs' post Heq; cbn in Heq.
    + injection Heq as <- <-. cbn. rewrite Hd.
      destruct rest; [symmetry; now apply IH0|reflexivity].
    + injection Heq as <- Heq. cbn. now apply IH.
Qed.

End DetectorFacts.

Lemma sample_step_plain ed el msc st jobs :
  truthy ed = false -> truthy el = false ->
  sample_step ed el msc st jobs =
  (msc <=? stable_checks (track_plain st (card_count jobs)),
   track_plain st (card_count jobs)).
Proof. intros Hd Hl. unfold sample_step. now rewrite Hd, Hl. Qed.

Lemma sample_step_criteria ed el msc st jobs :
  truthy ed || truthy el = true ->
  sample_step ed el msc st jobs =
  (any_job_matches ed el jobs
   && (msc <=? stable_checks (track_matching st (card_count jobs))),
   track_matching st (card_count jobs)).
Proof.
  intros H. unfold sample_step.
  destruct (truthy ed), (truthy el); try discriminate; reflexivity.
Qed.

Lemma track_plain_steady st h jobs :
  steady st h -> steady (track_plain st (card_count jobs)) (h ++ [jobs]).
Proof.
  assert (Hfresh : steady {| stable_count := Some (card_count jobs);
                             stable_checks := 1 |} (h ++ [jobs])).
  { exists h, [jobs]. cbn. repeat split; auto. lia. }
  unfold track_plain. intros Hst. unfold steady in Hst.
  destruct (stable_count st) as [c|] eqn:Hc; [|exact Hfresh].
  destruct (Z.eqb_spec (card_count jobs) c) as [Heq|_]; [|exact Hfresh].
  destruct (Z.ltb_spec 0 (card_count jobs)) as [Hpos|_]; [|exact Hfresh].
  cbn [andb]. destruct Hst as (pre & suf & -> & Hlen & Hall & _).
  unfold steady. cbn [stable_count stable_checks].
  exists pre, (suf ++ [jobs]). repeat split.
  - now rewrite app_assoc.
  - rewrite length_app. cbn [List.length]. lia.
  - apply Forall_app. split; [exact Hall|]. repeat constructor. exact Heq.
  - lia.
Qed.

Lemma state_after_plain_steady ed el msc :
  truthy ed = false -> truthy el = false ->
  forall samples st h,
    steady st h -> steady (state_after ed el msc st samples) (h ++ samples).
Proof.
  intros Hd Hl. induction samples as [|jobs samples IH]; intros st h Hst.
  - now rewrite app_nil_r.
  - cbn. replace (h ++ jobs :: samples) with ((h ++ [jobs]) ++ samples)
      by now rewrite <- app_assoc.
    apply IH. unfold step_state. rewrite sample_step_plain by assumption.
    cbn [snd]. now apply track_plain_steady.
Qed.

(** A trace that returns [True] did so on its last sample. *)
Lemma detector_trace_true ed el msc st samples :
  detector_trace ed el msc st samples true ->
  exists pre jobs,
    samples = pre ++ [jobs]
    /\ step_done ed el msc (state_after ed el msc st pre) jobs = true.
Proof.
  intros Htr. destruct (detector_trace_steps _ _ _ _ _ _ Htr) as [Hnil Hsteps].
  destruct samples as [|j samples] using rev_ind; [now discriminate Hnil|].
  exists samples, j. split; [reflexivity|]. now apply (Hsteps samples j []).
Qed.

Lemma state_after_snoc ed el msc st pre jobs :
  state_after ed el msc st (pre ++ [jobs]) =
  step_state ed el msc (state_after ed el msc st pre) jobs.
Proof. unfold state_after. now rewrite fold_left_app. Qed.

(** C1 as stated fails for a threshold of 1: the first sample alone makes
    the detector report success, whatever its count.  With
    [max_stable_checks = 1] and no criterion, on a page without any card the
    detector returns [True] after one sample of cardinality 0, and on a page
    whose card count changes every second it returns [True] as well. *)
Lemma wait_for_jobs_stable_threshold_one :
  (let w := session empty_site in
   let out := _wait_for_jobs_stable None None 1 w in
   result_of out = Some (inl true)
   /\ job_samples (w_log (final_world out w)) = [(0, 0)])
  /\ (let w := session restless_site in
      let out := _wait_for_jobs_stable None None 1 w in
      result_of out = Some (inl true)
      /\ job_samples (w_log (final_world out w)) = [(0, 4)]).
Proof. vm_compute. repeat split; reflexivity. Qed.

(** C1, amended.  Without a department or location criterion and with
    [max_stable_checks] at least 2, the detector always returns, and when it
    returns [True] the samples it took end with at least
    [max_stable_checks] consecutive samples of one and the same card count,
    which is greater than zero.  So a source whose count differs between
    every two successive samples never yields [True], and [True] is never
    returned before the [max_stable_checks]-th sample.  Each sample is the
    page's card list at the instant it was taken.  On a page fixed at four
    cards with threshold 3 the detector returns [True] on the third sample;
    on a page alternating between four and five cards it returns [False]
    after 60 samples. *)
Theorem wait_for_jobs_stable_plain :
  (forall (expected_department expected_location : option string)
          (max_stable_checks : Z) (w : World),
      truthy expected_department = false ->
      truthy expected_location = false ->
      2 <= max_stable_checks ->
      exists b w' obs,
        _wait_for_jobs_stable expected_department expected_location
                              max_stable_checks w = Ok b w'
        /\ w_log w' = w_log w ++ map (lookup_entry JOB_ITEMS) obs
        /\ Forall (fun o => snd o = find_all (w_page w (fst o)) JOB_ITEMS) obs
        /\ let samples := map snd obs in
           (b = true ->
            exists pre suf c,
              samples = pre ++ suf
              /\ max_stable_checks <= Z.of_nat (List.length suf)
              /\ 0 < c
              /\ Forall (fun jobs => card_count jobs = c) suf)
           /\ ((forall pre j1 j2 post,
                   samples = pre ++ j1 :: j2 :: post ->
                   card_count j1 <> card_count j2) ->
               b = false)
           /\ (b = true -> max_stable_checks <= Z.of_nat (List.length samples)))
  /\ (let w := session steady_site in
      let out := _wait_for_jobs_stable None None 3 w in
      result_of out = Some (inl true)
      /\ job_samples (w_log (final_world out w)) = [(0, 4); (1000, 4); (2000, 4)])
  /\ (let w := session restless_site in
      let out := _wait_for_jobs_stable None None 3 w in
      result_of out = Some (inl false)
      /\ List.length (job_samples (w_log (final_world out w))) = 60%nat).
Proof.
  split; [|split; vm_compute; split; reflexivity].
  intros ed el msc w Hd Hl Hmsc.
  destruct (wait_for_jobs_stable_trace ed el msc w)
    as (b & w' & obs & Hrun & Hlog & Htr & _ & Hobs).
  exists b, w', obs. split; [exact Hrun|]. split; [exact Hlog|]. split.
  { eapply Forall_impl; [|exact Hobs]. cbn beta. tauto. }
  intros samples. fold samples in Htr.
  assert (Hsuf : b = true ->
            exists pre suf c,
              samples = pre ++ suf
              /\ msc <= Z.of_nat (List.length suf)
              /\ 0 < c
              /\ Forall (fun jobs => card_count jobs = c) suf).
  { intros ->. destruct (detector_trace_true _ _ _ _ _ Htr) as (pre & jobs & Heq & Hdone).
    unfold step_done in Hdone. rewrite sample_step_plain in Hdone by assumption.
    cbn [fst] in Hdone. apply Z.leb_le in Hdone.
    pose proof (state_after_plain_steady ed el msc Hd Hl pre initial_stability []
                  I) as Hst.
    apply (track_plain_steady _ _ jobs) in Hst. cbn [app] in Hst.
    rewrite <- Heq in Hst. unfold steady in Hst.
    destruct (stable_count (track_plain (state_after ed el msc initial_stability pre)
                                        (card_count jobs))) as [c|] eqn:Hc.
    - destruct Hst as (pre' & suf & Hs & Hlen & Hall & Hpos).
      exists pre', suf, c. repeat split; auto; lia.
    - exfalso. unfold track_plain in Hc.
      destruct (stable_count (state_after ed el msc initial_stability pre));
        [destruct (_ && _)|]; discriminate. }
  split; [exact Hsuf|]. split.
  - intros Hchange. destruct b; [|reflexivity]. exfalso.
    destruct (Hsuf eq_refl) as (pre & suf & c & Heq & Hlen & _ & Hall).
    destruct suf as [|j1 [|j2 suf]]; cbn [List.length] in Hlen; try lia.
    inversion Hall as [|? ? H1 Hall']; subst.
    inversion Hall' as [|? ? H2 _]; subst.
    apply (Hchange pre j1 j2 suf Heq). congruence.
  - intros Hb. destruct (Hsuf Hb) as (pre & suf & c & Heq & Hlen & _).
    rewrite Heq, length_app. lia.
Qed.

(** C1 at threshold 3 on the page fixed at four cards, the empty string
    standing for an absent location criterion. *)
Lemma wait_for_jobs_stable_plain_witness :
  exists b w' obs,
    _wait_for_jobs_stable None (Some "") 3 (session steady_site) = Ok b w'
    /\ w_log w' = map (lookup_entry JOB_ITEMS) obs
    /\ (b = true -> 3 <= Z.of_nat (List.length (map snd obs))).
Proof.
  destruct (proj1 wait_for_jobs_stable_plain None (Some "") 3 (session steady_site)
                  eq_refl eq_refl ltac:(lia))
    as (b & w' & obs & Hrun & Hlog & _ & _ & _ & Hlen).
  exists b, w', obs. split; [exact Hrun|]. split; [exact Hlog|exact Hlen].
Defined.

(** *** Matching *)

Lemma truthy_criterion (o : option string) :
  (truthy o = true -> exists s, o = Some s /\ s <> "")
  /\ (truthy o = false -> forall s, o = Some s -> s = "").
Proof.
  destruct o as [[|c s]|]; cbn; split; try discriminate; intros _.
  - intros s [= <-]. reflexivity.
  - eexists. split; [reflexivity|discriminate].
Qed.

Ltac read_facts :=
  repeat match goal with
         | H : inl _ = inl _ |- _ => injection H as H
         | H : inr _ = inl _ |- _ => discriminate H
         | H : Some _ = Some _ |- _ => injection H as H
         | H : None = Some _ |- _ => discriminate H
         | H : _ && _ = true |- _ => apply andb_true_iff in H; destruct H
         | H : str_in _ _ = true |- _ => apply str_in_substring in H
         | H : (_ =? _)%string = true |- _ => apply String.eqb_eq in H
         | H : exists _, _ |- _ => destruct H
         | H : _ /\ _ |- _ => destruct H
         end.

Lemma job_matches_satisfies ed el job :
  job_matches ed el job = inl true <-> card_satisfies ed el job.
Proof.
  unfold job_matches, card_satisfies.
  destruct (truthy_criterion ed) as [Hdt Hdf].
  destruct (truthy_criterion el) as [Hlt Hlf].
  destruct (truthy ed) eqn:Hd; destruct (truthy el) eqn:Hl; cbn [negb orb].
  - destruct (Hdt eq_refl) as (s1 & -> & Hs1).
    destruct (Hlt eq_refl) as (s2 & -> & Hs2).
    destruct (child_text job JOB_DEPARTMENT) as [d|x];
      destruct (child_text job JOB_LOCATION) as [l|y]; split.
    all: try (intros H; read_facts; subst; split; intros ? [= <-] _;
              [eexists; split; [reflexivity|]; eauto|reflexivity]).
    all: try discriminate.
    all: intros [H1 H2]; specialize (H1 _ eq_refl Hs1); specialize (H2 _ eq_refl Hs2);
      read_facts; subst.
    f_equal. apply andb_true_iff. split.
    + apply str_in_substring. eauto.
    + apply String.eqb_refl.
  - destruct (Hdt eq_refl) as (s1 & -> & Hs1). clear Hlt.
    destruct (child_text job JOB_DEPARTMENT) as [d|x]; split.
    all: try (intros H; read_facts; subst; split;
              [intros ? [= <-] _; eexists; split; [reflexivity|]; eauto
              |intros s Hs Hne; elim Hne; now apply Hlf]).
    all: try discriminate.
    all: intros [H1 _]; specialize (H1 _ eq_refl Hs1); read_facts; subst.
    f_equal. rewrite andb_true_r. apply str_in_substring. eauto.
  - destruct (Hlt eq_refl) as (s2 & -> & Hs2). clear Hdt.
    destruct (child_text job JOB_LOCATION) as [l|y]; split.
    all: try (intros H; read_facts; subst; split;
              [intros s Hs Hne; elim Hne; now apply Hdf
              |intros ? [= <-] _; reflexivity]).
    all: try discriminate.
    all: intros [_ H2]; specialize (H2 _ eq_refl Hs2); read_facts; subst.
    f_equal. apply String.eqb_refl.
  - split; [intros _|reflexivity].
    split; intros s Hs Hne; elim Hne; [now apply Hdf|now apply Hlf].
Qed.

Lemma any_job_matches_exists ed el jobs :
  any_job_matches ed el jobs = true <->
  exists job, In job jobs /\ card_satisfies ed el job.
Proof.
  induction jobs as [|job jobs IH]; cbn [any_job_matches].
  - split; [discriminate|intros (job & [] & _)].
  - pose proof (job_matches_satisfies ed el job) as Hjob.
    destruct (job_matches ed el job) as [[|]|x].
    + split; [intros _|reflexivity]. exists job. split; [now left|now apply Hjob].
    + rewrite IH. split; intros (j & Hin & Hj).
      * exists j. split; [now right|exact Hj].
      * destruct Hin as [<-|Hin]; [apply Hjob in Hj; discriminate|].
        exists j. auto.
    + rewrite IH. split; intros (j & Hin & Hj).
      * exists j. split; [now right|exact Hj].
      * destruct Hin as [<-|Hin]; [apply Hjob in Hj; discriminate|].
        exists j. auto.
Qed.

(** In the mode with criteria the stability pair after any samples is
    read off their card counts: the count of the last sample, and the
    number of consecutive unchanged samples. *)
Lemma state_after_criteria ed el msc :
  truthy ed || truthy el = true ->
  forall samples,
    state_after ed el msc initial_stability samples =
    match rev samples with
    | [] => initial_stability
    | jobs :: _ =>
        {| stable_count := Some (card_count jobs);
           stable_checks := consecutive_unchanged samples |}
    end.
Proof.
  intros Hc samples. induction samples as [|jobs pre IH] using rev_ind;
    [reflexivity|].
  rewrite state_after_snoc, IH. unfold step_state.
  rewrite sample_step_criteria by exact Hc. cbn [snd].
  unfold consecutive_unchanged. rewrite map_app, !rev_app_distr. cbn [map rev app].
  rewrite <- map_rev.
  destruct (rev pre) as [|previous older]; [reflexivity|].
  cbn [map unchanged_run]. unfold track_matching. cbn [stable_count stable_checks].
  destruct (card_count jobs =? card_count previous) eqn:Heq; [|reflexivity].
  apply Z.eqb_eq in Heq. now rewrite Heq.
Qed.

(** C5. With a department and/or location criterion the stability counter
    is, after any samples, the number of consecutive unchanged samples: 1
    on a first sample and on a sample whose card count differs from the
    previous one's, one more than before on a sample with as many cards as
    the previous one, whether or not a card matches.  The loop body
    returns [True] on a sample exactly when some card of that sample
    matches (its department text contains the expected department, its
    location text equals the expected location) and the counter, this
    sample included, has reached the threshold.  So the detector always
    returns, and returns [True] exactly when its last sample has a matching
    card and ends at least [max_stable_checks] consecutive unchanged
    samples, no earlier sample having had both.  On a page showing four
    Sales cards for three seconds and four Quality Assurance cards
    afterwards, the detector (threshold 3) returns [True] on the fourth
    sample, the first with a match; on a page showing Sales cards only it
    returns [False]. *)
Theorem wait_for_jobs_stable_criteria :
  (forall (expected_department expected_location : option string)
          (max_stable_checks : Z),
      truthy expected_department || truthy expected_location = true ->
      let counter samples :=
        stable_checks (state_after expected_department expected_location
                                   max_stable_checks initial_stability samples) in
      (forall samples, counter samples = consecutive_unchanged samples)
      /\ (forall pre previous jobs,
             (card_count jobs = card_count previous ->
              counter (pre ++ [previous; jobs]) = counter (pre ++ [previous]) + 1)
             /\ (card_count jobs <> card_count previous ->
                 counter (pre ++ [previous; jobs]) = 1)
             /\ counter [jobs] = 1)
      /\ (forall st jobs,
          (stable_count st = Some (card_count jobs) ->
           step_state expected_department expected_location max_stable_checks
                      st jobs =
           {| stable_count := Some (card_count jobs);
              stable_checks := stable_checks st + 1 |})
          /\ step_done expected_department expected_location max_stable_checks
                       st jobs =
             any_job_matches expected_department expected_location jobs
             && (max_stable_checks <=?
                 stable_checks (step_state expected_department expected_location
                                           max_stable_checks st jobs)))
      /\ (forall jobs,
             any_job_matches expected_department expected_location jobs = true <->
             exists job, In job jobs
                         /\ card_satisfies expected_department expected_location job)
      /\ (forall w,
             exists b w' obs,
               _wait_for_jobs_stable expected_department expected_location
                                     max_stable_checks w = Ok b w'
               /\ w_log w' = w_log w ++ map (lookup_entry JOB_ITEMS) obs
               /\ Forall (fun o => snd o = find_all (w_page w (fst o)) JOB_ITEMS) obs
               /\ let samples := map snd obs in
                  (b = true <->
                   exists pre jobs,
                     samples = pre ++ [jobs]
                     /\ (exists job,
                            In job jobs
                            /\ card_satisfies expected_department
                                              expected_location job)
                     /\ max_stable_checks <= consecutive_unchanged samples)
                  /\ (forall pre jobs post,
                         samples = pre ++ jobs :: post -> post <> [] ->
                         (exists job,
                             In job jobs
                             /\ card_satisfies expected_department
                                               expected_location job) ->
                         consecutive_unchanged (pre ++ [jobs])
                         < max_stable_checks)))
  /\ (let w := session settling_site in
      let out := _wait_for_jobs_stable (Some "Quality Assurance")
                                       (Some "Istanbul, Turkiye") 3 w in
      result_of out = Some (inl true)
      /\ job_samples (w_log (final_world out w)) =
           [(0, 4); (1000, 4); (2000, 4); (3000, 4)])
  /\ (let w := session sales_site in
      let out := _wait_for_jobs_stable (Some "Quality Assurance")
                                       (Some "Istanbul, Turkiye") 3 w in
      result_of out = Some (inl false)
      /\ List.length (job_samples (w_log (final_world out w))) = 60%nat).
Proof.
  split; [|split; vm_compute; split; reflexivity].
  intros ed el msc Hc counter.
  assert (Hstep : forall st jobs,
             step_state ed el msc st jobs = track_matching st (card_count jobs)
             /\ step_done ed el msc st jobs =
                any_job_matches ed el jobs
                && (msc <=? stable_checks (step_state ed el msc st jobs))).
  { intros st jobs. unfold step_state, step_done.
    rewrite sample_step_criteria by exact Hc. auto. }
  assert (Hdone : forall st jobs,
             step_done ed el msc st jobs =
             any_job_matches ed el jobs
             && (msc <=? stable_checks (step_state ed el msc st jobs)))
    by (intros; apply Hstep).
  assert (Hcounter : forall samples, counter samples = consecutive_unchanged samples).
  { intros samples. unfold counter. rewrite (state_after_criteria _ _ _ Hc).
    destruct (rev samples) as [|jobs older] eqn:Hrev; [|reflexivity].
    apply (f_equal (@rev _)) in Hrev. rewrite rev_involutive in Hrev.
    now subst samples. }
  split; [exact Hcounter|]. split; [|split; [|split]].
  - intros pre previous jobs. rewrite !Hcounter.
    unfold consecutive_unchanged. rewrite !map_app, !rev_app_distr.
    cbn [map rev app unchanged_run]. split; [|split].
    + intros Heq. apply Z.eqb_eq in Heq. now rewrite Heq.
    + intros Hne. apply Z.eqb_neq in Hne. now rewrite Hne.
    + reflexivity.
  - intros st jobs. destruct (Hstep st jobs) as [Hs Hd]. split; [|exact Hd].
    intros Hcount. rewrite Hs. unfold track_matching. rewrite Hcount.
    now rewrite Z.eqb_refl.
  - intros jobs. apply any_job_matches_exists.
  - intros w.
    destruct (wait_for_jobs_stable_trace ed el msc w)
      as (b & w' & obs & Hrun & Hlog & Htr & _ & Hobs).
    exists b, w', obs. split; [exact Hrun|]. split; [exact Hlog|]. split.
    { eapply Forall_impl; [|exact Hobs]. cbn beta. tauto. }
    intros samples. fold samples in Htr.
    destruct (detector_trace_steps _ _ _ _ _ _ Htr) as [_ Hsteps].
    split; [split|].
    + intros ->. destruct (detector_trace_true _ _ _ _ _ Htr) as (pre & jobs & Heq & Hd).
      exists pre, jobs. split; [exact Heq|].
      rewrite Hdone in Hd. apply andb_true_iff in Hd.
      destruct Hd as [Hm Hk]. split; [now apply any_job_matches_exists|].
      apply Z.leb_le in Hk. rewrite <- Hcounter. unfold counter.
      now rewrite Heq, state_after_snoc.
    + intros (pre & jobs & Heq & Hm & Hk).
      apply any_job_matches_exists in Hm.
      rewrite <- (Hsteps pre jobs [] Heq). rewrite Hdone, Hm.
      cbn [andb]. apply Z.leb_le. rewrite <- Hcounter in Hk. unfold counter in Hk.
      now rewrite Heq, state_after_snoc in Hk.
    + intros pre jobs post Heq Hpost Hm.
      apply any_job_matches_exists in Hm.
      pose proof (Hsteps pre jobs post Heq) as Hd.
      destruct post as [|p post]; [now elim Hpost|].
      rewrite Hdone, Hm in Hd. cbn [andb] in Hd.
      apply Z.leb_gt in Hd. rewrite <- Hcounter. unfold counter.
      now rewrite state_after_snoc.
Qed.

(** C5 on an empty sample that follows an empty sample, on a sample of
    five cards that follows two of four, and on a first sample. *)
Lemma wait_for_jobs_stable_criteria_witness :
  stable_checks (state_after (Some "Quality Assurance") None 2
                             initial_stability ([] ++ [[]; []])) =
  stable_checks (state_after (Some "Quality Assurance") None 2
                             initial_stability ([] ++ [[]])) + 1
  /\ stable_checks (state_after (Some "Quality Assurance") None 2
                                initial_stability
                                ([qa_cards 4] ++ [qa_cards 4; qa_cards 5])) = 1
  /\ stable_checks (state_after (Some "Quality Assurance") None 2
                                initial_stability [qa_cards 5]) = 1.
Proof.
  pose proof (proj1 wait_for_jobs_stable_criteria
                    (Some "Quality Assurance") None 2 eq_refl) as H.
  cbv zeta in H. destruct H as (_ & Hsteps & _).
  split; [exact (proj1 (Hsteps [] [] []) eq_refl)|]. split.
  - apply (proj1 (proj2 (Hsteps [qa_cards 4] (qa_cards 4) (qa_cards 5)))).
    vm_compute. discriminate.
  - exact (proj2 (proj2 (Hsteps [] [] (qa_cards 5)))).
Defined.

(** C9. With a department or location criterion the detector returns
    [True] only on a sample, the last one it took, that holds a card
    satisfying the criteria; in particular that sample is not empty.  Yet
    on an empty sample following an empty sample the counter of this mode
    goes up by one (without success), whereas the counter of the mode
    without criteria falls back to 1.  On a page without cards the detector
    with a criterion and threshold 1 returns [False] after its 60 samples. *)
Theorem wait_for_jobs_stable_match_on_return :
  (forall (expected_department expected_location : option string)
          (max_stable_checks : Z) (w : World),
      truthy expected_department || truthy expected_location = true ->
      exists b w' obs,
        _wait_for_jobs_stable expected_department expected_location
                              max_stable_checks w = Ok b w'
        /\ w_log w' = w_log w ++ map (lookup_entry JOB_ITEMS) obs
        /\ (b = true ->
            exists pre t jobs job,
              obs = pre ++ [(t, jobs)]
              /\ jobs = find_all (w_page w t) JOB_ITEMS
              /\ In job jobs
              /\ card_satisfies expected_department expected_location job
              /\ jobs <> []))
  /\ (forall (expected_department expected_location : option string)
             (max_stable_checks : Z) (st : Stability),
         stable_count st = Some 0 ->
         (truthy expected_department || truthy expected_location = true ->
          step_done expected_department expected_location max_stable_checks st []
          = false
          /\ stable_checks (step_state expected_department expected_location
                                       max_stable_checks st [])
             = stable_checks st + 1)
         /\ (truthy expected_department || truthy expected_location = false ->
             stable_checks (step_state expected_department expected_location
                                       max_stable_checks st [])
             = 1))
  /\ (let w := session empty_site in
      let out := _wait_for_jobs_stable (Some "Quality Assurance") None 1 w in
      result_of out = Some (inl false)
      /\ List.length (job_samples (w_log (final_world out w))) = 60%nat).
Proof.
  split; [|split; [|vm_compute; split; reflexivity]].
  - intros ed el msc w Hc.
    destruct (wait_for_jobs_stable_trace ed el msc w)
      as (b & w' & obs & Hrun & Hlog & Htr & _ & Hobs).
    exists b, w', obs. split; [exact Hrun|]. split; [exact Hlog|].
    intros ->. destruct (detector_trace_true _ _ _ _ _ Htr) as (pre & jobs & Heq & Hd).
    unfold step_done in Hd. rewrite sample_step_criteria in Hd by exact Hc.
    cbn [fst] in Hd. apply andb_true_iff in Hd. destruct Hd as [Hm _].
    apply any_job_matches_exists in Hm. destruct Hm as (job & Hin & Hsat).
    apply map_eq_app in Heq. destruct Heq as (opre & olast & -> & <- & Hlast).
    destruct olast as [|[t jobs'] [|? ?]]; try discriminate.
    cbn in Hlast. injection Hlast as ->.
    apply Forall_app in Hobs. destruct Hobs as [_ Hobs].
    inversion Hobs as [|? ? [_ Hpage] _]; subst. cbn [fst snd] in Hpage.
    exists opre, t, jobs, job.
    split; [reflexivity|]. split; [exact Hpage|]. split; [exact Hin|].
    split; [exact Hsat|].
    intros Hnil. rewrite Hnil in Hin. destruct Hin.
  - intros ed el msc st Hcount. split; intros Hc.
    + unfold step_done, step_state. rewrite sample_step_criteria by exact Hc.
      cbn [fst snd any_job_matches andb]. split; [reflexivity|].
      unfold track_matching, card_count. cbn [List.length Z.of_nat].
      now rewrite Hcount.
    + apply orb_false_iff in Hc. destruct Hc as [Hd Hl].
      unfold step_state. rewrite sample_step_plain by assumption.
      cbn [snd]. unfold track_plain, card_count. cbn [List.length Z.of_nat].
      now rewrite Hcount.
Qed.

(** C9 on the page fixed at four matching cards. *)
Lemma wait_for_jobs_stable_match_on_return_witness :
  exists b w' obs,
    _wait_for_jobs_stable (Some "Quality Assurance") (Some "Istanbul, Turkiye") 3
                          (session steady_site) = Ok b w'
    /\ w_log w' = map (lookup_entry JOB_ITEMS) obs
    /\ (b = true ->
        exists pre t jobs job,
          obs = pre ++ [(t, jobs)]
          /\ jobs = find_all (steady_site t) JOB_ITEMS
          /\ In job jobs
          /\ card_satisfies (Some "Quality Assurance") (Some "Istanbul, Turkiye") job
          /\ jobs <> []).
Proof.
  exact (proj1 wait_for_jobs_stable_match_on_return
               (Some "Quality Assurance") (Some "Istanbul, Turkiye") 3
               (session steady_site) eq_refl).
Defined.

(** ** Frames *)

Lemma step_to_refl w : step_to w w [].
Proof. unfold step_to. rewrite app_nil_r. repeat split; lia. Qed.

Lemma step_to_trans w1 w2 w3 n1 n2 :
  step_to w1 w2 n1 -> step_to w2 w3 n2 -> step_to w1 w3 (n1 ++ n2).
Proof.
  intros (Ht1 & Hp1 & Hl1 & Hg1) (Ht2 & Hp2 & Hl2 & Hg2). repeat split.
  - lia.
  - congruence.
  - congruence.
  - rewrite Hg2, Hg1. now rewrite app_assoc.
Qed.

Lemma step_to_lookup locator w :
  step_to w (after_lookup locator w)
          [(time (after_lookup locator w), Lookup locator (lookup_answer locator w))].
Proof. repeat split. apply after_lookup_time. Qed.

Lemma step_to_sleep d w : 0 <= d -> step_to w (sleep d w) [].
Proof.
  intros Hd. unfold step_to. cbn. rewrite app_nil_r. repeat split; lia.
Qed.

Lemma quiet_nil : quiet [].
Proof. reflexivity. Qed.

Lemma quiet_app n1 n2 : quiet n1 -> quiet n2 -> quiet (n1 ++ n2).
Proof. unfold quiet. intros H1 H2. now rewrite forallb_app, H1, H2. Qed.

Lemma quiet_lookup t locator found : quiet [(t, Lookup locator found)].
Proof. reflexivity. Qed.

Lemma quiet_lookups locator obs : quiet (map (lookup_entry locator) obs).
Proof. induction obs as [|o obs IH]; [reflexivity|exact IH]. Qed.

Create HintDb frames.

#[local] Hint Resolve step_to_refl step_to_lookup quiet_nil quiet_lookup
  quiet_lookups quiet_app : frames.

Lemma quiet_ret {V : Type} (v : V) : quiet_method (ret v).
Proof. intros w. exists []. auto with frames. Qed.

Lemma quiet_raise {V : Type} (e : exn) : quiet_method (@raise World V e).
Proof. intros w. exists []. auto with frames. Qed.

Lemma quiet_bind {A B : Type} (m : M World A) (k : A -> M World B) :
  quiet_method m -> (forall a, quiet_method (k a)) -> quiet_method (bind m k).
Proof.
  intros Hm Hk w. unfold bind. specialize (Hm w).
  destruct (m w) as [a w1|e w1|]; [|exact Hm|exact I].
  destruct Hm as (n1 & Hs1 & Hq1). specialize (Hk a w1).
  destruct (k a w1) as [b w2|e w2|]; [| |exact I];
    destruct Hk as (n2 & Hs2 & Hq2); exists (n1 ++ n2);
    (split; [eapply step_to_trans; eassumption|now apply quiet_app]).
Qed.

Lemma quiet_find_elements locator : quiet_method (driver_find_elements locator).
Proof.
  intros w. rewrite driver_find_elements_eq. eexists. split; auto with frames.
Qed.

Lemma quiet_find_element locator : quiet_method (driver_find_element locator).
Proof.
  apply quiet_bind; [apply quiet_find_elements|].
  intros [|e l]; [apply quiet_raise|apply quiet_ret].
Qed.

Lemma quiet_visibility locator : quiet_method (visibility_of_element_located locator).
Proof. apply quiet_bind; [apply quiet_find_element|intros; apply quiet_ret]. Qed.

Lemma quiet_visibility_any locator :
  quiet_method (visibility_of_any_elements_located locator).
Proof. apply quiet_bind; [apply quiet_find_elements|intros; apply quiet_ret]. Qed.

Lemma quiet_clickable locator : quiet_method (element_to_be_clickable locator).
Proof. apply quiet_bind; [apply quiet_find_element|intros; apply quiet_ret]. Qed.

Lemma total_find_element locator : total_method (driver_find_element locator).
Proof.
  intros w. unfold driver_find_element, bind. rewrite driver_find_elements_eq.
  destruct (lookup_answer locator w); discriminate.
Qed.

Lemma total_find_elements locator : total_method (driver_find_elements locator).
Proof. intros w. rewrite driver_find_elements_eq. discriminate. Qed.

(** ** [WebDriverWait.until] *)

Section UntilFacts.
Context {V : Type} `{Truthy V}.
Variable method : M World V.
Hypothesis method_quiet : quiet_method method.

Lemma until_loop_quiet fuel end_time :
  quiet_method (until_loop fuel end_time method).
Proof.
  induction fuel as [|fuel IH]; intros w; cbn [until_loop]; [exact I|].
  pose proof (method_quiet w) as Hm.
  assert (Hagain : forall w1 n1,
             step_to w w1 n1 -> quiet n1 ->
             match (if end_time <? time (sleep 500 w1)
                    then Raise (TimeoutException (Text "")) (sleep 500 w1)
                    else until_loop fuel end_time method (sleep 500 w1)) with
             | Ok _ w' | Raise _ w' => exists news, step_to w w' news /\ quiet news
             | Diverge => True
             end).
  { intros w1 n1 Hs1 Hq1.
    assert (Hs2 : step_to w (sleep 500 w1) n1).
    { rewrite <- (app_nil_r n1). eapply step_to_trans; [exact Hs1|].
      apply step_to_sleep. lia. }
    destruct (end_time <? time (sleep 500 w1)); [now exists n1|].
    specialize (IH (sleep 500 w1)).
    destruct (until_loop fuel end_time method (sleep 500 w1)) as [v w2|e w2|];
      [| |exact I]; destruct IH as (n2 & Hs3 & Hq2); exists (n1 ++ n2);
      (split; [eapply step_to_trans; eassumption|now apply quiet_app]). }
  destruct (method w) as [v w1|e w1|]; [| |exact I]; destruct Hm as (n1 & Hs1 & Hq1).
  - destruct (truthy v); [now exists n1|now apply (Hagain w1 n1)].
  - destruct (is_no_such_element e); [now apply (Hagain w1 n1)|now exists n1].
Qed.

(** A value returned by the wait is truthy and is the value the condition
    gave on its last evaluation. *)
Lemma until_loop_ok fuel end_time :
  forall w v w',
    until_loop fuel end_time method w = Ok v w' ->
    truthy v = true
    /\ exists w0 news0,
         step_to w w0 news0 /\ quiet news0 /\ method w0 = Ok v w'.
Proof.
  induction fuel as [|fuel IH]; intros w v w' Hrun; cbn [until_loop] in Hrun;
    [discriminate|].
  pose proof (method_quiet w) as Hm.
  assert (Hagain : forall w1 n1,
             step_to w w1 n1 -> quiet n1 ->
             (if end_time <? time (sleep 500 w1)
              then Raise (TimeoutException (Text "")) (sleep 500 w1)
              else until_loop fuel end_time method (sleep 500 w1)) = Ok v w' ->
             truthy v = true
             /\ exists w0 news0,
                  step_to w w0 news0 /\ quiet news0 /\ method w0 = Ok v w').
  { intros w1 n1 Hs1 Hq1 Hrest.
    destruct (end_time <? time (sleep 500 w1)); [discriminate|].
    destruct (IH _ _ _ Hrest) as (Hv & w0 & n0 & Hs0 & Hq0 & Hm0).
    split; [exact Hv|]. exists w0, (n1 ++ n0). split; [|split; auto with frames].
    eapply step_to_trans; [|exact Hs0].
    rewrite <- (app_nil_r n1). eapply step_to_trans; [exact Hs1|].
    apply step_to_sleep. lia. }
  destruct (method w) as [v1 w1|e w1|] eqn:Hmw; [| |discriminate];
    destruct Hm as (n1 & Hs1 & Hq1).
  - destruct (truthy v1) eqn:Hv1; [|now apply (Hagain w1 n1)].
    injection Hrun as <- <-. split; [exact Hv1|].
    exists w, []. auto with frames.
  - destruct (is_no_such_element e); [now apply (Hagain w1 n1)|discriminate].
Qed.

(** An exception of the wait is its own timeout, raised once the clock is
    past the deadline, or an exception of the condition other than
    [NoSuchElementException]. *)
Lemma until_loop_raise fuel end_time :
  forall w e w',
    until_loop fuel end_time method w = Raise e w' ->
    (e = TimeoutException (Text "") /\ end_time < time w')
    \/ (is_no_such_element e = false /\ exists w0, method w0 = Raise e w').
Proof.
  induction fuel as [|fuel IH]; intros w e w' Hrun; cbn [until_loop] in Hrun;
    [discriminate|].
  assert (Hagain : forall w1,
             (if end_time <? time (sleep 500 w1)
              then Raise (TimeoutException (Text "")) (sleep 500 w1)
              else until_loop fuel end_time method (sleep 500 w1)) = Raise e w' ->
             (e = TimeoutException (Text "") /\ end_time < time w')
             \/ (is_no_such_element e = false /\ exists w0, method w0 = Raise e w')).
  { intros w1 Hrest.
    destruct (Z.ltb_spec end_time (time (sleep 500 w1))) as [Hlt|_].
    - injection Hrest as <- <-. left. auto.
    - now apply (IH _ _ _ Hrest). }
  destruct (method w) as [v1 w1|e1 w1|] eqn:Hmw; [| |discriminate].
  - destruct (truthy v1); [discriminate|now apply (Hagain w1)].
  - destruct (is_no_such_element e1) eqn:He1; [now apply (Hagain w1)|].
    injection Hrun as <- <-. right. split; [exact He1|now exists w].
Qed.

Hypothesis method_total : total_method method.

Lemma until_loop_total fuel end_time :
  forall w,
    (0 < fuel)%nat ->
    end_time - time w + 500 <= 500 * Z.of_nat fuel ->
    until_loop fuel end_time method w <> Diverge.
Proof.
  induction fuel as [|fuel IH]; intros w Hpos Hfuel; [lia|].
  cbn [until_loop]. pose proof (method_quiet w) as Hm.
  pose proof (method_total w) as Ht.
  assert (Hagain : forall w1,
             time w <= time w1 ->
             (if end_time <? time (sleep 500 w1)
              then Raise (TimeoutException (Text "")) (sleep 500 w1)
              else until_loop fuel end_time method (sleep 500 w1)) <> Diverge).
  { intros w1 Hle.
    destruct (Z.ltb_spec end_time (time (sleep 500 w1))) as [Hlt|Hge];
      [discriminate|].
    change (time (sleep 500 w1)) with (time w1 + 500) in *.
    rewrite Nat2Z.inj_succ in Hfuel.
    apply IH; change (time (sleep 500 w1)) with (time w1 + 500); lia. }
  destruct (method w) as [v1 w1|e1 w1|]; [| |congruence];
    destruct Hm as (n1 & (Hle & _) & _).
  - destruct (truthy v1); [discriminate|now apply (Hagain w1)].
  - destruct (is_no_such_element e1); [now apply (Hagain w1)|discriminate].
Qed.

Lemma until_total timeout : total_method (until timeout method).
Proof.
  intros w. unfold until. apply until_loop_total; [lia|].
  rewrite Nat2Z.inj_succ. lia.
Qed.

Lemma until_quiet timeout : quiet_method (until timeout method).
Proof. intros w. apply until_loop_quiet. Qed.

Lemma until_ok timeout w v w' :
  until timeout method w = Ok v w' ->
  truthy v = true
  /\ exists w0 news0, step_to w w0 news0 /\ quiet news0 /\ method w0 = Ok v w'.
Proof. apply until_loop_ok. Qed.

Lemma until_raise timeout w e w' :
  until timeout method w = Raise e w' ->
  (e = TimeoutException (Text "") /\ time w + 1000 * timeout < time w')
  \/ (is_no_such_element e = false /\ exists w0, method w0 = Raise e w').
Proof. apply until_loop_raise. Qed.

End UntilFacts.

(** ** The locator facade *)

Lemma driver_find_element_ok locator w e w' :
  driver_find_element locator w = Ok e w' ->
  w' = after_lookup locator w
  /\ exists rest, find_all (w_page w (time w')) locator = e :: rest.
Proof.
  unfold driver_find_element, bind. rewrite driver_find_elements_eq.
  unfold lookup_answer.
  destruct (find_all _ locator) as [|e' rest] eqn:Hf; [discriminate|].
  intros [= <- <-]. split; [reflexivity|]. exists rest. exact Hf.
Qed.

Lemma driver_find_element_raise locator w x w' :
  driver_find_element locator w = Raise x w' -> is_no_such_element x = true.
Proof.
  unfold driver_find_element, bind. rewrite driver_find_elements_eq.
  destruct (lookup_answer locator w); [|discriminate].
  intros [= <- _]. reflexivity.
Qed.

(** C7 as stated fails for [find_elements]: its timeout is not turned into
    a not-found error and names no locator.  On a page without job cards,
    [find_elements(JOB_ITEMS)] with the default timeout raises selenium's
    [TimeoutException] with an empty message. *)
Lemma find_elements_timeout_is_not_not_found :
  let out := find_elements JOB_ITEMS 15 (session empty_site) in
  result_of out = Some (inr (TimeoutException (Text "")))
  /\ forall m, result_of out <> Some (inr (NoSuchElementException m)).
Proof. vm_compute. split; [reflexivity|discriminate]. Qed.

(** C7, amended.  [find_element] always ends; when it returns, it returns
    an element the page holds under the locator at that instant; when it
    fails, it fails with [NoSuchElementException] whose message carries the
    locator (and nothing about the condition awaited), after the timeout has
    elapsed.  It does fail so whenever the page never holds such an element.
    [find_elements] always ends too, and a list it returns is the non-empty
    list of the elements the page holds at that instant: neither operation
    returns an empty handle. *)
Theorem find_element_not_found :
  (forall locator timeout w,
      match find_element locator timeout w with
      | Ok e w' =>
          time w <= time w'
          /\ exists rest, find_all (w_page w (time w')) locator = e :: rest
      | Raise x w' =>
          x = NoSuchElementException (ElementNotFound locator)
          /\ time w + 1000 * timeout < time w'
      | Diverge => False
      end)
  /\ (forall locator timeout w,
         (forall t, time w <= t -> find_all (w_page w t) locator = []) ->
         exists w',
           find_element locator timeout w =
           Raise (NoSuchElementException (ElementNotFound locator)) w'
           /\ time w + 1000 * timeout < time w')
  /\ (forall locator timeout w,
         match find_elements locator timeout w with
         | Ok found w' =>
             found <> [] /\ found = find_all (w_page w (time w')) locator
         | Raise _ _ => True
         | Diverge => False
         end).
Proof.
  assert (Hfirst : forall locator timeout w,
      match find_element locator timeout w with
      | Ok e w' =>
          time w <= time w'
          /\ exists rest, find_all (w_page w (time w')) locator = e :: rest
      | Raise x w' =>
          x = NoSuchElementException (ElementNotFound locator)
          /\ time w + 1000 * timeout < time w'
      | Diverge => False
      end).
  { intros locator timeout w. unfold find_element, presence_of_element_located.
    pose proof (until_total _ (quiet_find_element locator)
                            (total_find_element locator) timeout w) as Htot.
    destruct (until timeout (driver_find_element locator) w) as [e w'|x w'|] eqn:Hrun;
      [| |congruence].
    - apply (until_ok _ (quiet_find_element locator)) in Hrun.
      destruct Hrun as (_ & w0 & n0 & (Ht0 & Hp0 & _) & _ & Hm).
      apply driver_find_element_ok in Hm. destruct Hm as (-> & rest & Hf).
      pose proof (after_lookup_time locator w0).
      split; [lia|]. exists rest. rewrite <- Hp0. exact Hf.
    - apply (until_raise _) in Hrun. destruct Hrun as [[-> Hlt]|(Hne & w0 & Hm)].
      + auto.
      + apply driver_find_element_raise in Hm. congruence. }
  split; [exact Hfirst|]. split.
  - intros locator timeout w Hnever. specialize (Hfirst locator timeout w).
    destruct (find_element locator timeout w) as [e w'|x w'|]; [|now exists w'; destruct Hfirst as [-> ?]|contradiction].
    destruct Hfirst as (Hle & rest & Hf). rewrite (Hnever _ Hle) in Hf. discriminate.
  - intros locator timeout w. unfold find_elements, presence_of_all_elements_located.
    pose proof (until_total _ (quiet_find_elements locator)
                            (total_find_elements locator) timeout w) as Htot.
    destruct (until timeout (driver_find_elements locator) w) as [l w'|x w'|] eqn:Hrun;
      [|exact I|congruence].
    apply (until_ok _ (quiet_find_elements locator)) in Hrun.
    destruct Hrun as (Hv & w0 & n0 & (_ & Hp0 & _) & _ & Hm).
    rewrite driver_find_elements_eq in Hm. injection Hm as <- <-. split.
    + intros Hnil. rewrite Hnil in Hv. discriminate.
    + unfold lookup_answer. now rewrite Hp0.
Qed.

(** C7 on a page that never holds a job card. *)
Lemma find_element_not_found_witness :
  exists w',
    find_element JOB_ITEMS 15 (session empty_site) =
    Raise (NoSuchElementException (ElementNotFound JOB_ITEMS)) w'
    /\ time (session empty_site) + 1000 * 15 < time w'.
Proof.
  apply (proj1 (proj2 find_element_not_found) JOB_ITEMS 15 (session empty_site)).
  intros t _. reflexivity.
Defined.

(** ** The filters *)

Lemma quiet_answer {A : Type} (r : reply A) : quiet_method (answer r).
Proof. intros w. unfold answer. destruct r; exists []; auto with frames. Qed.

Lemma quiet_read_department_text : quiet_method read_department_text.
Proof.
  apply quiet_bind; [apply quiet_find_element|]. intros e.
  apply quiet_bind; [apply quiet_answer|]. intros t. apply quiet_ret.
Qed.

Lemma quiet_ensure_loop fuel start_time max_wait last fails :
  quiet_method (ensure_loop fuel start_time max_wait last fails).
Proof.
  revert last fails. induction fuel as [|fuel IH]; intros last fails w;
    cbn [ensure_loop].
  - destruct (time w <? max_wait); [exact I|]. exists []. auto with frames.
  - destruct (time w <? max_wait); [|exists []; auto with frames].
    pose proof (quiet_read_department_text w) as Hr.
    assert (Hnext : forall w1 n1 last' fails',
               step_to w w1 n1 -> quiet n1 ->
               match ensure_loop fuel start_time max_wait last' fails' (sleep 1000 w1) with
               | Ok _ w' | Raise _ w' => exists news, step_to w w' news /\ quiet news
               | Diverge => True
               end).
    { intros w1 n1 last' fails' Hs1 Hq1. specialize (IH last' fails' (sleep 1000 w1)).
      destruct (ensure_loop fuel start_time max_wait last' fails' (sleep 1000 w1))
        as [b w2|e w2|]; [| |exact I]; destruct IH as (n2 & Hs2 & Hq2);
        exists (n1 ++ n2); (split; [|now apply quiet_app]);
        (eapply step_to_trans; [|exact Hs2]);
        rewrite <- (app_nil_r n1); (eapply step_to_trans; [exact Hs1|]);
        apply step_to_sleep; lia. }
    destruct (read_department_text w) as [t w1|e w1|]; [| |exact I];
      destruct Hr as (n1 & Hs1 & Hq1).
    + destruct (department_ready t); [now exists n1|now apply (Hnext w1 n1)].
    + destruct (max_element_failures <=? fails + 1);
        [now exists n1|now apply (Hnext w1 n1)].
Qed.

Lemma quiet_ensure_department_not_all timeout :
  quiet_method (_ensure_department_not_all timeout).
Proof. intros w. apply quiet_ensure_loop. Qed.

Lemma quiet_jobs_stable_loop ed el msc timeout fuel :
  forall st, quiet_method (jobs_stable_loop fuel ed el msc timeout st).
Proof.
  induction fuel as [|fuel IH]; intros st w; cbn [jobs_stable_loop].
  - destruct (time w <? timeout); [exact I|]. exists []. auto with frames.
  - destruct (time w <? timeout); [|exists []; auto with frames].
    rewrite driver_find_elements_eq.
    destruct (sample_step ed el msc st (lookup_answer JOB_ITEMS w)) as [fin st'].
    destruct fin; [eexists; split; auto with frames|].
    specialize (IH st' (sleep 1000 (after_lookup JOB_ITEMS w))).
    destruct (jobs_stable_loop fuel ed el msc timeout st'
                               (sleep 1000 (after_lookup JOB_ITEMS w)))
      as [b w2|e w2|]; [| |exact I]; destruct IH as (n2 & Hs2 & Hq2);
      eexists; (split; [|apply quiet_app; [apply quiet_lookup|exact Hq2]]);
      (eapply step_to_trans; [|exact Hs2]);
      rewrite <- (app_nil_r [_]); (eapply step_to_trans; [apply step_to_lookup|]);
      apply step_to_sleep; lia.
Qed.

Lemma quiet_wait_for_jobs_stable ed el msc :
  quiet_method (_wait_for_jobs_stable ed el msc).
Proof. intros w. apply quiet_jobs_stable_loop. Qed.

Lemma quiet_ok {V : Type} (m : M World V) w v w' :
  quiet_method m -> m w = Ok v w' -> exists news, step_to w w' news /\ quiet news.
Proof. intros Hm Hrun. specialize (Hm w). now rewrite Hrun in Hm. Qed.

Lemma quiet_calm news : quiet news -> calm news.
Proof.
  unfold quiet, calm. induction news as [|[t ev] news IH]; [reflexivity|].
  cbn. destruct ev; cbn; try discriminate. exact IH.
Qed.

Lemma calm_app n1 n2 : calm n1 -> calm n2 -> calm (n1 ++ n2).
Proof. unfold calm. intros H1 H2. now rewrite forallb_app, H1, H2. Qed.

Lemma bind_ok {A B : Type} (m : M World A) (k : A -> M World B) w b w' :
  bind m k w = Ok b w' -> exists a w1, m w = Ok a w1 /\ k a w1 = Ok b w'.
Proof.
  unfold bind. destruct (m w) as [a w1|e w1|]; try discriminate.
  intros Hk. now exists a, w1.
Qed.

Lemma emit_ok ev w u w' :
  emit ev w = Ok u w' -> step_to w w' [(time w, ev)] /\ time w' = time w.
Proof. intros [= <- <-]. repeat split. cbn. lia. Qed.

(** The wait for a clickable element returns the first element under the
    locator, displayed and enabled at the instant the wait ends. *)
Lemma until_clickable_ok timeout locator w v w' :
  until timeout (element_to_be_clickable locator) w = Ok v w' ->
  exists news e rest,
    v = Some e /\ step_to w w' news /\ quiet news
    /\ find_all (w_page w (time w')) locator = e :: rest
    /\ is_displayed e = true /\ is_enabled e = true.
Proof.
  intros Hrun.
  destruct (quiet_ok _ _ _ _ (until_quiet _ (quiet_clickable locator) timeout) Hrun)
    as (news & Hs & Hq).
  apply (until_ok _ (quiet_clickable locator)) in Hrun.
  destruct Hrun as (Hv & w0 & n0 & (_ & Hp0 & _) & _ & Hm).
  unfold element_to_be_clickable in Hm. apply bind_ok in Hm.
  destruct Hm as (e & w1 & Hfind & Hret).
  apply driver_find_element_ok in Hfind. destruct Hfind as (-> & rest & Hf).
  injection Hret as <- <-.
  destruct (is_displayed e && is_enabled e) eqn:Hde; [|discriminate].
  apply andb_true_iff in Hde. destruct Hde as [Hd He].
  exists news, e, rest. rewrite <- Hp0. auto 10.
Qed.

(** The wait for presence returns the first element the page holds under
    the locator at the instant the wait ends. *)
Lemma until_presence_ok timeout locator w e w' :
  until timeout (presence_of_element_located locator) w = Ok e w' ->
  exists news rest,
    step_to w w' news /\ quiet news
    /\ find_all (w_page w (time w')) locator = e :: rest.
Proof.
  intros Hrun. unfold presence_of_element_located in Hrun.
  destruct (quiet_ok _ _ _ _ (until_quiet _ (quiet_find_element locator) timeout) Hrun)
    as (news & Hs & Hq).
  apply (until_ok _ (quiet_find_element locator)) in Hrun.
  destruct Hrun as (_ & w0 & n0 & (_ & Hp0 & _) & _ & Hm).
  apply driver_find_element_ok in Hm. destruct Hm as (-> & rest & Hf).
  exists news, rest. rewrite <- Hp0. auto.
Qed.

Lemma until_visibility_ok timeout locator w v w' :
  until timeout (visibility_of_element_located locator) w = Ok v w' ->
  exists news e, v = Some e /\ step_to w w' news /\ quiet news.
Proof.
  intros Hrun.
  destruct (quiet_ok _ _ _ _ (until_quiet _ (quiet_visibility locator) timeout) Hrun)
    as (news & Hs & Hq).
  apply (until_ok _ (quiet_visibility locator)) in Hrun.
  destruct Hrun as (Hv & _). destruct v as [e|]; [|discriminate].
  now exists news, e.
Qed.

Lemma click_ok locator timeout w u w' :
  click locator timeout w = Ok u w' ->
  exists news, step_to w w' news /\ calm news.
Proof.
  unfold click. intros Hrun. apply bind_ok in Hrun.
  destruct Hrun as (v & w1 & Hwait & Hclick).
  apply until_clickable_ok in Hwait.
  destruct Hwait as (n1 & e & rest & -> & Hs1 & Hq1 & _).
  apply emit_ok in Hclick. destruct Hclick as [Hs2 _].
  exists (n1 ++ [(time w1, NativeClick e)]). split.
  - eapply step_to_trans; eassumption.
  - apply calm_app; [now apply quiet_calm|reflexivity].
Qed.

(** The scroll and activation scripts on the located option. *)
Lemma scripts_ok container target w u w' :
  (option_position <- execute_script OffsetTopScript [JsElem target] ;;
   execute_script ScrollTopScript [JsElem container; option_position] ;;;
   execute_script ActivateScript [JsElem target]) w = Ok u w' ->
  exists news,
    step_to w w' (news ++ activation (time w) target)
    /\ calm news /\ time w' = time w.
Proof.
  intros Hrun. cbn in Hrun. injection Hrun as _ <-.
  exists [(w_time w, ScrollTopSet container (offsetTop target - 100))].
  cbn. unfold step_to, activation. cbn.
  rewrite <- !app_assoc. cbn. repeat split. lia.
Qed.

Ltac bind_step H a w1 H1 :=
  apply bind_ok in H; destruct H as (a & w1 & H1 & H); cbv beta zeta in H.

(** What both filters do from the scripts on: scroll the panel, activate
    the option, wait for a present and for a clickable job card, run the
    stability detector. *)
Lemma filter_tail container target ed el msc w u w' :
  (option_position <- execute_script OffsetTopScript [JsElem target] ;;
   execute_script ScrollTopScript [js_of (Some container); option_position] ;;;
   execute_script ActivateScript [JsElem target] ;;;
   until WAIT_TIME (presence_of_all_elements_located JOB_ITEMS) ;;;
   until WAIT_TIME (element_to_be_clickable JOB_ITEMS) ;;;
   _wait_for_jobs_stable ed el msc ;;;
   ret tt) w = Ok u w' ->
  exists before after t' card cards,
    step_to w w' (before ++ activation (time w) target ++ after)
    /\ calm before /\ quiet after
    /\ time w <= t' <= time w'
    /\ find_all (w_page w t') JOB_ITEMS = card :: cards
    /\ is_displayed card = true /\ is_enabled card = true.
Proof.
  intros H.
  bind_step H p w1 H1. cbn in H1. injection H1 as <- <-.
  bind_step H x2 w2 H2. cbn in H2. injection H2 as _ <-.
  bind_step H x3 w3 H3. cbn in H3. injection H3 as _ <-.
  bind_step H x4 w4 H4. bind_step H x5 w5 H5. bind_step H x6 w6 H6.
  injection H as _ <-.
  destruct (quiet_ok _ _ _ _ (until_quiet _ (quiet_find_elements JOB_ITEMS) WAIT_TIME) H4)
    as (n4 & S4 & Q4).
  destruct (until_clickable_ok _ _ _ _ _ H5)
    as (n5 & card & cards & _ & S5 & Q5 & Hcards & Hd & He).
  destruct (quiet_ok _ _ _ _ (quiet_wait_for_jobs_stable ed el msc) H6)
    as (n6 & S6 & Q6).
  pose proof (step_to_trans _ _ _ _ _ S4 S5) as S45.
  pose proof (step_to_trans _ _ _ _ _ S45 S6) as S456.
  exists [(w_time w, ScrollTopSet container (offsetTop target - 100))],
         ((n4 ++ n5) ++ n6), (time w5), card, cards.
  split; [|split; [reflexivity|split; [auto with frames|]]].
  - destruct S456 as (Ht & Hp & Hl & Hg). repeat split.
    + cbn in *. lia.
    + exact Hp.
    + exact Hl.
    + rewrite Hg. cbn. unfold activation. cbn. rewrite <- !app_assoc. reflexivity.
  - destruct S4 as (Ht4 & Hp4 & _). destruct S5 as (Ht5 & _). destruct S6 as (Ht6 & _).
    cbn in *. rewrite Hp4 in Hcards. cbn in Hcards.
    repeat split; auto; lia.
Qed.

Lemma activations_quiet news : quiet news -> activations news = [].
Proof.
  unfold quiet, activations. induction news as [|[t ev] news IH]; [reflexivity|].
  cbn. destruct ev; cbn; try discriminate. exact IH.
Qed.

Lemma calm_of_quiet {V : Type} (m : M World V) : quiet_method m -> calm_method m.
Proof.
  intros Hm w. specialize (Hm w).
  destruct (m w) as [v w'|e w'|]; [| |exact I]; destruct Hm as (news & Hs & Hq);
    exists news; auto using activations_quiet.
Qed.

Lemma calm_ret {V : Type} (v : V) : calm_method (ret v).
Proof. apply calm_of_quiet, quiet_ret. Qed.

Lemma calm_raise {V : Type} (e : exn) : calm_method (@raise World V e).
Proof. apply calm_of_quiet, quiet_raise. Qed.

Lemma calm_bind {A B : Type} (m : M World A) (k : A -> M World B) :
  calm_method m -> (forall a, calm_method (k a)) -> calm_method (bind m k).
Proof.
  intros Hm Hk w. unfold bind. specialize (Hm w).
  destruct (m w) as [a w1|e w1|]; [|exact Hm|exact I].
  destruct Hm as (n1 & Hs1 & Hq1). specialize (Hk a w1).
  destruct (k a w1) as [b w2|e w2|]; [| |exact I];
    destruct Hk as (n2 & Hs2 & Hq2); exists (n1 ++ n2);
    (split; [eapply step_to_trans; eassumption|]);
    unfold activations in *; now rewrite filter_app, Hq1, Hq2.
Qed.

Lemma orderly_bind {A B : Type} (m : M World A) (k : A -> M World B) :
  calm_method m -> (forall a, orderly_method (k a)) -> orderly_method (bind m k).
Proof.
  intros Hm Hk w. unfold bind. specialize (Hm w).
  destruct (m w) as [a w1|e w1|]; [| |exact I].
  - destruct Hm as (n1 & Hs1 & Hq1). specialize (Hk a w1).
    destruct (k a w1) as [b w2|e w2|]; [| |exact I];
      destruct Hk as (n2 & Hs2 & Hq2); exists (n1 ++ n2);
      (split; [eapply step_to_trans; eassumption|]);
      unfold activations in *; rewrite filter_app, Hq1; exact Hq2.
  - destruct Hm as (n1 & Hs1 & Hq1). exists n1. auto.
Qed.

Lemma calm_emit ev : is_activation (0, ev) = false -> calm_method (emit ev).
Proof.
  intros Hev w. exists [(time w, ev)]. split; [now apply (emit_ok ev w tt)|].
  unfold activations. cbn. unfold is_activation in *. cbn in *. now rewrite Hev.
Qed.

Lemma calm_click locator timeout : calm_method (click locator timeout).
Proof.
  apply calm_bind; [apply calm_of_quiet, until_quiet, quiet_clickable|].
  intros [e|]; [now apply calm_emit|apply calm_raise].
Qed.

Lemma calm_offset_script args : calm_method (execute_script OffsetTopScript args).
Proof.
  destruct args as [|[e|z| |] rest]; cbn [execute_script];
    first [apply calm_ret|apply calm_raise].
Qed.

Lemma calm_scroll_script args : calm_method (execute_script ScrollTopScript args).
Proof.
  destruct args as [|[e|z| |] [|[e'|z'| |] rest]]; cbn [execute_script];
    try apply calm_raise.
  apply calm_bind; [now apply calm_emit|intros; apply calm_ret].
Qed.

(** The activation script followed by a computation that activates
    nothing. *)
Lemma orderly_activate_script {V : Type} args (rest : M World V) :
  calm_method rest ->
  orderly_method (execute_script ActivateScript args ;;; rest).
Proof.
  intros Hrest. destruct args as [|[e|z| |] args]; cbn [execute_script].
  2:{ intros w. cbn. specialize (Hrest
        {| w_time := w_time w; w_page := w_page w; w_latency := w_latency w;
           w_log := ((w_log w ++ [(w_time w, Dispatch "mousedown" e)])
                     ++ [(w_time w, Dispatch "mouseup" e)])
                    ++ [(w_time w, ScriptClick e)] |}).
      cbn in Hrest.
      match goal with |- match ?r with _ => _ end => destruct r as [v w'|x w'|] end;
        [| |exact I]; destruct Hrest as (n & (Ht & Hp & Hl & Hg) & Hq);
        exists (activation (w_time w) e ++ n);
        (split; [|right; exists (w_time w), e; unfold activations in *;
                  rewrite filter_app, Hq; reflexivity]);
        repeat split; auto; rewrite Hg; cbn; unfold activation;
        rewrite <- !app_assoc; reflexivity. }
  all: intros w; cbn; exists []; split; auto with frames.
Qed.

(** Both filters are orderly: however they end, they have activated at
    most one option, by the three events in their order. *)
Lemma filter_tail_orderly dropdown_container target ed el msc :
  orderly_method
    (option_position <- execute_script OffsetTopScript [JsElem target] ;;
     execute_script ScrollTopScript [js_of dropdown_container; option_position] ;;;
     execute_script ActivateScript [JsElem target] ;;;
     until WAIT_TIME (presence_of_all_elements_located JOB_ITEMS) ;;;
     until WAIT_TIME (element_to_be_clickable JOB_ITEMS) ;;;
     _wait_for_jobs_stable ed el msc ;;;
     ret tt).
Proof.
  apply orderly_bind; [apply calm_offset_script|]. intros p.
  apply orderly_bind; [apply calm_scroll_script|]. intros _.
  apply orderly_activate_script.
  apply calm_bind; [apply calm_of_quiet, until_quiet, quiet_find_elements|]. intros _.
  apply calm_bind; [apply calm_of_quiet, until_quiet, quiet_clickable|]. intros _.
  apply calm_bind; [apply calm_of_quiet, quiet_wait_for_jobs_stable|]. intros _.
  apply calm_ret.
Qed.

Lemma filter_by_location_orderly location ed :
  orderly_method (filter_by_location location ed).
Proof.
  unfold filter_by_location.
  apply orderly_bind; [apply calm_of_quiet, quiet_ensure_department_not_all|]. intros _.
  apply orderly_bind; [apply calm_of_quiet, until_quiet, quiet_visibility|]. intros _.
  apply orderly_bind; [apply calm_of_quiet, until_quiet, quiet_clickable|]. intros _.
  apply orderly_bind; [apply calm_click|]. intros _.
  apply orderly_bind; [apply calm_of_quiet, until_quiet, quiet_visibility|]. intros c.
  apply orderly_bind; [apply calm_of_quiet, until_quiet, quiet_find_elements|]. intros _.
  apply orderly_bind; [apply calm_of_quiet, until_quiet, quiet_visibility_any|]. intros _.
  apply orderly_bind; [apply calm_of_quiet, until_quiet, quiet_find_element|]. intros target.
  apply orderly_bind; [apply calm_of_quiet, until_quiet, quiet_clickable|]. intros _.
  apply filter_tail_orderly.
Qed.

Lemma filter_by_department_orderly department :
  orderly_method (filter_by_department department).
Proof.
  unfold filter_by_department.
  apply orderly_bind; [apply calm_click|]. intros _.
  apply orderly_bind; [apply calm_of_quiet, until_quiet, quiet_visibility|]. intros c.
  apply orderly_bind; [apply calm_of_quiet, until_quiet, quiet_find_elements|]. intros _.
  apply orderly_bind; [apply calm_of_quiet, until_quiet, quiet_find_element|]. intros target.
  apply filter_tail_orderly.
Qed.

(** *** The filters always end *)

Lemma total_ret {V : Type} (v : V) : total_method (@ret World V v).
Proof. intros w. discriminate. Qed.

Lemma total_raise {V : Type} (e : exn) : total_method (@raise World V e).
Proof. intros w. discriminate. Qed.

Lemma total_bind {A B : Type} (m : M World A) (k : A -> M World B) :
  total_method m -> (forall a, total_method (k a)) -> total_method (bind m k).
Proof.
  intros Hm Hk w. unfold bind. specialize (Hm w).
  destruct (m w) as [a w1|e w1|]; [apply Hk|discriminate|congruence].
Qed.

Lemma total_emit ev : total_method (emit ev).
Proof. intros w. discriminate. Qed.

Lemma total_visibility locator : total_method (visibility_of_element_located locator).
Proof. apply total_bind; [apply total_find_element|intros; apply total_ret]. Qed.

Lemma total_visibility_any locator :
  total_method (visibility_of_any_elements_located locator).
Proof. apply total_bind; [apply total_find_elements|intros; apply total_ret]. Qed.

Lemma total_clickable locator : total_method (element_to_be_clickable locator).
Proof. apply total_bind; [apply total_find_element|intros; apply total_ret]. Qed.

Lemma total_click locator timeout : total_method (click locator timeout).
Proof.
  apply total_bind; [apply until_total; [apply quiet_clickable|apply total_clickable]|].
  intros [e|]; [apply total_emit|apply total_raise].
Qed.

Lemma total_execute_script script args : total_method (execute_script script args).
Proof.
  destruct script; destruct args as [|[e|z| |] [|[e'|z'| |] rest]];
    cbn [execute_script]; intros w; discriminate.
Qed.

Lemma total_ensure_department_not_all timeout :
  total_method (_ensure_department_not_all timeout).
Proof.
  intros w Hd.
  destruct (ensure_department_not_all_trace timeout w) as (obs & v & _ & _ & Hout & _).
  rewrite Hd in Hout. destruct v; contradiction.
Qed.

Lemma total_wait_for_jobs_stable ed el msc :
  total_method (_wait_for_jobs_stable ed el msc).
Proof.
  intros w. destruct (wait_for_jobs_stable_trace ed el msc w) as (b & w' & obs & -> & _).
  discriminate.
Qed.

Lemma filters_total :
  (forall location ed, total_method (filter_by_location location ed))
  /\ (forall department, total_method (filter_by_department department)).
Proof.
  split; intros; unfold filter_by_location, filter_by_department;
    repeat first
      [ apply total_ret
      | apply total_ensure_department_not_all
      | apply total_wait_for_jobs_stable
      | apply total_click
      | apply total_execute_script
      | apply until_total;
        first [ apply quiet_visibility | apply quiet_clickable
              | apply quiet_find_elements | apply quiet_find_element
              | apply quiet_visibility_any
              | apply total_visibility | apply total_clickable
              | apply total_find_elements | apply total_find_element
              | apply total_visibility_any ]
      | apply total_bind; [|intro] ].
Qed.



(** C6. [filter_by_location] begins with the gate (timeout 10 s): either
    the gate returned [True] first, or the filter raises without having
    acted on the page at all.  [filter_by_department] has no such call: on
    a page whose department control shows "× All" throughout, it clicks
    the department control at once and activates the option, the only
    reading of the control in the whole run showing "× All", and returns
    normally; [filter_by_location] on the same page gives up after 10 s
    without any action. *)
Theorem filter_by_department_skips_gate :
  (forall (location : string) (expected_department : option string) (w : World),
      (exists w1, _ensure_department_not_all 10 w = Ok true w1)
      \/ (exists e w1 news,
             filter_by_location location expected_department w = Raise e w1
             /\ step_to w w1 news /\ quiet news))
  /\ (let w := session (careers_site "× All") in
      let out := filter_by_department "Quality Assurance" w in
      result_of out = Some (inl tt)
      /\ interactions (w_log (final_world out w)) =
           [(0, "click", 1%nat); (0, "scrollTop", 3%nat);
            (0, "mousedown", 11%nat); (0, "mouseup", 11%nat);
            (0, "script click", 11%nat)]
      /\ department_readings (w_log (final_world out w)) = [(0, inl "× All")]
      /\ reading_ready (inl "× All") = false)
  /\ (let w := session (careers_site "× All") in
      let out := filter_by_location "Istanbul, Turkiye" (Some "Quality Assurance") w in
      result_of out = Some (inr (Exception (DepartmentStillAll 10000 (Some "× All"))))
      /\ interactions (w_log (final_world out w)) = []).
Proof.
  split; [|split; vm_compute; repeat split; reflexivity].
  intros location ed w.
  destruct (ensure_department_not_all_trace 10 w) as (obs & v & _ & _ & Hout & _).
  pose proof (quiet_ensure_department_not_all 10 w) as Hq.
  unfold filter_by_location, bind at 1.
  destruct (_ensure_department_not_all 10 w) as [b w1|e w1|].
  - left. exists w1. destruct v; cbn in Hout; try contradiction. now subst b.
  - right. destruct Hq as (news & Hs & Hn). exists e, w1, news. auto.
  - destruct v; contradiction.
Qed.

(** * The rest of the page objects *)

(** ** The retry decorator over a browser session *)

Section RetrySession.
Context {A : Type}.
Variable func : M World A.
Hypothesis func_quiet : quiet_method func.

Lemma wrapper_attempts_quiet attempts max_attempts :
  quiet_method (wrapper_attempts attempts max_attempts func).
Proof.
  induction attempts as [|attempt rest IH]; intros w; cbn [wrapper_attempts].
  - exists []. auto with frames.
  - pose proof (func_quiet w) as Hf.
    destruct (func w) as [v w1|e w1|]; [exact Hf| |exact I].
    destruct (is_stale e); [|exact Hf].
    destruct (attempt =? max_attempts - 1); [exact Hf|].
    destruct Hf as (n1 & Hs1 & Hq1). specialize (IH (sleep 500 w1)).
    destruct (wrapper_attempts rest max_attempts func (sleep 500 w1))
      as [r w2|x w2|]; [| |exact I]; destruct IH as (n2 & Hs2 & Hq2);
      exists (n1 ++ n2); (split; [|now apply quiet_app]);
      (eapply step_to_trans; [|exact Hs2]);
      rewrite <- (app_nil_r n1); (eapply step_to_trans; [exact Hs1|]);
      apply step_to_sleep; lia.
Qed.

(** What the wrapper answers was answered by one of the invocations. *)
Lemma wrapper_attempts_inv attempts max_attempts :
  forall w,
    match wrapper_attempts attempts max_attempts func w with
    | Ok r w' =>
        (r = None /\ ~ In (max_attempts - 1) attempts)
        \/ exists v w0 n0,
             r = Some v /\ step_to w w0 n0 /\ quiet n0 /\ func w0 = Ok v w'
    | Raise e w' =>
        exists w0 n0, step_to w w0 n0 /\ quiet n0 /\ func w0 = Raise e w'
    | Diverge => True
    end.
Proof.
  induction attempts as [|attempt rest IH]; intros w; cbn [wrapper_attempts].
  - left. split; [reflexivity|intros []].
  - pose proof (func_quiet w) as Hf.
    destruct (func w) as [v w1|e w1|] eqn:Hfw; [| |exact I].
    + right. exists v, w, []. auto with frames.
    + destruct (is_stale e); [|exists w, []; auto with frames].
      destruct (Z.eqb_spec attempt (max_attempts - 1)) as [Heq|Hne];
        [exists w, []; auto with frames|].
      destruct Hf as (n1 & Hs1 & Hq1).
      assert (Hs : step_to w (sleep 500 w1) n1).
      { rewrite <- (app_nil_r n1). eapply step_to_trans; [exact Hs1|].
        apply step_to_sleep. lia. }
      specialize (IH (sleep 500 w1)).
      destruct (wrapper_attempts rest max_attempts func (sleep 500 w1))
        as [r w2|x w2|]; [| |exact I].
      * destruct IH as [[-> Hnot]|(v & w0 & n0 & -> & Hs0 & Hq0 & Hf0)].
        -- left. split; [reflexivity|]. intros [H|H]; [congruence|auto].
        -- right. exists v, w0, (n1 ++ n0). split; [reflexivity|].
           split; [eapply step_to_trans; eassumption|]. auto with frames.
      * destruct IH as (w0 & n0 & Hs0 & Hq0 & Hf0).
        exists w0, (n1 ++ n0).
        split; [eapply step_to_trans; eassumption|]. auto with frames.
Qed.

Lemma retry_three_inv w :
  match retry_on_stale_element 3 func w with
  | Ok r w' =>
      exists v w0 n0,
        r = Some v /\ step_to w w0 n0 /\ quiet n0 /\ func w0 = Ok v w'
  | Raise e w' =>
      exists w0 n0, step_to w w0 n0 /\ quiet n0 /\ func w0 = Raise e w'
  | Diverge => True
  end.
Proof.
  pose proof (wrapper_attempts_inv (range 3) 3 w) as H.
  unfold retry_on_stale_element.
  destruct (wrapper_attempts (range 3) 3 func w) as [r w'|e w'|]; auto.
  destruct H as [[_ Hnot]|H]; [|exact H].
  exfalso. apply Hnot. right. right. left. reflexivity.
Qed.

Hypothesis func_total : total_method func.

Lemma wrapper_attempts_total attempts max_attempts :
  total_method (wrapper_attempts attempts max_attempts func).
Proof.
  induction attempts as [|attempt rest IH]; intros w; cbn [wrapper_attempts];
    [discriminate|].
  pose proof (func_total w) as Hf.
  destruct (func w) as [v w1|e w1|]; [discriminate| |congruence].
  destruct (is_stale e); [|discriminate].
  destruct (attempt =? max_attempts - 1); [discriminate|apply IH].
Qed.

End RetrySession.

Lemma wrapper_attempts_ext {S A : Type} `{Clock S} (f g : M S A) :
  (forall s, f s = g s) ->
  forall attempts max_attempts s,
    wrapper_attempts attempts max_attempts f s =
    wrapper_attempts attempts max_attempts g s.
Proof.
  intros Hfg. induction attempts as [|attempt rest IH]; intros max_attempts s;
    cbn [wrapper_attempts]; [reflexivity|].
  rewrite Hfg. destruct (g s) as [v s1|e s1|]; try reflexivity.
  destruct (is_stale e); [|reflexivity].
  destruct (attempt =? max_attempts - 1); [reflexivity|apply IH].
Qed.

(** A wait whose condition holds at once returns at once. *)
Lemma until_first {V : Type} `{Truthy V} (method : M World V) timeout w v w1 :
  method w = Ok v w1 -> truthy v = true -> until timeout method w = Ok v w1.
Proof.
  intros Hm Hv. unfold until. cbn [until_loop]. now rewrite Hm, Hv.
Qed.

(** ** [get_all_jobs] *)

Lemma quiet_get_all_jobs : quiet_method get_all_jobs.
Proof.
  apply quiet_bind; [apply until_quiet, quiet_find_elements|].
  intros _. apply until_quiet, quiet_find_elements.
Qed.

Lemma total_get_all_jobs : total_method get_all_jobs.
Proof.
  apply total_bind;
    [apply until_total; [apply quiet_find_elements|apply total_find_elements]|].
  intros _. apply until_total; [apply quiet_find_elements|apply total_find_elements].
Qed.

Lemma until_find_elements_spec locator timeout w :
  match until timeout (driver_find_elements locator) w with
  | Ok found w' =>
      found <> [] /\ found = find_all (w_page w (time w')) locator
      /\ time w <= time w' /\ w_page w' = w_page w
  | Raise e w' =>
      e = TimeoutException (Text "") /\ time w + 1000 * timeout < time w'
      /\ w_page w' = w_page w
  | Diverge => False
  end.
Proof.
  pose proof (until_total _ (quiet_find_elements locator)
                          (total_find_elements locator) timeout w) as Htot.
  pose proof (until_quiet _ (quiet_find_elements locator) timeout w) as Hq.
  destruct (until timeout (driver_find_elements locator) w) as [l w'|x w'|] eqn:Hrun;
    [| |congruence]; destruct Hq as (news & (Ht & Hp & _) & _).
  - apply (until_ok _ (quiet_find_elements locator)) in Hrun.
    destruct Hrun as (Hv & w0 & n0 & (_ & Hp0 & _) & _ & Hm).
    rewrite driver_find_elements_eq in Hm. injection Hm as <- <-.
    split; [intros Hnil; rewrite Hnil in Hv; discriminate|].
    split; [unfold lookup_answer; now rewrite Hp0|auto].
  - apply (until_raise _) in Hrun. destruct Hrun as [[-> Hlt]|(_ & w0 & Hm)]; [auto|].
    rewrite driver_find_elements_eq in Hm. discriminate.
Qed.

Lemma get_all_jobs_spec (w : World) :
  match get_all_jobs w with
  | Ok jobs w' =>
      jobs <> [] /\ jobs = find_all (w_page w (time w')) JOB_ITEMS
      /\ time w <= time w'
  | Raise e w' =>
      e = TimeoutException (Text "") /\ time w + 15000 < time w'
  | Diverge => False
  end.
Proof.
  unfold get_all_jobs, bind, find_elements, presence_of_all_elements_located.
  pose proof (until_find_elements_spec JOB_ITEMS PAGE_WAIT w) as H1.
  destruct (until PAGE_WAIT (driver_find_elements JOB_ITEMS) w) as [l w1|x w1|];
    [| |contradiction].
  - destruct H1 as (_ & _ & Ht1 & Hp1).
    pose proof (until_find_elements_spec JOB_ITEMS 15 w1) as H2.
    destruct (until 15 (driver_find_elements JOB_ITEMS) w1) as [l2 w2|x w2|];
      [| |contradiction].
    + destruct H2 as (Hne & Hl & Ht2 & _). rewrite Hp1 in Hl.
      repeat split; auto; lia.
    + destruct H2 as (-> & Ht2 & _). split; [reflexivity|lia].
  - destruct H1 as (-> & Ht1 & _). unfold PAGE_WAIT in Ht1. split; [reflexivity|lia].
Qed.

(** X1. [get_all_jobs] always ends; it never returns an empty list: what
    it returns is the non-empty list of the cards the page holds at the
    instant of the return; and when it fails, it fails with selenium's
    [TimeoutException], more than 15 s after the call. *)
Theorem get_all_jobs_never_empty (w : World) :
  match get_all_jobs w with
  | Ok jobs w' =>
      jobs <> [] /\ jobs = find_all (w_page w (time w')) JOB_ITEMS
      /\ time w <= time w'
  | Raise e w' =>
      e = TimeoutException (Text "") /\ time w + 15000 < time w'
  | Diverge => False
  end.
Proof. exact (get_all_jobs_spec w). Qed.

(** ** The text getters of a job card *)

Lemma quiet_read_card_or_first field job :
  quiet_method (read_card_or_first field job).
Proof.
  intros w. unfold read_card_or_first.
  destruct (child_text job field) as [t|e]; [exists []; auto with frames|].
  destruct (is_stale e); [|exists []; auto with frames].
  apply (quiet_bind get_all_jobs); [apply quiet_get_all_jobs|].
  intros [|first rest]; [apply quiet_ret|apply quiet_answer].
Qed.

Lemma total_read_card_or_first field job :
  total_method (read_card_or_first field job).
Proof.
  intros w. unfold read_card_or_first.
  destruct (child_text job field) as [t|e]; [discriminate|].
  destruct (is_stale e); [|discriminate].
  apply (total_bind get_all_jobs); [apply total_get_all_jobs|].
  intros [|first rest] w1; [discriminate|].
  unfold answer. destruct (child_text first field); discriminate.
Qed.

(** On a stale handle the body answers with the first card's text. *)
Lemma read_card_or_first_stale field job m w t w' :
  child_text job field = inr (StaleElementReferenceException m) ->
  read_card_or_first field job w = Ok t w' ->
  exists first rest,
    find_all (w_page w (time w')) JOB_ITEMS = first :: rest
    /\ child_text first field = inl t /\ time w <= time w'.
Proof.
  intros Hjob. unfold read_card_or_first, bind. rewrite Hjob. cbn [is_stale].
  pose proof (get_all_jobs_spec w) as Hall.
  destruct (get_all_jobs w) as [jobs w1|e w1|]; [|discriminate|discriminate].
  destruct Hall as (Hne & Hjobs & Ht).
  destruct jobs as [|first rest]; [now elim Hne|].
  unfold answer. destruct (child_text first field) as [t'|e] eqn:Hfirst;
    [|discriminate].
  intros [= <- <-]. exists first, rest. auto.
Qed.

Lemma job_text_getter_eq getter field :
  In (getter, field) job_text_getters ->
  forall job, getter job = retry_on_stale_element 3 (read_card_or_first field job).
Proof.
  intros [H|[H|[H|[]]]]; injection H as <- <-; reflexivity.
Qed.

(** X2. A text getter given a stale card handle does not depend on which
    card that handle stood for: on any two stale handles it gives the same
    outcome, and every text it returns is the text of the first card of the
    list the page held at some instant during the call.  It never returns
    the empty string of the no-card branch. *)
Theorem get_job_text_stale_reads_first_card
        (getter : WebElement -> M World (option string)) (field : Locator)
        (job : WebElement) (m : message) (w : World) :
  In (getter, field) job_text_getters ->
  child_text job field = inr (StaleElementReferenceException m) ->
  (forall job' m',
      child_text job' field = inr (StaleElementReferenceException m') ->
      getter job' w = getter job w)
  /\ match getter job w with
     | Ok r w' =>
         exists t first rest t0,
           r = Some t /\ time w <= t0 <= time w'
           /\ find_all (w_page w t0) JOB_ITEMS = first :: rest
           /\ child_text first field = inl t
     | Raise _ _ => True
     | Diverge => False
     end.
Proof.
  intros Hin Hjob. rewrite !(job_text_getter_eq _ _ Hin). split.
  - intros job' m' Hjob'. rewrite (job_text_getter_eq _ _ Hin).
    apply wrapper_attempts_ext. intros s. unfold read_card_or_first.
    now rewrite Hjob, Hjob'.
  - pose proof (retry_three_inv _ (quiet_read_card_or_first field job) w) as Hinv.
    pose proof (wrapper_attempts_total _ (total_read_card_or_first field job)
                                       (range 3) 3 w) as Htot.
    unfold retry_on_stale_element in *.
    destruct (wrapper_attempts (range 3) 3 (read_card_or_first field job) w)
      as [r w'|e w'|]; [|exact I|congruence].
    destruct Hinv as (t & w0 & n0 & -> & (Ht0 & Hp0 & _) & _ & Hrun).
    destruct (read_card_or_first_stale _ _ _ _ _ _ Hjob Hrun)
      as (first & rest & Hfind & Hfirst & Ht).
    exists t, first, rest, (time w'). rewrite <- Hp0.
    repeat split; auto; lia.
Qed.

(** X2 on the rendered open-positions page, for the department of a stale
    handle. *)
Lemma get_job_text_stale_reads_first_card_witness :
  (forall job' m',
      child_text job' JOB_DEPARTMENT = inr (StaleElementReferenceException m') ->
      get_job_department job' (session (careers_site "Quality Assurance")) =
      get_job_department (stale_card 7) (session (careers_site "Quality Assurance")))
  /\ match get_job_department (stale_card 7)
                              (session (careers_site "Quality Assurance")) with
     | Ok r w' =>
         exists t first rest t0,
           r = Some t /\ 0 <= t0 <= time w'
           /\ find_all (careers_site "Quality Assurance" t0) JOB_ITEMS = first :: rest
           /\ child_text first JOB_DEPARTMENT = inl t
     | Raise _ _ => True
     | Diverge => False
     end.
Proof.
  apply (get_job_text_stale_reads_first_card
           get_job_department JOB_DEPARTMENT (stale_card 7) (Text "stale")
           (session (careers_site "Quality Assurance"))).
  - right. left. reflexivity.
  - reflexivity.
Defined.



(** One round on a stale handle while the first card of the page is stale
    too: two lookups of the cards, then the stale failure of that card. *)
Lemma read_card_or_first_stale_round field job m w :
  child_text job field = inr (StaleElementReferenceException m) ->
  (forall t, time w <= t ->
     exists first rest m',
       find_all (w_page w t) JOB_ITEMS = first :: rest
       /\ child_text first field = inr (StaleElementReferenceException m')) ->
  exists m' w2 o1 o2,
    read_card_or_first field job w = Raise (StaleElementReferenceException m') w2
    /\ step_to w w2 [lookup_entry JOB_ITEMS o1; lookup_entry JOB_ITEMS o2].
Proof.
  intros Hjob Hpage.
  set (w1 := after_lookup JOB_ITEMS w). set (w2 := after_lookup JOB_ITEMS w1).
  pose proof (after_lookup_time JOB_ITEMS w) as Ht1. fold w1 in Ht1.
  pose proof (after_lookup_time JOB_ITEMS w1) as Ht2. fold w2 in Ht2.
  destruct (Hpage (time w1) Ht1) as (f1 & r1 & _ & Hf1 & _).
  assert (Ht12 : time w <= time w2) by (unfold w2, w1 in *; cbn in *; lia).
  destruct (Hpage (time w2) Ht12) as (f2 & r2 & m2 & Hf2 & Hs2).
  assert (Hu1 : until PAGE_WAIT (presence_of_all_elements_located JOB_ITEMS) w =
                Ok (f1 :: r1) w1).
  { apply until_first; [|reflexivity].
    unfold presence_of_all_elements_located. rewrite driver_find_elements_eq.
    unfold lookup_answer. fold w1. change (w_time w + _) with (time w1).
    now rewrite Hf1. }
  assert (Hu2 : find_elements JOB_ITEMS 15 w1 = Ok (f2 :: r2) w2).
  { apply until_first; [|reflexivity].
    unfold presence_of_all_elements_located. rewrite driver_find_elements_eq.
    unfold lookup_answer. change (w_time w1 + _) with (time w2).
    change (w_page w1) with (w_page w). now rewrite Hf2. }
  exists m2, w2, (time w1, f1 :: r1), (time w2, f2 :: r2). split.
  - unfold read_card_or_first, get_all_jobs, bind. rewrite Hjob. cbn [is_stale].
    rewrite Hu1, Hu2. unfold answer. now rewrite Hs2.
  - apply (step_to_trans w w1 w2 [_] [_]).
    + unfold lookup_entry. cbn [fst snd]. rewrite <- Hf1.
      apply step_to_lookup.
    + unfold lookup_entry. cbn [fst snd]. rewrite <- Hf2.
      change (w_page w) with (w_page w1). apply step_to_lookup.
Qed.

(** X4. When the handle is stale and the first card of every fresh list is
    stale as well, a text getter gives up with
    [StaleElementReferenceException] after exactly three rounds: six
    lookups of the cards in all (two per re-fetch) and the two back-off
    sleeps between the rounds.  The fallback inside the getter does not add
    attempts to the three of the decorator. *)
Theorem get_job_text_gives_up_after_three_rounds
        (getter : WebElement -> M World (option string)) (field : Locator)
        (job : WebElement) (m : message) (w : World) :
  In (getter, field) job_text_getters ->
  child_text job field = inr (StaleElementReferenceException m) ->
  (forall t, time w <= t ->
     exists first rest m',
       find_all (w_page w t) JOB_ITEMS = first :: rest
       /\ child_text first field = inr (StaleElementReferenceException m')) ->
  exists m' w' obs,
    getter job w = Raise (StaleElementReferenceException m') w'
    /\ w_log w' = w_log w ++ map (lookup_entry JOB_ITEMS) obs
    /\ List.length obs = 6%nat
    /\ time w + 1000 <= time w'.
Proof.
  intros Hin Hjob Hpage. rewrite (job_text_getter_eq _ _ Hin).
  destruct (read_card_or_first_stale_round _ _ _ _ Hjob Hpage)
    as (m1 & wa & a1 & a2 & Ha & Sa).
  assert (Hpage_b : forall t, time (sleep 500 wa) <= t ->
            exists first rest m',
              find_all (w_page (sleep 500 wa) t) JOB_ITEMS = first :: rest
              /\ child_text first field = inr (StaleElementReferenceException m')).
  { intros t Ht. destruct Sa as (T & P & _).
    change (w_page (sleep 500 wa)) with (w_page wa). rewrite P.
    apply Hpage. change (time (sleep 500 wa)) with (time wa + 500) in Ht. lia. }
  destruct (read_card_or_first_stale_round _ _ _ _ Hjob Hpage_b)
    as (m2 & wb & b1 & b2 & Hb & Sb).
  assert (Hpage_c : forall t, time (sleep 500 wb) <= t ->
            exists first rest m',
              find_all (w_page (sleep 500 wb) t) JOB_ITEMS = first :: rest
              /\ child_text first field = inr (StaleElementReferenceException m')).
  { intros t Ht. destruct Sb as (T & P & _).
    change (w_page (sleep 500 wb)) with (w_page wb). rewrite P.
    apply Hpage_b. change (time (sleep 500 wb)) with (time wb + 500) in Ht. lia. }
  destruct (read_card_or_first_stale_round _ _ _ _ Hjob Hpage_c)
    as (m3 & wc & c1 & c2 & Hc & Sc).
  assert (Hrun : stale_run (read_card_or_first field job) 2 w (sleep 500 wb)).
  { eapply stale_run_S; [exact Ha|]. eapply stale_run_S; [exact Hb|].
    apply stale_run_O. }
  exists m3, wc, [a1; a2; b1; b2; c1; c2].
  split; [|split; [|split; [reflexivity|]]].
  - rewrite (retry_after_stale_run _ 3 2 _ _ Hrun) by lia.
    cbn [wrapper_attempts]. rewrite Hc. reflexivity.
  - destruct Sa as (_ & _ & _ & La). destruct Sb as (_ & _ & _ & Lb).
    destruct Sc as (_ & _ & _ & Lc).
    rewrite Lc. change (w_log (sleep 500 wb)) with (w_log wb).
    rewrite Lb. change (w_log (sleep 500 wa)) with (w_log wa).
    rewrite La. cbn [map]. rewrite <- !app_assoc. reflexivity.
  - destruct Sa as (Ta & _). destruct Sb as (Tb & _). destruct Sc as (Tc & _).
    change (time (sleep 500 wa)) with (time wa + 500) in Tb.
    change (time (sleep 500 wb)) with (time wb + 500) in Tc. lia.
Qed.

(** X4 on a page whose cards are stale whenever they are read. *)
Lemma get_job_text_gives_up_after_three_rounds_witness :
  exists m' w' obs,
    get_job_location (stale_card 7) (session churning_site) =
    Raise (StaleElementReferenceException m') w'
    /\ w_log w' = w_log (session churning_site) ++ map (lookup_entry JOB_ITEMS) obs
    /\ List.length obs = 6%nat
    /\ time (session churning_site) + 1000 <= time w'.
Proof.
  apply (get_job_text_gives_up_after_three_rounds
           get_job_location JOB_LOCATION (stale_card 7) (Text "stale")
           (session churning_site)).
  - right. right. left. reflexivity.
  - reflexivity.
  - intros t _. exists (stale_card 0), [stale_card 1], (Text "stale").
    split; reflexivity.
Defined.

(** ** [verify_job_details] *)

Lemma get_job_text_fresh field job t w :
  child_text job field = inl t ->
  retry_on_stale_element 3 (read_card_or_first field job) w = Ok (Some t) w.
Proof.
  intros Hjob.
  rewrite (retry_after_stale_run _ 3 0 w w (stale_run_O _ w)) by lia.
  cbn [wrapper_attempts]. unfold read_card_or_first. now rewrite Hjob.
Qed.

Lemma verify_job_details_fresh_eq job ep ed el p d l w :
  child_text job JOB_POSITION = inl p ->
  child_text job JOB_DEPARTMENT = inl d ->
  child_text job JOB_LOCATION = inl l ->
  verify_job_details job ep ed el w =
  Ok (str_in ep p && str_in ed d && str_in el l) w.
Proof.
  intros Hp Hd Hl.
  unfold verify_job_details, get_job_position, get_job_department,
    get_job_location, bind.
  rewrite (get_job_text_fresh _ _ _ _ Hp), (get_job_text_fresh _ _ _ _ Hd),
    (get_job_text_fresh _ _ _ _ Hl).
  reflexivity.
Qed.

(** X5. On a card whose three texts can be read, [verify_job_details]
    returns, and it returns [True] exactly when the position text contains
    the expected position, the department text the expected department and
    the location text the expected location, each as a substring. *)
Theorem verify_job_details_fresh
        (job : WebElement) (ep ed el p d l : string) (w : World) :
  child_text job JOB_POSITION = inl p ->
  child_text job JOB_DEPARTMENT = inl d ->
  child_text job JOB_LOCATION = inl l ->
  exists b w',
    verify_job_details job ep ed el w = Ok b w'
    /\ (b = true <->
        (exists a c, p = (a ++ ep ++ c)%string)
        /\ (exists a c, d = (a ++ ed ++ c)%string)
        /\ (exists a c, l = (a ++ el ++ c)%string)).
Proof.
  intros Hp Hd Hl. eexists _, w. split.
  - apply verify_job_details_fresh_eq; eassumption.
  - rewrite !andb_true_iff, !str_in_substring. tauto.
Qed.

(** X5 on a Quality Assurance card in Istanbul. *)
Lemma verify_job_details_fresh_witness :
  exists b w',
    verify_job_details
      (full_card 0 "Senior Quality Assurance Engineer" "Quality Assurance"
                 "Istanbul, Turkiye")
      "Quality Assurance" "Quality Assurance" "Istanbul, Turkiye"
      (session steady_site)
    = Ok b w'
    /\ (b = true <->
        (exists a c, "Senior Quality Assurance Engineer"
                     = (a ++ "Quality Assurance" ++ c)%string)
        /\ (exists a c, "Quality Assurance" = (a ++ "Quality Assurance" ++ c)%string)
        /\ (exists a c, "Istanbul, Turkiye" = (a ++ "Istanbul, Turkiye" ++ c)%string)).
Proof.
  apply (verify_job_details_fresh
           (full_card 0 "Senior Quality Assurance Engineer" "Quality Assurance"
                      "Istanbul, Turkiye")
           "Quality Assurance" "Quality Assurance" "Istanbul, Turkiye"
           "Senior Quality Assurance Engineer" "Quality Assurance"
           "Istanbul, Turkiye" (session steady_site));
    reflexivity.
Defined.



(** ** Visibility checks *)

(** The wait for visibility returns the first element under the locator,
    displayed at the instant the wait ends, and fails by its timeout only. *)
Lemma until_visibility_spec timeout locator w :
  match until timeout (visibility_of_element_located locator) w with
  | Ok v w' =>
      exists news e rest,
        v = Some e /\ step_to w w' news /\ quiet news
        /\ find_all (w_page w (time w')) locator = e :: rest
        /\ is_displayed e = true
  | Raise x w' =>
      exists news,
        x = TimeoutException (Text "") /\ step_to w w' news /\ quiet news
        /\ time w + 1000 * timeout < time w'
  | Diverge => False
  end.
Proof.
  pose proof (until_total _ (quiet_visibility locator)
                          (total_visibility locator) timeout w) as Htot.
  pose proof (until_quiet _ (quiet_visibility locator) timeout w) as Hq.
  destruct (until timeout (visibility_of_element_located locator) w)
    as [v w'|x w'|] eqn:Hrun; [| |congruence]; destruct Hq as (news & Hs & Hn).
  - apply (until_ok _ (quiet_visibility locator)) in Hrun.
    destruct Hrun as (Hv & w0 & n0 & (_ & Hp0 & _) & _ & Hm).
    unfold visibility_of_element_located in Hm. apply bind_ok in Hm.
    destruct Hm as (e & w1 & Hfind & Hret).
    apply driver_find_element_ok in Hfind. destruct Hfind as (-> & rest & Hf).
    injection Hret as <- <-.
    destruct (is_displayed e) eqn:Hd; [|discriminate].
    exists news, e, rest. rewrite <- Hp0. auto 10.
  - apply (until_raise _) in Hrun. destruct Hrun as [[-> Hlt]|(Hne & w0 & Hm)].
    + exists news. auto.
    + exfalso. unfold visibility_of_element_located, bind in Hm.
      destruct (driver_find_element locator w0) as [e w1|y w1|] eqn:Hfind;
        try discriminate.
      injection Hm as <- <-. apply driver_find_element_raise in Hfind. congruence.
Qed.

Lemma element_is_displayed_step displayed_again e w :
  exists w',
    step_to w w' []
    /\ element_is_displayed displayed_again e w =
       match displayed_again (time w') e with
       | inl b => Ok b w'
       | inr x => Raise x w'
       end.
Proof.
  exists {| w_time := w_time w + Z.of_N (w_latency w (w_time w));
            w_page := w_page w; w_latency := w_latency w; w_log := w_log w |}.
  split; [|reflexivity].
  unfold step_to. cbn. rewrite app_nil_r. repeat split; lia.
Qed.

Lemma BasePage_is_displayed_spec displayed_again locator timeout w :
  match BasePage_is_displayed displayed_again locator timeout w with
  | Ok b w' =>
      exists news,
        step_to w w' news /\ quiet news
        /\ ((b = false /\ time w + 1000 * timeout < time w')
            \/ exists t e rest,
                 time w <= t <= time w'
                 /\ find_all (w_page w t) locator = e :: rest
                 /\ is_displayed e = true
                 /\ match displayed_again (time w') e with
                    | inl answer => b = answer
                    | inr (TimeoutException _) => b = false
                    | inr (NoSuchElementException _) => b = false
                    | inr _ => False
                    end)
  | Raise x w' =>
      exists news t e rest,
        step_to w w' news /\ quiet news
        /\ time w <= t <= time w'
        /\ find_all (w_page w t) locator = e :: rest
        /\ is_displayed e = true
        /\ displayed_again (time w') e = inr x
        /\ (forall m, x <> TimeoutException m)
        /\ (forall m, x <> NoSuchElementException m)
  | Diverge => False
  end.
Proof.
  unfold BasePage_is_displayed, bind.
  pose proof (until_visibility_spec timeout locator w) as H.
  destruct (until timeout (visibility_of_element_located locator) w)
    as [v w1|x w1|]; [| |contradiction].
  - destruct H as (news & e & rest & -> & Hs & Hq & Hf & Hd).
    destruct (element_is_displayed_step displayed_again e w1) as (w2 & Hs2 & ->).
    pose proof (step_to_trans _ _ _ _ _ Hs Hs2) as Hs12.
    rewrite app_nil_r in Hs12.
    assert (Ht : time w <= time w1 <= time w2)
      by (destruct Hs as (? & _), Hs2 as (? & _); lia).
    destruct (displayed_again (time w2) e) as [b|[m|m|m|m]] eqn:Hda.
    + exists news. split; [exact Hs12|]. split; [exact Hq|]. right.
      exists (time w1), e, rest. rewrite Hda. auto.
    + exists news, (time w1), e, rest.
      split; [exact Hs12|]. split; [exact Hq|]. split; [exact Ht|].
      split; [exact Hf|]. split; [exact Hd|]. split; [exact Hda|].
      split; intros m0; discriminate.
    + exists news. split; [exact Hs12|]. split; [exact Hq|]. right.
      exists (time w1), e, rest. rewrite Hda. auto.
    + exists news. split; [exact Hs12|]. split; [exact Hq|]. right.
      exists (time w1), e, rest. rewrite Hda. auto.
    + exists news, (time w1), e, rest.
      split; [exact Hs12|]. split; [exact Hq|]. split; [exact Ht|].
      split; [exact Hf|]. split; [exact Hd|]. split; [exact Hda|].
      split; intros m0; discriminate.
  - destruct H as (news & -> & Hs & Hq & Ht). exists news. auto.
Qed.

(** X7. [BasePage.is_displayed] always ends, having only looked the page
    up.  Either its wait timed out, and it returns [False] after the
    timeout; or the wait found the first element under the locator
    displayed, and the outcome is that of asking that element again: its
    answer, [True] or [False], is returned; a [TimeoutException] or a
    [NoSuchElementException] it raises gives [False]; any other exception
    it raises (a stale handle, say) comes out. *)
Theorem BasePage_is_displayed_asks_again
        (displayed_again : Z -> WebElement -> reply bool)
        (locator : Locator) (timeout : Z) (w : World) :
  match BasePage_is_displayed displayed_again locator timeout w with
  | Ok b w' =>
      exists news,
        step_to w w' news /\ quiet news
        /\ ((b = false /\ time w + 1000 * timeout < time w')
            \/ exists t e rest,
                 time w <= t <= time w'
                 /\ find_all (w_page w t) locator = e :: rest
                 /\ is_displayed e = true
                 /\ match displayed_again (time w') e with
                    | inl answer => b = answer
                    | inr (TimeoutException _) => b = false
                    | inr (NoSuchElementException _) => b = false
                    | inr _ => False
                    end)
  | Raise x w' =>
      exists news t e rest,
        step_to w w' news /\ quiet news
        /\ time w <= t <= time w'
        /\ find_all (w_page w t) locator = e :: rest
        /\ is_displayed e = true
        /\ displayed_again (time w') e = inr x
        /\ (forall m, x <> TimeoutException m)
        /\ (forall m, x <> NoSuchElementException m)
  | Diverge => False
  end.
Proof.
  pose proof (BasePage_is_displayed_spec displayed_again locator timeout w) as H.
  destruct (BasePage_is_displayed displayed_again locator timeout w)
    as [b w'|x w'|]; exact H.
Qed.

(** On a page showing four cards: a handle gone stale by the time it is
    asked again makes [BasePage.is_displayed] raise; an answer [False] is
    returned at once; on a page without cards it returns [False] after the
    10 s of the wait, whatever would be answered. *)
Example BasePage_is_displayed_second_call :
  result_of (BasePage_is_displayed
               (fun _ _ => inr (StaleElementReferenceException (Text "stale")))
               JOB_ITEMS 10 (session steady_site))
  = Some (inr (StaleElementReferenceException (Text "stale")))
  /\ BasePage_is_displayed (fun _ _ => inl false) JOB_ITEMS 10 (session steady_site)
     = Ok false (after_lookup JOB_ITEMS (session steady_site))
  /\ (let out := BasePage_is_displayed (fun _ _ => inl true) JOB_ITEMS 10
                                       (session empty_site) in
      result_of out = Some (inl false)
      /\ time (final_world out (session empty_site)) = 10500).
Proof. vm_compute. repeat split; reflexivity. Qed.

(** What the checks of the blocks need of [BasePage.is_displayed]: it
    ends, having only looked the page up; [True] means the element was
    found displayed; an exception is none of the two it turns into
    [False]. *)
Lemma BasePage_is_displayed_found displayed_again locator timeout w :
  match BasePage_is_displayed displayed_again locator timeout w with
  | Ok b w' =>
      (exists news, step_to w w' news /\ quiet news)
      /\ (b = true ->
          exists t e rest,
            time w <= t <= time w'
            /\ find_all (w_page w t) locator = e :: rest
            /\ is_displayed e = true)
  | Raise x w' =>
      (exists news, step_to w w' news /\ quiet news)
      /\ (forall m, x <> TimeoutException m)
      /\ (forall m, x <> NoSuchElementException m)
  | Diverge => False
  end.
Proof.
  pose proof (BasePage_is_displayed_spec displayed_again locator timeout w) as H.
  destruct (BasePage_is_displayed displayed_again locator timeout w)
    as [b w'|x w'|]; [| |exact H].
  - destruct H as (news & Hs & Hq & H). split; [now exists news|].
    intros ->. destruct H as [[[=] _]|(t & e & rest & Ht & Hf & Hd & _)].
    now exists t, e, rest.
  - destruct H as (news & t & e & rest & Hs & Hq & _ & _ & _ & _ & Hx).
    split; [now exists news|exact Hx].
Qed.

(** X8. [verify_all_blocks_displayed] always ends, having only looked the
    page up.  It returns [True] only if the locations block, then the teams
    block, then the life-at-Insider block were each found displayed, at
    successive instants.  It stops at the first check that returns [False]:
    it then returns [False] in the very state that check ended in, without
    looking for the blocks that follow.  An exception that comes out of it
    is neither [TimeoutException] nor [NoSuchElementException]. *)
Theorem verify_all_blocks_displayed_in_order
        (displayed_again : Z -> WebElement -> reply bool) (w : World) :
  match verify_all_blocks_displayed displayed_again w with
  | Ok b w' =>
      (exists news, step_to w w' news /\ quiet news)
      /\ (b = true ->
          exists t1 t2 t3 e1 r1 e2 r2 e3 r3,
            time w <= t1 <= t2 /\ t2 <= t3 <= time w'
            /\ find_all (w_page w t1) LOCATIONS_BLOCK = e1 :: r1
            /\ is_displayed e1 = true
            /\ find_all (w_page w t2) TEAMS_BLOCK = e2 :: r2
            /\ is_displayed e2 = true
            /\ find_all (w_page w t3) LIFE_AT_INSIDER_BLOCK = e3 :: r3
            /\ is_displayed e3 = true)
      /\ (forall w1,
             is_locations_block_displayed displayed_again w = Ok false w1 ->
             b = false /\ w' = w1)
      /\ (forall w1 w2,
             is_locations_block_displayed displayed_again w = Ok true w1 ->
             is_teams_block_displayed displayed_again w1 = Ok false w2 ->
             b = false /\ w' = w2)
  | Raise x w' =>
      (exists news, step_to w w' news /\ quiet news)
      /\ (forall m, x <> TimeoutException m)
      /\ (forall m, x <> NoSuchElementException m)
  | Diverge => False
  end.
Proof.
  unfold verify_all_blocks_displayed, bind, is_locations_block_displayed,
    is_teams_block_displayed, is_life_at_insider_block_displayed.
  pose proof (BasePage_is_displayed_found displayed_again LOCATIONS_BLOCK 10 w) as H1.
  destruct (BasePage_is_displayed displayed_again LOCATIONS_BLOCK 10 w)
    as [b1 w1|x w1|]; [|exact H1|contradiction].
  destruct H1 as ((n1 & S1 & Q1) & H1). destruct b1.
  2:{ unfold ret. split; [now exists n1|]. split; [discriminate|].
      split; [intros w1' [= <-]; auto|intros w1' w2' [=]]. }
  destruct (H1 eq_refl) as (t1 & e1 & r1 & T1 & F1 & D1).
  pose proof (BasePage_is_displayed_found displayed_again TEAMS_BLOCK 10 w1) as H2.
  destruct (BasePage_is_displayed displayed_again TEAMS_BLOCK 10 w1)
    as [b2 w2|x w2|] eqn:E2; [| |contradiction].
  2:{ destruct H2 as ((n2 & S2 & Q2) & Hx). split; [|exact Hx].
      exists (n1 ++ n2). split; [eapply step_to_trans; eassumption|].
      now apply quiet_app. }
  destruct H2 as ((n2 & S2 & Q2) & H2).
  pose proof (step_to_trans _ _ _ _ _ S1 S2) as S12.
  destruct b2.
  2:{ unfold ret. split; [exists (n1 ++ n2); split; [exact S12|now apply quiet_app]|].
      split; [discriminate|].
      split; [intros w1' [=]|].
      intros w1' w2' [= <-] Hrun. rewrite E2 in Hrun. injection Hrun as <-. auto. }
  destruct (H2 eq_refl) as (t2 & e2 & r2 & T2 & F2 & D2).
  pose proof (BasePage_is_displayed_found displayed_again LIFE_AT_INSIDER_BLOCK 10 w2)
    as H3.
  destruct (BasePage_is_displayed displayed_again LIFE_AT_INSIDER_BLOCK 10 w2)
    as [b3 w3|x w3|]; [| |contradiction].
  2:{ destruct H3 as ((n3 & S3 & Q3) & Hx). split; [|exact Hx].
      exists ((n1 ++ n2) ++ n3). split; [eapply step_to_trans; eassumption|].
      apply quiet_app; [now apply quiet_app|exact Q3]. }
  destruct H3 as ((n3 & S3 & Q3) & H3).
  split; [exists ((n1 ++ n2) ++ n3); split;
          [eapply step_to_trans; eassumption
          |apply quiet_app; [now apply quiet_app|exact Q3]]|].
  split; [|split; [intros w1' [=]|]].
  2:{ intros w1' w2' [= <-] Hrun. rewrite E2 in Hrun. discriminate. }
  intros ->. destruct (H3 eq_refl) as (t3 & e3 & r3 & T3 & F3 & D3).
  exists t1, t2, t3, e1, r1, e2, r2, e3, r3.
  destruct S1 as (_ & P1 & _), S2 as (_ & P2 & _).
  rewrite P1 in F2. rewrite P2, P1 in F3.
  repeat split; auto; lia.
Qed.

(** ** Clicks *)

Lemma click_spec locator timeout w :
  match click locator timeout w with
  | Ok _ w' =>
      exists n e rest,
        step_to w w' (n ++ [(time w', NativeClick e)]) /\ quiet n
        /\ find_all (w_page w (time w')) locator = e :: rest
        /\ is_displayed e = true /\ is_enabled e = true
  | Raise x w' =>
      exists n,
        x = TimeoutException (Text "") /\ step_to w w' n /\ quiet n
        /\ time w + 1000 * timeout < time w'
  | Diverge => False
  end.
Proof.
  pose proof (total_click locator timeout w) as Htot.
  unfold click, bind in *.
  pose proof (until_quiet _ (quiet_clickable locator) timeout w) as Hq.
  destruct (until timeout (element_to_be_clickable locator) w) as [v w1|x w1|] eqn:Hrun;
    [| |congruence].
  - apply until_clickable_ok in Hrun.
    destruct Hrun as (n & e & rest & -> & Hs & Hn & Hf & Hd & He).
    exists n, e, rest. cbn [time world_clock w_time emit].
    split; [|auto].
    eapply step_to_trans; [exact Hs|]. now apply (emit_ok _ w1 tt).
  - destruct Hq as (n & Hs & Hn).
    apply (until_raise _) in Hrun. destruct Hrun as [[-> Hlt]|(Hne & w0 & Hm)].
    + exists n. auto.
    + exfalso. unfold element_to_be_clickable, bind in Hm.
      destruct (driver_find_element locator w0) as [e w2|y w2|] eqn:Hfind;
        try discriminate.
      injection Hm as <- <-. apply driver_find_element_raise in Hfind. congruence.
Qed.


(** ** [HomePage.open] *)

Lemma bind_value {S A B : Type} (m : M S A) (k : A -> M S B) s a s1 :
  m s = Ok a s1 -> bind m k s = k a s1.
Proof. intros Hm. unfold bind. now rewrite Hm. Qed.


(** ** Waits on the address *)

Section UrlTests.
Variable test : string -> bool.

Lemma quiet_url_test : quiet_method (url_test test).
Proof. intros w. exists []. cbn. auto with frames. Qed.

Lemma total_url_test : total_method (url_test test).
Proof. intros w. discriminate. Qed.

Lemma until_url_test_spec timeout w :
  match until timeout (url_test test) w with
  | Ok b w' =>
      b = true /\ test (current_url (w_page w (time w'))) = true
      /\ time w <= time w'
  | Raise x w' =>
      x = TimeoutException (Text "") /\ time w + 1000 * timeout < time w'
  | Diverge => False
  end.
Proof.
  pose proof (until_total _ quiet_url_test total_url_test timeout w) as Htot.
  destruct (until timeout (url_test test) w) as [b w'|x w'|] eqn:Hrun; [| |congruence].
  - apply (until_ok _ quiet_url_test) in Hrun.
    destruct Hrun as (Hb & w0 & n0 & (T0 & P0 & _) & _ & Hm).
    cbn in Hm. injection Hm as <- <-. rewrite <- P0.
    split; [exact Hb|]. split; [exact Hb|exact T0].
  - apply (until_raise _) in Hrun. destruct Hrun as [[-> Hlt]|(_ & w0 & Hm)]; [auto|].
    discriminate.
Qed.

End UrlTests.

(** X11. [wait_for_url_contains] never returns [False]: it returns [True]
    when the address shown at the instant of the return contains the
    fragment, and otherwise raises [TimeoutException] once the timeout has
    elapsed. *)
Theorem wait_for_url_contains_true_or_timeout
        (url_fragment : string) (timeout : Z) (w : World) :
  match wait_for_url_contains url_fragment timeout w with
  | Ok b w' =>
      b = true
      /\ (exists a c,
             current_url (w_page w (time w')) = (a ++ url_fragment ++ c)%string)
      /\ time w <= time w'
  | Raise x w' =>
      x = TimeoutException (Text "") /\ time w + 1000 * timeout < time w'
  | Diverge => False
  end.
Proof.
  pose proof (until_url_test_spec (str_in url_fragment) timeout w) as H.
  unfold wait_for_url_contains, url_contains. unfold url_test in H.
  destruct (until timeout _ w) as [b w'|x w'|]; [|exact H|exact H].
  destruct H as (Hb & Hin & Ht). apply str_in_substring in Hin. auto.
Qed.

(** X12. [is_redirected_to_lever] never raises: it returns [True] when the
    lower-cased address shown at the instant of the return contains
    "lever", and [False] only after the 60 s of the wait have elapsed. *)
Theorem is_redirected_to_lever_never_raises
        (lower : string -> string) (w : World) :
  match is_redirected_to_lever lower w with
  | Ok b w' =>
      if b
      then exists a c,
             lower (current_url (w_page w (time w'))) = (a ++ "lever" ++ c)%string
      else time w + 60000 < time w'
  | Raise _ _ => False
  | Diverge => False
  end.
Proof.
  pose proof (until_url_test_spec (fun url => str_in "lever" (lower url))
                                  WAIT_TIME w) as H.
  unfold is_redirected_to_lever. unfold url_test in H.
  destruct (until WAIT_TIME _ w) as [b w'|x w'|]; [| |exact H].
  - destruct H as (_ & Hin & _). now apply str_in_substring in Hin.
  - destruct H as (_ & Ht). unfold WAIT_TIME in Ht. lia.
Qed.

(** ** [get_text] *)

Lemma find_element_spec locator timeout w :
  match find_element locator timeout w with
  | Ok e w' =>
      time w <= time w'
      /\ exists rest, find_all (w_page w (time w')) locator = e :: rest
  | Raise x w' =>
      x = NoSuchElementException (ElementNotFound locator)
      /\ time w + 1000 * timeout < time w'
  | Diverge => False
  end.
Proof.
  unfold find_element, presence_of_element_located.
  pose proof (until_total _ (quiet_find_element locator)
                          (total_find_element locator) timeout w) as Htot.
  destruct (until timeout (driver_find_element locator) w) as [e w'|x w'|] eqn:Hrun;
    [| |congruence].
  - apply (until_ok _ (quiet_find_element locator)) in Hrun.
    destruct Hrun as (_ & w0 & n0 & (Ht0 & Hp0 & _) & _ & Hm).
    apply driver_find_element_ok in Hm. destruct Hm as (-> & rest & Hf).
    pose proof (after_lookup_time locator w0).
    split; [lia|]. exists rest. rewrite <- Hp0. exact Hf.
  - apply (until_raise _) in Hrun. destruct Hrun as [[-> Hlt]|(Hne & w0 & Hm)].
    + auto.
    + apply driver_find_element_raise in Hm. congruence.
Qed.


(** ** The deployment script *)

Lemma later_refl c : later c c [].
Proof.
  exists (c_time c). split; [lia|]. destruct c; unfold set_clock; cbn.
  now rewrite app_nil_r.
Qed.

Lemma later_trans c c1 c2 l1 l2 :
  later c c1 l1 -> later c1 c2 l2 -> later c c2 (l1 ++ l2).
Proof.
  intros (t1 & Ht1 & ->) (t2 & Ht2 & ->). cbn in Ht2.
  exists t2. split; [lia|]. unfold set_clock; cbn. now rewrite app_assoc.
Qed.

Lemma later_time c c' l : later c c' l -> c_time c <= c_time c'.
Proof. now intros (t & Ht & ->). Qed.

Lemma later_calls c c' l : later c c' l -> c_calls c' = c_calls c ++ l.
Proof. now intros (t & Ht & ->). Qed.

Lemma later_sleep c d : 0 <= d -> later c (sleep d c) [].
Proof.
  intros Hd. exists (c_time c + d). split; [lia|]. cbn.
  now rewrite app_nil_r.
Qed.

Lemma later_pods c c' l : later c c' l -> c_pods c' = c_pods c.
Proof. now intros (t & Ht & ->). Qed.

Lemma later_latency c c' l : later c c' l -> c_latency c' = c_latency c.
Proof. now intros (t & Ht & ->). Qed.

Lemma perform_spec what c :
  exists c', perform what c = Ok tt c' /\ later c c' [(c_time c', what)] /\
             c_time c' = c_time c + Z.of_N (c_latency c (c_time c)).
Proof.
  eexists. split; [reflexivity|]. split; [|reflexivity].
  eexists. split; [|reflexivity]. lia.
Qed.

Lemma api_spec {A : Type} what (answer_at : Cluster -> Z -> api_reply A) c :
  exists c', api what answer_at c = Ok (answer_at c' (c_time c')) c' /\
             later c c' [(c_time c', what)] /\
             c_time c' = c_time c + Z.of_N (c_latency c (c_time c)).
Proof.
  destruct (perform_spec what c) as (c' & Hp & Hl & Ht).
  exists c'. split; [|now split]. unfold api. now rewrite (bind_value _ _ _ _ _ Hp).
Qed.

Lemma run_command_spec cmd check c :
  exists c',
    later c c' [(c_time c', ShellCall cmd)] /\
    run_command cmd check c =
      Ok (if returncode (c_shell c (c_time c') cmd) =? 0
          then Some (stdout (c_shell c (c_time c') cmd)) else None) c'.
Proof.
  destruct (perform_spec (ShellCall cmd) c) as (c' & Hp & Hl & Ht).
  exists c'. split; [exact Hl|].
  unfold run_command. rewrite (bind_value _ _ _ _ _ Hp).
  assert (Hsh : c_shell c' = c_shell c) by (now destruct Hl as (t & _ & ->)).
  rewrite Hsh.
  destruct (returncode (c_shell c (c_time c') cmd) =? 0); now destruct check.
Qed.

Lemma later_shell c c' l : later c c' l -> c_shell c' = c_shell c.
Proof. now intros (t & Ht & ->). Qed.

Lemma truthy_some_stdout (r : ProcessResult) :
  truthy (if returncode r =? 0 then Some (stdout r) else None) = true <->
  returncode r = 0 /\ stdout r <> "".
Proof.
  destruct (returncode r =? 0) eqn:Hrc.
  - apply Z.eqb_eq in Hrc. cbn. destruct (stdout r); cbn; split.
    + discriminate.
    + now intros [_ H].
    + intros _. split; [exact Hrc|discriminate].
    + reflexivity.
  - apply Z.eqb_neq in Hrc. cbn. split; [discriminate|]. now intros [H _].
Qed.

Lemma prefix_empty (s : string) : prefix "" s = true.
Proof. now destruct s. Qed.

(** X14. [deploy_with_helm] runs exactly two commands: the listing of the
    releases of the namespace, then one helm command.  That command is
    [helm upgrade] exactly when the listing exited with 0 and printed
    something, and [helm install] otherwise; the function returns [True]
    exactly when the helm command exited with 0, whatever it printed. *)
Theorem deploy_with_helm_upgrades_listed_release (args : Args) (c : Cluster) :
  exists b c' t1 t2 cmd,
    deploy_with_helm args c = Ok b c' /\
    later c c'
      [(t1, ShellCall ("helm list -n " ++ namespace args ++ " | grep insider-tests")%string);
       (t2, ShellCall cmd)] /\
    let listing :=
      c_shell c t1 ("helm list -n " ++ namespace args ++ " | grep insider-tests")%string in
    (prefix "helm upgrade insider-tests " cmd = true <->
       returncode listing = 0 /\ stdout listing <> "") /\
    (prefix "helm install insider-tests " cmd = true <->
       ~ (returncode listing = 0 /\ stdout listing <> "")) /\
    (b = true <-> returncode (c_shell c t2 cmd) = 0).
Proof.
  set (check_cmd := ("helm list -n " ++ namespace args ++ " | grep insider-tests")%string).
  destruct (run_command_spec check_cmd false c) as (c1 & Hl1 & Hr1).
  set (existing := if returncode (c_shell c (c_time c1) check_cmd) =? 0
                   then Some (stdout (c_shell c (c_time c1) check_cmd)) else None) in *.
  destruct (run_command_spec (helm_command args existing) true c1) as (c2 & Hl2 & Hr2).
  rewrite (later_shell _ _ _ Hl1) in Hr2.
  exists (returncode (c_shell c (c_time c2) (helm_command args existing)) =? 0),
         c2, (c_time c1), (c_time c2), (helm_command args existing).
  split.
  { unfold deploy_with_helm. fold check_cmd.
    change ("helm list -n " ++ namespace args ++ " | grep " ++ release_name)%string
      with check_cmd.
    rewrite (bind_value _ _ _ _ _ Hr1). fold existing.
    rewrite (bind_value _ _ _ _ _ Hr2).
    now destruct (returncode (c_shell c (c_time c2) (helm_command args existing)) =? 0). }
  split; [exact (later_trans _ _ _ _ _ Hl1 Hl2)|].
  cbv zeta.
  pose proof (truthy_some_stdout (c_shell c (c_time c1) check_cmd)) as Htr.
  fold existing in Htr.
  split; [|split].
  - rewrite <- Htr. unfold helm_command.
    destruct (truthy existing); destruct (truthy (values_file args)); cbn;
      rewrite ?prefix_empty; split; (congruence || tauto).
  - rewrite <- Htr. unfold helm_command.
    destruct (truthy existing); destruct (truthy (values_file args)); cbn;
      rewrite ?prefix_empty; split; (congruence || tauto).
  - apply Z.eqb_eq.
Qed.

(** X15. [cleanup_resources] runs the uninstall command once and returns
    [True] exactly when it exited with 0 and printed something: an uninstall
    that succeeds without output is reported as failed. *)
Theorem cleanup_resources_needs_output (args : Args) (c : Cluster) :
  exists b c',
    cleanup_resources args c = Ok b c' /\
    later c c'
      [(c_time c',
        ShellCall ("helm uninstall insider-tests --namespace " ++ namespace args)%string)] /\
    let result :=
      c_shell c (c_time c')
        ("helm uninstall insider-tests --namespace " ++ namespace args)%string in
    (b = true <-> returncode result = 0 /\ stdout result <> "").
Proof.
  set (cmd := ("helm uninstall insider-tests --namespace " ++ namespace args)%string).
  destruct (run_command_spec cmd true c) as (c1 & Hl1 & Hr1).
  pose proof (truthy_some_stdout (c_shell c (c_time c1) cmd)) as Htr.
  set (result := if returncode (c_shell c (c_time c1) cmd) =? 0
                 then Some (stdout (c_shell c (c_time c1) cmd)) else None) in *.
  exists (truthy result), c1. split; [|split; [exact Hl1|]].
  - unfold cleanup_resources. fold cmd. rewrite (bind_value _ _ _ _ _ Hr1).
    destruct (truthy result); reflexivity.
  - cbv zeta. exact Htr.
Qed.

(** *** The polling loops *)

Lemma length_filter_le {A : Type} (p : A -> bool) (l : list A) :
  (List.length (filter p l) <= List.length l)%nat.
Proof. induction l as [|x l IH]; cbn; [lia|]. destruct (p x); cbn; lia. Qed.

Lemma length_filter_all {A : Type} (p : A -> bool) (l : list A) :
  List.length (filter p l) = List.length l <-> forall x, In x l -> p x = true.
Proof.
  induction l as [|x l IH]; cbn.
  - split; [intros _ y []|reflexivity].
  - destruct (p x) eqn:Hx; cbn.
    + split.
      * intros Hlen y [<-|Hy]; [exact Hx|]. apply IH; [lia|exact Hy].
      * intros Hall. f_equal. apply IH. intros y Hy. apply Hall. now right.
    + pose proof (length_filter_le p l) as Hle. split; [lia|].
      intros Hall. specialize (Hall x (or_introl eq_refl)). congruence.
Qed.

Lemma pod_ready_iff (pod : Pod) : pod_ready pod = true <-> ready_pod pod.
Proof.
  unfold pod_ready, ready_pod. rewrite andb_true_iff, String.eqb_eq, existsb_exists.
  split.
  - intros [Hrun ([ty st] & Hin & Hc)]. split; [exact Hrun|].
    cbn in Hc. apply andb_true_iff in Hc. destruct Hc as [Hty Hst].
    apply String.eqb_eq in Hty, Hst. subst ty st.
    destruct (pod_conditions pod) as [cs|]; [|destruct Hin]. now exists cs.
  - intros [Hrun (cs & Hcs & Hin)]. split; [exact Hrun|].
    exists ("Ready", "True")%string. rewrite Hcs. split; [exact Hin|reflexivity].
Qed.

Lemma chrome_pods_of_In (pods : list Pod) (pod : Pod) :
  In pod (chrome_pods_of pods) <-> In pod pods /\ chrome_pod pod.
Proof.
  unfold chrome_pods_of, chrome_pod. rewrite filter_In, andb_true_iff, negb_true_iff,
    orb_false_iff, !String.eqb_neq. tauto.
Qed.

Lemma all_chrome_ready_iff (pods : list Pod) :
  all_chrome_ready pods = true <->
  (exists pod, In pod pods /\ chrome_pod pod) /\
  (forall pod, In pod pods -> chrome_pod pod -> ready_pod pod).
Proof.
  unfold all_chrome_ready. cbv zeta.
  rewrite andb_true_iff, Z.ltb_lt, Z.eqb_eq, Nat2Z.inj_iff, length_filter_all.
  split.
  - intros [Hpos Hall]. split.
    + destruct (chrome_pods_of pods) as [|pod rest] eqn:Hcp; [cbn in Hpos; lia|].
      exists pod. apply chrome_pods_of_In. rewrite Hcp. now left.
    + intros pod Hin Hch. apply pod_ready_iff, Hall, chrome_pods_of_In. now split.
  - intros [(pod & Hin & Hch) Hall]. split.
    + assert (Hcp : In pod (chrome_pods_of pods)) by (apply chrome_pods_of_In; now split).
      destruct (chrome_pods_of pods); [destruct Hcp|cbn; lia].
    + intros pod' Hin'. apply chrome_pods_of_In in Hin'. destruct Hin' as [Hin' Hch'].
      apply pod_ready_iff. now apply Hall.
Qed.

Lemma pods_ready_loop_spec ns start timeout : forall fuel c,
  1000 * timeout <= c_time c - start + 2000 * Z.of_nat fuel ->
  exists b c' l,
    pods_ready_loop fuel ns start timeout c = Ok b c' /\
    later c c' l /\
    (forall x, In x l -> snd x = ListPods ns None) /\
    (b = true ->
       In (c_time c', ListPods ns None) l /\
       exists pods, c_pods c (c_time c') ns None = inl pods /\
                    all_chrome_ready pods = true) /\
    (b = false ->
       (In (c_time c', ListPods ns None) l /\
        exists e, c_pods c (c_time c') ns None = inr e) \/
       1000 * timeout <= c_time c' - start).
Proof.
  induction fuel as [|fuel IH]; intros c Hfuel.
  - exists false, c, []. cbn [pods_ready_loop].
    replace (time c - start <? 1000 * timeout) with false
      by (symmetry; apply Z.ltb_ge; cbn in *; lia).
    split; [reflexivity|]. split; [apply later_refl|]. split; [intros x []|].
    split; [discriminate|]. intros _. right. cbn in *; lia.
  - cbn [pods_ready_loop].
    destruct (time c - start <? 1000 * timeout) eqn:Hcond.
    2:{ exists false, c, []. split; [reflexivity|]. split; [apply later_refl|].
        split; [intros x []|]. split; [discriminate|]. intros _. right.
        apply Z.ltb_ge in Hcond. cbn in *; lia. }
    destruct (api_spec (ListPods ns None) (fun c t => c_pods c t ns None) c)
      as (c1 & Hapi & Hl1 & Ht1).
    rewrite Hapi. rewrite (later_pods _ _ _ Hl1).
    destruct (c_pods c (c_time c1) ns None) as [pods|e] eqn:Hreply.
    + destruct (all_chrome_ready pods) eqn:Hready.
      * exists true, c1, [(c_time c1, ListPods ns None)].
        split; [reflexivity|]. split; [exact Hl1|].
        split; [intros x [<-|[]]; reflexivity|].
        split; [|discriminate]. intros _. split; [now left|]. now exists pods.
      * assert (Hl2 : later c1 (sleep 2000 c1) []) by (apply later_sleep; lia).
        destruct (IH (sleep 2000 c1)) as (b & c' & l & Hrun & Hl & Hcalls & Htrue & Hfalse).
        { change (c_time (sleep 2000 c1)) with (c_time c1 + 2000). lia. }
        exists b, c', ([(c_time c1, ListPods ns None)] ++ l).
        split; [exact Hrun|].
        pose proof (later_trans _ _ _ _ _ Hl1 (later_trans _ _ _ _ _ Hl2 Hl)) as Hlater.
        split; [exact Hlater|].
        assert (Hpods : c_pods (sleep 2000 c1) = c_pods c)
          by (rewrite (later_pods _ _ _ Hl2); exact (later_pods _ _ _ Hl1)).
        rewrite Hpods in Htrue, Hfalse.
        split; [intros x [<-|Hx]; [reflexivity|now apply Hcalls]|].
        split.
        -- intros Hb. destruct (Htrue Hb) as [Hin Hp]. split; [now right|exact Hp].
        -- intros Hb. destruct (Hfalse Hb) as [[Hin He]|Hto]; [left|now right].
           split; [now right|exact He].
    + exists false, c1, [(c_time c1, ListPods ns None)].
      split; [reflexivity|]. split; [exact Hl1|].
      split; [intros x [<-|[]]; reflexivity|].
      split; [discriminate|]. intros _. left. split; [now left|]. now exists e.
Qed.

Lemma wait_for_pods_ready_spec ns timeout c :
  exists b c' l,
    wait_for_pods_ready ns timeout c = Ok b c' /\
    later c c' l /\
    (forall x, In x l -> snd x = ListPods ns None) /\
    (b = true ->
       In (c_time c', ListPods ns None) l /\
       exists pods, c_pods c (c_time c') ns None = inl pods /\
                    all_chrome_ready pods = true) /\
    (b = false ->
       (In (c_time c', ListPods ns None) l /\
        exists e, c_pods c (c_time c') ns None = inr e) \/
       1000 * timeout <= c_time c' - c_time c).
Proof.
  unfold wait_for_pods_ready. apply pods_ready_loop_spec.
  change (time c) with (c_time c). lia.
Qed.

(** X16. [wait_for_pods_ready] always returns.  It returns [True] only on a
    listing, the last call it made, that shows at least one chrome pod (not
    finished, named like a chrome node) and every chrome pod running with
    the condition Ready = True; it returns [False] only when that last
    listing failed with an [ApiException] or when the timeout has elapsed. *)
Theorem wait_for_pods_ready_verdict (ns : string) (timeout : Z) (c : Cluster) :
  exists b c' l,
    wait_for_pods_ready ns timeout c = Ok b c' /\
    later c c' l /\
    (b = true ->
       In (c_time c', ListPods ns None) l /\
       exists pods,
         c_pods c (c_time c') ns None = inl pods /\
         (exists pod, In pod pods /\ chrome_pod pod) /\
         (forall pod, In pod pods -> chrome_pod pod -> ready_pod pod)) /\
    (b = false ->
       (In (c_time c', ListPods ns None) l /\
        exists e, c_pods c (c_time c') ns None = inr e) \/
       1000 * timeout <= c_time c' - c_time c).
Proof.
  destruct (wait_for_pods_ready_spec ns timeout c)
    as (b & c' & l & Hrun & Hl & _ & Htrue & Hfalse).
  exists b, c', l. split; [exact Hrun|]. split; [exact Hl|]. split; [|exact Hfalse].
  intros Hb. destruct (Htrue Hb) as [Hin (pods & Hreply & Hready)].
  split; [exact Hin|]. exists pods. split; [exact Hreply|].
  now apply all_chrome_ready_iff.
Qed.

Lemma test_completion_loop_spec ns start timeout : forall fuel c,
  1000 * timeout <= c_time c - start + 2000 * Z.of_nat fuel ->
  exists r c' l,
    test_completion_loop fuel ns start timeout c = Ok r c' /\
    later c c' l /\
    (forall x, In x l -> snd x = ListPods ns TEST_CONTROLLER) /\
    (forall name, r = Some name ->
       In (c_time c', ListPods ns TEST_CONTROLLER) l /\
       exists pod rest,
         c_pods c (c_time c') ns TEST_CONTROLLER = inl (pod :: rest) /\
         pod_name pod = name /\
         (pod_phase pod = "Succeeded" \/ pod_phase pod = "Failed")%string) /\
    (r = None ->
       (In (c_time c', ListPods ns TEST_CONTROLLER) l /\
        exists e, c_pods c (c_time c') ns TEST_CONTROLLER = inr e) \/
       1000 * timeout <= c_time c' - start).
Proof.
  induction fuel as [|fuel IH]; intros c Hfuel.
  - exists None, c, []. cbn [test_completion_loop].
    replace (time c - start <? 1000 * timeout) with false
      by (symmetry; apply Z.ltb_ge; cbn in *; lia).
    split; [reflexivity|]. split; [apply later_refl|]. split; [intros x []|].
    split; [discriminate|]. intros _. right. cbn in *; lia.
  - cbn [test_completion_loop].
    destruct (time c - start <? 1000 * timeout) eqn:Hcond.
    2:{ exists None, c, []. split; [reflexivity|]. split; [apply later_refl|].
        split; [intros x []|]. split; [discriminate|]. intros _. right.
        apply Z.ltb_ge in Hcond. cbn in *; lia. }
    destruct (api_spec (ListPods ns TEST_CONTROLLER)
                (fun c t => c_pods c t ns TEST_CONTROLLER) c)
      as (c1 & Hapi & Hl1 & Ht1).
    rewrite Hapi. rewrite (later_pods _ _ _ Hl1).
    assert (Hl2 : later c1 (sleep 2000 c1) []) by (apply later_sleep; lia).
    assert (Hpods : c_pods (sleep 2000 c1) = c_pods c)
      by (rewrite (later_pods _ _ _ Hl2); exact (later_pods _ _ _ Hl1)).
    assert (Hagain :
      exists r c' l,
        test_completion_loop fuel ns start timeout (sleep 2000 c1) = Ok r c' /\
        later c c' l /\
        (forall x, In x l -> snd x = ListPods ns TEST_CONTROLLER) /\
        (forall name, r = Some name ->
           In (c_time c', ListPods ns TEST_CONTROLLER) l /\
           exists pod rest,
             c_pods c (c_time c') ns TEST_CONTROLLER = inl (pod :: rest) /\
             pod_name pod = name /\
             (pod_phase pod = "Succeeded" \/ pod_phase pod = "Failed")%string) /\
        (r = None ->
           (In (c_time c', ListPods ns TEST_CONTROLLER) l /\
            exists e, c_pods c (c_time c') ns TEST_CONTROLLER = inr e) \/
           1000 * timeout <= c_time c' - start)).
    { destruct (IH (sleep 2000 c1)) as (r & c' & l & Hrun & Hl & Hcalls & Hsome & Hnone).
      { change (c_time (sleep 2000 c1)) with (c_time c1 + 2000). lia. }
      exists r, c', ([(c_time c1, ListPods ns TEST_CONTROLLER)] ++ l).
      split; [exact Hrun|].
      split; [exact (later_trans _ _ _ _ _ Hl1 (later_trans _ _ _ _ _ Hl2 Hl))|].
      rewrite Hpods in Hsome, Hnone.
      split; [intros x [<-|Hx]; [reflexivity|now apply Hcalls]|].
      split.
      - intros name Hr. destruct (Hsome name Hr) as [Hin Hp]. split; [now right|exact Hp].
      - intros Hr. destruct (Hnone Hr) as [[Hin He]|Hto]; [left|now right].
        split; [now right|exact He]. }
    destruct (c_pods c (c_time c1) ns TEST_CONTROLLER) as [[|pod rest]|e] eqn:Hreply.
    + exact Hagain.
    + cbv zeta.
      destruct (pod_phase pod =? "Succeeded")%string eqn:Hs;
        [|destruct (pod_phase pod =? "Failed")%string eqn:Hf]; [| |exact Hagain].
      * exists (Some (pod_name pod)), c1, [(c_time c1, ListPods ns TEST_CONTROLLER)].
        split; [reflexivity|]. split; [exact Hl1|].
        split; [intros x [<-|[]]; reflexivity|].
        split; [|discriminate]. intros name [= <-]. split; [now left|].
        exists pod, rest. split; [exact Hreply|]. split; [reflexivity|].
        left. now apply String.eqb_eq.
      * exists (Some (pod_name pod)), c1, [(c_time c1, ListPods ns TEST_CONTROLLER)].
        split; [reflexivity|]. split; [exact Hl1|].
        split; [intros x [<-|[]]; reflexivity|].
        split; [|discriminate]. intros name [= <-]. split; [now left|].
        exists pod, rest. split; [exact Hreply|]. split; [reflexivity|].
        right. now apply String.eqb_eq.
    + exists None, c1, [(c_time c1, ListPods ns TEST_CONTROLLER)].
      split; [reflexivity|]. split; [exact Hl1|].
      split; [intros x [<-|[]]; reflexivity|].
      split; [discriminate|]. intros _. left. split; [now left|]. now exists e.
Qed.

Lemma wait_for_test_completion_spec ns timeout c :
  exists r c' l,
    wait_for_test_completion ns timeout c = Ok r c' /\
    later c c' l /\
    (forall x, In x l -> snd x = ListPods ns TEST_CONTROLLER) /\
    (forall name, r = Some name ->
       In (c_time c', ListPods ns TEST_CONTROLLER) l /\
       exists pod rest,
         c_pods c (c_time c') ns TEST_CONTROLLER = inl (pod :: rest) /\
         pod_name pod = name /\
         (pod_phase pod = "Succeeded" \/ pod_phase pod = "Failed")%string) /\
    (r = None ->
       (In (c_time c', ListPods ns TEST_CONTROLLER) l /\
        exists e, c_pods c (c_time c') ns TEST_CONTROLLER = inr e) \/
       1000 * timeout <= c_time c' - c_time c).
Proof.
  unfold wait_for_test_completion. apply test_completion_loop_spec.
  change (time c) with (c_time c). lia.
Qed.

(** X17. [wait_for_test_completion] always returns.  A pod name it returns
    is the name of the first pod of the last listing it made, and that pod
    has succeeded or has failed: the two are not told apart.  It returns
    [None] only when that last listing failed with an [ApiException] or
    when the timeout has elapsed. *)
Theorem wait_for_test_completion_first_finished_pod
    (ns : string) (timeout : Z) (c : Cluster) :
  exists r c' l,
    wait_for_test_completion ns timeout c = Ok r c' /\
    later c c' l /\
    (forall name, r = Some name ->
       In (c_time c', ListPods ns TEST_CONTROLLER) l /\
       exists pod rest,
         c_pods c (c_time c') ns TEST_CONTROLLER = inl (pod :: rest) /\
         pod_name pod = name /\
         (pod_phase pod = "Succeeded" \/ pod_phase pod = "Failed")%string) /\
    (r = None ->
       (In (c_time c', ListPods ns TEST_CONTROLLER) l /\
        exists e, c_pods c (c_time c') ns TEST_CONTROLLER = inr e) \/
       1000 * timeout <= c_time c' - c_time c).
Proof.
  destruct (wait_for_test_completion_spec ns timeout c)
    as (r & c' & l & Hrun & Hl & _ & Hsome & Hnone).
  now exists r, c', l.
Qed.

(** *** The steps of [main] *)

Lemma never_runs_nil cmd : never_runs cmd [].
Proof. intros t []. Qed.

Lemma never_runs_app cmd l1 l2 :
  never_runs cmd l1 -> never_runs cmd l2 -> never_runs cmd (l1 ++ l2).
Proof.
  intros H1 H2 t Hin. apply in_app_or in Hin. destruct Hin as [Hin|Hin];
    [exact (H1 t Hin)|exact (H2 t Hin)].
Qed.

Lemma never_runs_kind cmd (what : Call) l :
  (forall x, In x l -> snd x = what) -> what <> ShellCall cmd -> never_runs cmd l.
Proof. intros Hall Hne t Hin. apply Hne. symmetry. exact (Hall _ Hin). Qed.

Lemma no_shell_never_runs cmd l : no_shell l -> never_runs cmd l.
Proof. intros H t. apply H. Qed.

Lemma helm_command_not_uninstall args existing :
  helm_command args existing <>
  ("helm uninstall insider-tests --namespace " ++ namespace args)%string.
Proof.
  unfold helm_command.
  destruct (truthy existing); destruct (truthy (values_file args)); cbn; congruence.
Qed.

Lemma deploy_with_helm_calls args c :
  exists b c' l,
    deploy_with_helm args c = Ok b c' /\ later c c' l /\
    never_runs ("helm uninstall insider-tests --namespace " ++ namespace args)%string l /\
    (forall x, In x l -> exists cmd, snd x = ShellCall cmd).
Proof.
  set (check_cmd := ("helm list -n " ++ namespace args ++ " | grep " ++ release_name)%string).
  destruct (run_command_spec check_cmd false c) as (c1 & Hl1 & Hr1).
  set (existing := if returncode (c_shell c (c_time c1) check_cmd) =? 0
                   then Some (stdout (c_shell c (c_time c1) check_cmd)) else None) in *.
  destruct (run_command_spec (helm_command args existing) true c1) as (c2 & Hl2 & Hr2).
  exists (returncode (c_shell c1 (c_time c2) (helm_command args existing)) =? 0), c2.
  eexists.
  split.
  { unfold deploy_with_helm. fold check_cmd.
    rewrite (bind_value _ _ _ _ _ Hr1). fold existing.
    rewrite (bind_value _ _ _ _ _ Hr2).
    destruct (returncode (c_shell c1 (c_time c2) (helm_command args existing)) =? 0);
      reflexivity. }
  split; [exact (later_trans _ _ _ _ _ Hl1 Hl2)|]. split.
  - intros t [Hin|[Hin|[]]]; injection Hin as _ Hcmd.
    + unfold check_cmd in Hcmd. cbn in Hcmd. congruence.
    + exact (helm_command_not_uninstall _ _ Hcmd).
  - intros x [<-|[<-|[]]]; eexists; reflexivity.
Qed.

Lemma load_kube_config_spec c :
  exists b c', load_kube_config c = Ok b c' /\ later c c' [(c_time c', LoadKubeConfig)].
Proof.
  destruct (perform_spec LoadKubeConfig c) as (c' & Hp & Hl & Ht).
  exists (c_kube_config c' (c_time c')), c'. split; [|exact Hl].
  unfold load_kube_config. now rewrite (bind_value _ _ _ _ _ Hp).
Qed.

Lemma get_test_logs_spec ns pod c :
  exists b c', get_test_logs ns pod c = Ok b c' /\
               later c c' [(c_time c', ReadPodLog pod ns "test-runner")].
Proof.
  destruct (api_spec (ReadPodLog pod ns "test-runner")
              (fun c t => c_pod_log c t pod ns "test-runner") c)
    as (c' & Hapi & Hl & Ht).
  exists (match c_pod_log c' (c_time c') pod ns "test-runner" with
          | inl _ => true | inr _ => false end), c'. split; [|exact Hl].
  unfold get_test_logs. rewrite (bind_value _ _ _ _ _ Hapi).
  destruct (c_pod_log c' (c_time c') pod ns "test-runner"); reflexivity.
Qed.

Lemma cleanup_resources_calls args c :
  exists b c',
    cleanup_resources args c = Ok b c' /\
    later c c'
      [(c_time c',
        ShellCall ("helm uninstall insider-tests --namespace " ++ namespace args)%string)].
Proof.
  set (cmd := ("helm uninstall insider-tests --namespace " ++ namespace args)%string).
  destruct (run_command_spec cmd true c) as (c1 & Hl1 & Hr1).
  set (result := if returncode (c_shell c (c_time c1) cmd) =? 0
                 then Some (stdout (c_shell c (c_time c1) cmd)) else None) in *.
  exists (truthy result), c1. split; [|exact Hl1].
  unfold cleanup_resources. fold cmd. rewrite (bind_value _ _ _ _ _ Hr1).
  destruct (truthy result); reflexivity.
Qed.

Lemma show_services_spec svcs c :
  (show_services svcs c = Ok tt c /\ ~ exists svc, In svc svcs /\ portless svc) \/
  (show_services svcs c = Raise (Exception (Text "TypeError")) c /\
   exists svc, In svc svcs /\ portless svc).
Proof.
  induction svcs as [|svc rest IH]; cbn [show_services].
  - left. split; [reflexivity|]. intros (svc & [] & _).
  - destruct (svc_name svc =? "kubernetes")%string eqn:Hname.
    + apply String.eqb_eq in Hname.
      destruct IH as [[Hrun Hnone]|[Hrun (s & Hin & Hs)]].
      * left. split; [exact Hrun|]. intros (s & [<-|Hin] & Hs).
        -- now destruct Hs.
        -- apply Hnone. now exists s.
      * right. split; [exact Hrun|]. exists s. split; [now right|exact Hs].
    + apply String.eqb_neq in Hname. destruct (svc_ports svc) as [ports|] eqn:Hports.
      * destruct IH as [[Hrun Hnone]|[Hrun (s & Hin & Hs)]].
        -- left. split; [exact Hrun|]. intros (s & [<-|Hin] & Hs).
           ++ destruct Hs as [_ Hs]. congruence.
           ++ apply Hnone. now exists s.
        -- right. split; [exact Hrun|]. exists s. split; [now right|exact Hs].
      * right. split; [reflexivity|]. exists svc. split; [now left|now split].
Qed.

Lemma later_services c c' l : later c c' l -> c_services c' = c_services c.
Proof. now intros (t & Ht & ->). Qed.

Lemma later_deployments c c' l : later c c' l -> c_deployments c' = c_deployments c.
Proof. now intros (t & Ht & ->). Qed.

Lemma later_jobs c c' l : later c c' l -> c_jobs c' = c_jobs c.
Proof. now intros (t & Ht & ->). Qed.

Lemma bind_raised {S A B : Type} (m : M S A) (k : A -> M S B) s e s1 :
  m s = Raise e s1 -> bind m k s = Raise e s1.
Proof. intros Hm. unfold bind. now rewrite Hm. Qed.

Lemma display_cluster_info_spec ns c :
  exists c' l,
    later c c' l /\ no_shell l /\
    (display_cluster_info ns c = Ok tt c' \/
     display_cluster_info ns c = Raise (Exception (Text "TypeError")) c') /\
    (display_cluster_info ns c = Raise (Exception (Text "TypeError")) c' <->
     List.length l = 3%nat /\
     exists svcs, c_services c (c_time c') ns = inl svcs /\
                  exists svc, In svc svcs /\ portless svc).
Proof.
  unfold display_cluster_info.
  destruct (api_spec (ListDeployments ns) (fun c t => c_deployments c t ns) c)
    as (c1 & Hapi1 & Hl1 & Ht1).
  rewrite (bind_value _ _ _ _ _ Hapi1).
  destruct (c_deployments c1 (c_time c1) ns) as [deps|e1].
  2:{ exists c1, [(c_time c1, ListDeployments ns)]. split; [exact Hl1|].
      split; [intros t cmd [[=]|[]]|]. split; [now left|].
      split; [discriminate|]. intros [[=] _]. }
  destruct (api_spec (ListJobs ns) (fun c t => c_jobs c t ns) c1)
    as (c2 & Hapi2 & Hl2 & Ht2).
  rewrite (bind_value _ _ _ _ _ Hapi2).
  pose proof (later_trans _ _ _ _ _ Hl1 Hl2) as Hl12.
  destruct (c_jobs c2 (c_time c2) ns) as [jobs|e2].
  2:{ exists c2, ([(c_time c1, ListDeployments ns)] ++ [(c_time c2, ListJobs ns)]).
      split; [exact Hl12|].
      split; [intros t cmd [[=]|[[=]|[]]]|]. split; [now left|].
      split; [discriminate|]. intros [[=] _]. }
  destruct (api_spec (ListServices ns) (fun c t => c_services c t ns) c2)
    as (c3 & Hapi3 & Hl3 & Ht3).
  rewrite (bind_value _ _ _ _ _ Hapi3).
  pose proof (later_trans _ _ _ _ _ Hl12 Hl3) as Hl123.
  rewrite (later_services _ _ _ Hl123).
  exists c3, (([(c_time c1, ListDeployments ns)] ++ [(c_time c2, ListJobs ns)])
                ++ [(c_time c3, ListServices ns)]).
  split; [exact Hl123|].
  split; [intros t cmd [[=]|[[=]|[[=]|[]]]]|].
  destruct (c_services c (c_time c3) ns) as [svcs|e3].
  - destruct (show_services_spec svcs c3) as [[Hrun Hnone]|[Hrun Hsome]]; rewrite Hrun.
    + split; [now left|]. split; [discriminate|].
      intros [_ (svcs' & [= <-] & Hsvc)]. now destruct Hnone.
    + split; [now right|]. split; [|reflexivity]. intros _. split; [reflexivity|].
      now exists svcs.
  - split; [now left|]. split; [discriminate|]. intros [_ (svcs & [=] & _)].
Qed.

(** X18. [display_cluster_info] makes at most three listings and runs no
    command.  It returns normally, also when a listing fails with an
    [ApiException], except in one case: when all three listings were made
    and the services listed include one, not named kubernetes, whose ports
    are [None], a [TypeError] comes out of it, and it does in exactly that
    case. *)
Theorem display_cluster_info_portless_service (ns : string) (c : Cluster) :
  exists c' l,
    later c c' l /\ no_shell l /\ (List.length l <= 3)%nat /\
    (display_cluster_info ns c = Ok tt c' \/
     display_cluster_info ns c = Raise (Exception (Text "TypeError")) c') /\
    (display_cluster_info ns c = Raise (Exception (Text "TypeError")) c' <->
     List.length l = 3%nat /\
     exists svcs, c_services c (c_time c') ns = inl svcs /\
                  exists svc, In svc svcs /\ portless svc).
Proof.
  unfold display_cluster_info.
  destruct (api_spec (ListDeployments ns) (fun c t => c_deployments c t ns) c)
    as (c1 & Hapi1 & Hl1 & Ht1).
  rewrite (bind_value _ _ _ _ _ Hapi1).
  destruct (c_deployments c1 (c_time c1) ns) as [deps|e1].
  2:{ exists c1, [(c_time c1, ListDeployments ns)]. split; [exact Hl1|].
      split; [intros t cmd [[=]|[]]|]. split; [cbn; lia|]. split; [now left|].
      split; [discriminate|]. intros [[=] _]. }
  destruct (api_spec (ListJobs ns) (fun c t => c_jobs c t ns) c1)
    as (c2 & Hapi2 & Hl2 & Ht2).
  rewrite (bind_value _ _ _ _ _ Hapi2).
  pose proof (later_trans _ _ _ _ _ Hl1 Hl2) as Hl12.
  destruct (c_jobs c2 (c_time c2) ns) as [jobs|e2].
  2:{ exists c2, ([(c_time c1, ListDeployments ns)] ++ [(c_time c2, ListJobs ns)]).
      split; [exact Hl12|].
      split; [intros t cmd [[=]|[[=]|[]]]|]. split; [cbn; lia|]. split; [now left|].
      split; [discriminate|]. intros [[=] _]. }
  destruct (api_spec (ListServices ns) (fun c t => c_services c t ns) c2)
    as (c3 & Hapi3 & Hl3 & Ht3).
  rewrite (bind_value _ _ _ _ _ Hapi3).
  pose proof (later_trans _ _ _ _ _ Hl12 Hl3) as Hl123.
  rewrite (later_services _ _ _ Hl123).
  exists c3, (([(c_time c1, ListDeployments ns)] ++ [(c_time c2, ListJobs ns)])
                ++ [(c_time c3, ListServices ns)]).
  split; [exact Hl123|].
  split; [intros t cmd [[=]|[[=]|[[=]|[]]]]|]. split; [cbn; lia|].
  destruct (c_services c (c_time c3) ns) as [svcs|e3].
  - destruct (show_services_spec svcs c3) as [[Hrun Hnone]|[Hrun Hsome]]; rewrite Hrun.
    + split; [now left|]. split; [discriminate|].
      intros [_ (svcs' & [= <-] & Hsvc)]. now destruct Hnone.
    + split; [now right|]. split; [|reflexivity]. intros _. split; [reflexivity|].
      now exists svcs.
  - split; [now left|]. split; [discriminate|]. intros [_ (svcs & [=] & _)].
Qed.

(** *** [main] *)

Lemma wait_for_pods_ready_no_time ns timeout c :
  timeout <= 0 -> wait_for_pods_ready ns timeout c = Ok false c.
Proof.
  intros Hto. unfold wait_for_pods_ready.
  replace (Z.to_nat timeout) with 0%nat by lia. cbn [pods_ready_loop].
  replace (time c - time c <? 1000 * timeout) with false; [reflexivity|].
  symmetry. apply Z.ltb_ge. lia.
Qed.

(** X19. With a wait timeout of zero or less [main] always ends with exit
    status 1, and without ever listing the pods: when the deployment and the
    kube config succeed, the wait for the chrome nodes gives up before its
    first poll. *)
Theorem main_gives_up_without_wait_timeout (args : Args) (c : Cluster) :
  wait_timeout args <= 0 ->
  exists c' l,
    main args c = Ok 1 c' /\ later c c' l /\
    forall t ns sel, ~ In (t, ListPods ns sel) l.
Proof.
  intros Hto. unfold main.
  destruct (deploy_with_helm_calls args c) as (b1 & c1 & l1 & Hd & Hl1 & _ & Hsh1).
  assert (Hno1 : forall t ns sel, ~ In (t, ListPods ns sel) l1).
  { intros t ns sel Hin. destruct (Hsh1 _ Hin) as (cmd & [=]). }
  rewrite (bind_value _ _ _ _ _ Hd).
  destruct b1; cbn [negb]; [|now exists c1, l1].
  destruct (load_kube_config_spec c1) as (b2 & c2 & Hk & Hl2).
  rewrite (bind_value _ _ _ _ _ Hk).
  pose proof (later_trans _ _ _ _ _ Hl1 Hl2) as Hl12.
  assert (Hno2 : forall t ns sel,
             ~ In (t, ListPods ns sel) (l1 ++ [(c_time c2, LoadKubeConfig)])).
  { intros t ns sel Hin. apply in_app_or in Hin. destruct Hin as [Hin|[[=]|[]]].
    exact (Hno1 _ _ _ Hin). }
  destruct b2; cbn [negb]; [|now exists c2, (l1 ++ [(c_time c2, LoadKubeConfig)])].
  rewrite (bind_value _ _ _ _ _ (wait_for_pods_ready_no_time _ _ c2 Hto)).
  cbn [negb]. now exists c2, (l1 ++ [(c_time c2, LoadKubeConfig)]).
Qed.

Lemma main_gives_up_without_wait_timeout_witness :
  exists c' l,
    main {| node_count := 2; namespace := "default"; wait_timeout := 0;
            cleanup := true; helm_chart_path := "./helm/insider-tests";
            values_file := None |}
         (sample_cluster (fun _ => {| returncode := 0; stdout := "ok"; stderr := "" |})
                         (fun _ _ => inl []) (inl [])) = Ok 1 c' /\
    later (sample_cluster (fun _ => {| returncode := 0; stdout := "ok"; stderr := "" |})
                          (fun _ _ => inl []) (inl [])) c' l /\
    forall t ns sel, ~ In (t, ListPods ns sel) l.
Proof.
  apply (main_gives_up_without_wait_timeout
           {| node_count := 2; namespace := "default"; wait_timeout := 0;
              cleanup := true; helm_chart_path := "./helm/insider-tests";
              values_file := None |}).
  simpl. lia.
Defined.

(** X20. [main] always ends: with exit status 0, with exit status 1, or
    with the [TypeError] of [display_cluster_info].  The release is
    uninstalled exactly when cleanup was asked for and the run ends with exit
    status 0; on every failure path the release is left in place, also with
    --cleanup. *)
Theorem main_uninstalls_only_after_success (args : Args) (c : Cluster) :
  exists c' l,
    later c c' l /\
    (main args c = Ok 0 c' \/ main args c = Ok 1 c' \/
     main args c = Raise (Exception (Text "TypeError")) c') /\
    ((exists t,
        In (t, ShellCall ("helm uninstall insider-tests --namespace "
                            ++ namespace args)%string) l) <->
     main args c = Ok 0 c' /\ cleanup args = true).
Proof.
  set (uninstall := ("helm uninstall insider-tests --namespace " ++ namespace args)%string).
  assert (Hstop1 : forall c' l, later c c' l -> never_runs uninstall l ->
            main args c = Ok 1 c' ->
            exists c' l, later c c' l /\
              (main args c = Ok 0 c' \/ main args c = Ok 1 c' \/
               main args c = Raise (Exception (Text "TypeError")) c') /\
              ((exists t, In (t, ShellCall uninstall) l) <->
               main args c = Ok 0 c' /\ cleanup args = true)).
  { intros c' l Hl Hn Hrun. exists c', l. split; [exact Hl|]. rewrite Hrun.
    split; [right; now left|]. split.
    - intros (t & Hin). destruct (Hn t Hin).
    - intros [[=] _]. }
  destruct (deploy_with_helm_calls args c) as (b1 & c1 & l1 & Hd & Hl1 & Hn1 & _).
  fold uninstall in Hn1.
  assert (Hm1 : main args c =
    (if negb b1 then ret 1 else
     loaded <- load_kube_config ;;
     if negb loaded then ret 1 else
     ready <- wait_for_pods_ready (namespace args) (wait_timeout args) ;;
     if negb ready then ret 1 else
     display_cluster_info (namespace args) ;;;
     pod <- wait_for_test_completion (namespace args) (wait_timeout args) ;;
     match pod with
     | None => ret 1
     | Some pod_name =>
         if negb (truthy pod_name) then ret 1 else
         logs <- get_test_logs (namespace args) pod_name ;;
         if negb logs then ret 1 else
         (if cleanup args then cleanup_resources args ;;; ret tt else ret tt) ;;;
         ret 0
     end) c1).
  { unfold main. now rewrite (bind_value _ _ _ _ _ Hd). }
  destruct b1; cbn [negb] in Hm1; [|exact (Hstop1 _ _ Hl1 Hn1 Hm1)].
  destruct (load_kube_config_spec c1) as (b2 & c2 & Hk & Hl2).
  rewrite (bind_value _ _ _ _ _ Hk) in Hm1.
  pose proof (later_trans _ _ _ _ _ Hl1 Hl2) as Hl12.
  assert (Hn2 : never_runs uninstall (l1 ++ [(c_time c2, LoadKubeConfig)])).
  { apply never_runs_app; [exact Hn1|]. intros t [[=]|[]]. }
  destruct b2; cbn [negb] in Hm1; [|exact (Hstop1 _ _ Hl12 Hn2 Hm1)].
  destruct (wait_for_pods_ready_spec (namespace args) (wait_timeout args) c2)
    as (b3 & c3 & l3 & Hw & Hl3 & Hk3 & _).
  rewrite (bind_value _ _ _ _ _ Hw) in Hm1.
  pose proof (later_trans _ _ _ _ _ Hl12 Hl3) as Hl123.
  assert (Hn3 : never_runs uninstall ((l1 ++ [(c_time c2, LoadKubeConfig)]) ++ l3)).
  { apply never_runs_app; [exact Hn2|].
    apply (never_runs_kind _ _ _ Hk3). discriminate. }
  destruct b3; cbn [negb] in Hm1; [|exact (Hstop1 _ _ Hl123 Hn3 Hm1)].
  destruct (display_cluster_info_spec (namespace args) c3)
    as (c4 & l4 & Hl4 & Hns4 & Hd4 & _).
  pose proof (later_trans _ _ _ _ _ Hl123 Hl4) as Hl1234.
  assert (Hn4 : never_runs uninstall
                  (((l1 ++ [(c_time c2, LoadKubeConfig)]) ++ l3) ++ l4)).
  { apply never_runs_app; [exact Hn3|]. now apply no_shell_never_runs. }
  destruct Hd4 as [Hd4|Hd4].
  2:{ rewrite (bind_raised _ _ _ _ _ Hd4) in Hm1.
      eexists c4, _. split; [exact Hl1234|]. rewrite Hm1.
      split; [right; now right|]. split.
      - intros (t & Hin). destruct (Hn4 t Hin).
      - intros [[=] _]. }
  rewrite (bind_value _ _ _ _ _ Hd4) in Hm1.
  destruct (wait_for_test_completion_spec (namespace args) (wait_timeout args) c4)
    as (r & c5 & l5 & Hc & Hl5 & Hk5 & _).
  rewrite (bind_value _ _ _ _ _ Hc) in Hm1.
  pose proof (later_trans _ _ _ _ _ Hl1234 Hl5) as Hl12345.
  assert (Hn5 : never_runs uninstall
                  ((((l1 ++ [(c_time c2, LoadKubeConfig)]) ++ l3) ++ l4) ++ l5)).
  { apply never_runs_app; [exact Hn4|].
    apply (never_runs_kind _ _ _ Hk5). discriminate. }
  destruct r as [name|]; [|exact (Hstop1 _ _ Hl12345 Hn5 Hm1)].
  destruct (truthy name); cbn [negb] in Hm1; [|exact (Hstop1 _ _ Hl12345 Hn5 Hm1)].
  destruct (get_test_logs_spec (namespace args) name c5) as (b6 & c6 & Hg & Hl6).
  rewrite (bind_value _ _ _ _ _ Hg) in Hm1.
  pose proof (later_trans _ _ _ _ _ Hl12345 Hl6) as Hl123456.
  assert (Hn6 : never_runs uninstall
                  (((((l1 ++ [(c_time c2, LoadKubeConfig)]) ++ l3) ++ l4) ++ l5)
                     ++ [(c_time c6, ReadPodLog name (namespace args) "test-runner")])).
  { apply never_runs_app; [exact Hn5|]. intros t [[=]|[]]. }
  destruct b6; cbn [negb] in Hm1; [|exact (Hstop1 _ _ Hl123456 Hn6 Hm1)].
  destruct (cleanup args) eqn:Hcleanup.
  - destruct (cleanup_resources_calls args c6) as (b7 & c7 & Hu & Hl7).
    fold uninstall in Hl7.
    assert (Hm7 : main args c = Ok 0 c7).
    { rewrite Hm1. unfold bind at 1. unfold bind at 1. now rewrite Hu. }
    eexists c7, _. split; [exact (later_trans _ _ _ _ _ Hl123456 Hl7)|].
    rewrite Hm7. split; [now left|]. split; [now intros _|].
    intros _. exists (c_time c7). apply in_or_app. right. now left.
  - eexists c6, _. split; [exact Hl123456|]. rewrite Hm1.
    split; [now left|]. split.
    + intros (t & Hin). destruct (Hn6 t Hin).
    + intros [_ [=]].
Qed.

(** *** Succeeded and failed pods *)

Lemma blind_ret {A : Type} (a : A) : blind_to_verdicts (ret a).
Proof. intros c. reflexivity. Qed.

Lemma blind_bind {A B : Type} (m : M Cluster A) (k : A -> M Cluster B) :
  blind_to_verdicts m -> (forall a, blind_to_verdicts (k a)) ->
  blind_to_verdicts (bind m k).
Proof.
  intros Hm Hk c. unfold bind. rewrite Hm.
  destruct (m c) as [a c1|e c1|]; cbn; [apply Hk|reflexivity|reflexivity].
Qed.

Lemma blind_if {A : Type} (b : bool) (m1 m2 : M Cluster A) :
  blind_to_verdicts m1 -> blind_to_verdicts m2 ->
  blind_to_verdicts (if b then m1 else m2).
Proof. now destruct b. Qed.

Lemma blind_perform what : blind_to_verdicts (perform what).
Proof. intros c. reflexivity. Qed.

Lemma blind_run_command cmd check : blind_to_verdicts (run_command cmd check).
Proof.
  intros c. unfold run_command, bind. cbn.
  destruct (check && _); [reflexivity|]. now destruct (returncode _ =? 0).
Qed.

Lemma blind_deploy_with_helm args : blind_to_verdicts (deploy_with_helm args).
Proof.
  unfold deploy_with_helm. apply blind_bind; [apply blind_run_command|].
  intros existing. apply blind_bind; [apply blind_run_command|].
  intros [out|]; apply blind_ret.
Qed.

Lemma blind_load_kube_config : blind_to_verdicts load_kube_config.
Proof. intros c. reflexivity. Qed.

Lemma blind_get_test_logs ns pod : blind_to_verdicts (get_test_logs ns pod).
Proof.
  unfold get_test_logs. apply blind_bind; [intros c; reflexivity|].
  intros [logs|e]; apply blind_ret.
Qed.

Lemma blind_cleanup_resources args : blind_to_verdicts (cleanup_resources args).
Proof.
  unfold cleanup_resources. apply blind_bind; [apply blind_run_command|].
  intros result. destruct (truthy result); apply blind_ret.
Qed.

Lemma blind_show_services svcs : blind_to_verdicts (show_services svcs).
Proof.
  induction svcs as [|svc rest IH]; cbn [show_services]; [apply blind_ret|].
  destruct (svc_name svc =? "kubernetes")%string; [exact IH|].
  destruct (svc_ports svc); [exact IH|]. intros c. reflexivity.
Qed.

Lemma blind_display_cluster_info ns : blind_to_verdicts (display_cluster_info ns).
Proof.
  unfold display_cluster_info. apply blind_bind; [intros c; reflexivity|].
  intros [deps|e]; [|apply blind_ret].
  apply blind_bind; [intros c; reflexivity|].
  intros [jobs|e]; [|apply blind_ret].
  apply blind_bind; [intros c; reflexivity|].
  intros [svcs|e]; [apply blind_show_services|apply blind_ret].
Qed.

Lemma chrome_pods_of_exchange pods :
  chrome_pods_of (map exchange_phase pods) = chrome_pods_of pods.
Proof.
  unfold chrome_pods_of. induction pods as [|pod rest IH]; [reflexivity|].
  cbn [map filter]. rewrite IH. unfold exchange_phase.
  destruct (pod_phase pod =? "Succeeded")%string eqn:Hs; [reflexivity|].
  destruct (pod_phase pod =? "Failed")%string eqn:Hf; [reflexivity|].
  now rewrite Hs, Hf.
Qed.

Lemma all_chrome_ready_exchange pods :
  all_chrome_ready (map exchange_phase pods) = all_chrome_ready pods.
Proof. unfold all_chrome_ready. now rewrite chrome_pods_of_exchange. Qed.

Lemma blind_pods_ready_loop ns start timeout fuel :
  blind_to_verdicts (pods_ready_loop fuel ns start timeout).
Proof.
  induction fuel as [|fuel IH]; intros c; cbn [pods_ready_loop].
  - change (time (exchange_verdicts c)) with (time c).
    now destruct (time c - start <? 1000 * timeout).
  - change (time (exchange_verdicts c)) with (time c).
    destruct (time c - start <? 1000 * timeout); [|reflexivity].
    unfold api, bind. cbn.
    destruct (c_pods c (c_time c + Z.of_N (c_latency c (c_time c))) ns None)
      as [pods|e]; [|reflexivity].
    rewrite all_chrome_ready_exchange.
    destruct (all_chrome_ready pods); [reflexivity|]. now rewrite <- IH.
Qed.

Lemma blind_wait_for_pods_ready ns timeout :
  blind_to_verdicts (wait_for_pods_ready ns timeout).
Proof. intros c. unfold wait_for_pods_ready. apply blind_pods_ready_loop. Qed.

Lemma blind_test_completion_loop ns start timeout fuel :
  blind_to_verdicts (test_completion_loop fuel ns start timeout).
Proof.
  induction fuel as [|fuel IH]; intros c; cbn [test_completion_loop].
  - change (time (exchange_verdicts c)) with (time c).
    now destruct (time c - start <? 1000 * timeout).
  - change (time (exchange_verdicts c)) with (time c).
    destruct (time c - start <? 1000 * timeout); [|reflexivity].
    unfold api, bind. cbn.
    destruct (c_pods c (c_time c + Z.of_N (c_latency c (c_time c))) ns TEST_CONTROLLER)
      as [[|pod rest]|e]; [now rewrite <- IH| |reflexivity].
    cbn [map]. unfold exchange_phase.
    destruct (pod_phase pod =? "Succeeded")%string eqn:Hs; [reflexivity|].
    destruct (pod_phase pod =? "Failed")%string eqn:Hf; [reflexivity|].
    rewrite Hs, Hf. now rewrite <- IH.
Qed.

Lemma blind_wait_for_test_completion ns timeout :
  blind_to_verdicts (wait_for_test_completion ns timeout).
Proof. intros c. unfold wait_for_test_completion. apply blind_test_completion_loop. Qed.

(** X21. The script cannot tell a failed test run from a passed one:
    exchange Succeeded and Failed in the phase of every pod the cluster
    reports, and [main] makes the same calls at the same instants and ends
    the same way, with the same exit status. *)
Theorem main_blind_to_test_verdict (args : Args) (c : Cluster) :
  main args (exchange_verdicts c) = in_state exchange_verdicts (main args c).
Proof.
  revert c. change (blind_to_verdicts (main args)). unfold main.
  apply blind_bind; [apply blind_deploy_with_helm|]. intros deployed.
  apply blind_if; [apply blind_ret|].
  apply blind_bind; [apply blind_load_kube_config|]. intros loaded.
  apply blind_if; [apply blind_ret|].
  apply blind_bind; [apply blind_wait_for_pods_ready|]. intros ready.
  apply blind_if; [apply blind_ret|].
  apply blind_bind; [apply blind_display_cluster_info|]. intros _.
  apply blind_bind; [apply blind_wait_for_test_completion|]. intros [name|];
    [|apply blind_ret].
  apply blind_if; [apply blind_ret|].
  apply blind_bind; [apply blind_get_test_logs|]. intros logs.
  apply blind_if; [apply blind_ret|].
  apply blind_bind; [|intros _; apply blind_ret].
  apply blind_if; [|apply blind_ret].
  apply blind_bind; [apply blind_cleanup_resources|]. intros _. apply blind_ret.
Qed.

(** *** How long the waits take *)

Lemma pods_ready_loop_bound ns start timeout L : forall fuel c b c',
  (forall t, Z.of_N (c_latency c t) <= L) ->
  pods_ready_loop fuel ns start timeout c = Ok b c' ->
  c_time c' <= Z.max (c_time c) (start + 1000 * timeout + L + 1999).
Proof.
  induction fuel as [|fuel IH]; intros c b c' Hlat; cbn [pods_ready_loop];
    change (time c) with (c_time c);
    destruct (c_time c - start <? 1000 * timeout) eqn:Hcond;
    try discriminate; try (intros [= _ <-]; lia).
  apply Z.ltb_lt in Hcond.
  destruct (api_spec (ListPods ns None) (fun c t => c_pods c t ns None) c)
    as (c1 & Hapi & Hl1 & Ht1).
  rewrite Hapi. specialize (Hlat (c_time c)) as Hnow.
  destruct (c_pods c1 (c_time c1) ns None) as [pods|e]; [|intros [= _ <-]; lia].
  destruct (all_chrome_ready pods); [intros [= _ <-]; lia|].
  intros Hrun. apply IH in Hrun.
  - change (c_time (sleep 2000 c1)) with (c_time c1 + 2000) in Hrun. lia.
  - intros t. change (c_latency (sleep 2000 c1)) with (c_latency c1).
    rewrite (later_latency _ _ _ Hl1). apply Hlat.
Qed.

Lemma test_completion_loop_bound ns start timeout L : forall fuel c r c',
  (forall t, Z.of_N (c_latency c t) <= L) ->
  test_completion_loop fuel ns start timeout c = Ok r c' ->
  c_time c' <= Z.max (c_time c) (start + 1000 * timeout + L + 1999).
Proof.
  induction fuel as [|fuel IH]; intros c r c' Hlat; cbn [test_completion_loop];
    change (time c) with (c_time c);
    destruct (c_time c - start <? 1000 * timeout) eqn:Hcond;
    try discriminate; try (intros [= _ <-]; lia).
  apply Z.ltb_lt in Hcond.
  destruct (api_spec (ListPods ns TEST_CONTROLLER)
              (fun c t => c_pods c t ns TEST_CONTROLLER) c)
    as (c1 & Hapi & Hl1 & Ht1).
  rewrite Hapi. specialize (Hlat (c_time c)) as Hnow.
  assert (Hagain :
    test_completion_loop fuel ns start timeout (sleep 2000 c1) = Ok r c' ->
    c_time c' <= Z.max (c_time c) (start + 1000 * timeout + L + 1999)).
  { intros Hrun. apply IH in Hrun.
    - change (c_time (sleep 2000 c1)) with (c_time c1 + 2000) in Hrun. lia.
    - intros t. change (c_latency (sleep 2000 c1)) with (c_latency c1).
      rewrite (later_latency _ _ _ Hl1). apply Hlat. }
  destruct (c_pods c1 (c_time c1) ns TEST_CONTROLLER) as [[|pod rest]|e];
    [exact Hagain| |intros [= _ <-]; lia].
  cbv zeta. destruct (pod_phase pod =? "Succeeded")%string; [intros [= _ <-]; lia|].
  destruct (pod_phase pod =? "Failed")%string; [intros [= _ <-]; lia|exact Hagain].
Qed.

(** X22. Both waits return, and they overrun their timeout by at most one
    call and one pause: when no call takes longer than [L] milliseconds,
    [wait_for_pods_ready] and [wait_for_test_completion] return less than
    [timeout] seconds plus [L] plus two seconds after they were entered, and
    at once when that bound is not positive. *)
Theorem waits_overrun_by_one_poll (ns : string) (timeout L : Z) (c : Cluster) :
  (forall t, Z.of_N (c_latency c t) <= L) ->
  (exists b c',
     wait_for_pods_ready ns timeout c = Ok b c' /\
     c_time c' - c_time c <= Z.max 0 (1000 * timeout + L + 1999)) /\
  (exists r c',
     wait_for_test_completion ns timeout c = Ok r c' /\
     c_time c' - c_time c <= Z.max 0 (1000 * timeout + L + 1999)).
Proof.
  intros Hlat. split.
  - destruct (wait_for_pods_ready_spec ns timeout c) as (b & c' & l & Hrun & _).
    exists b, c'. split; [exact Hrun|].
    apply (pods_ready_loop_bound _ _ _ L) in Hrun; [|exact Hlat].
    change (time c) with (c_time c) in Hrun. lia.
  - destruct (wait_for_test_completion_spec ns timeout c) as (r & c' & l & Hrun & _).
    exists r, c'. split; [exact Hrun|].
    apply (test_completion_loop_bound _ _ _ L) in Hrun; [|exact Hlat].
    change (time c) with (c_time c) in Hrun. lia.
Qed.

Lemma waits_overrun_by_one_poll_witness :
  (exists b c',
     wait_for_pods_ready "default" 5
       (sample_cluster (fun _ => {| returncode := 0; stdout := "ok"; stderr := "" |})
                       (fun _ _ => inl []) (inl [])) = Ok b c' /\
     c_time c' - 0 <= Z.max 0 (1000 * 5 + 100 + 1999)) /\
  (exists r c',
     wait_for_test_completion "default" 5
       (sample_cluster (fun _ => {| returncode := 0; stdout := "ok"; stderr := "" |})
                       (fun _ _ => inl []) (inl [])) = Ok r c' /\
     c_time c' - 0 <= Z.max 0 (1000 * 5 + 100 + 1999)).
Proof.
  apply (waits_overrun_by_one_poll "default" 5 100
           (sample_cluster (fun _ => {| returncode := 0; stdout := "ok"; stderr := "" |})
                           (fun _ _ => inl []) (inl []))).
  intros t. simpl. lia.
Defined.
